(** * The development SDK emulation layer of bizarre-ball-toss

    A shallow embedding of the dev-only SDK mock ([.remix/index.tsx], the
    file the game imports as [mocks/RemixSDKMock]) and of the game-state
    codec of the dashboard ([.remix/components/Panels/GameStatePanel.tsx]),
    with the storage wrapper they share ([.remix/utils/safeLocalStorage.ts])
    and the dashboard's [formatTimeAgo].

    Conventions of the embedding.
    - A JavaScript string is a [string]; one character stands for one
      UTF-16 code unit (code units below 256).
    - A JavaScript number that the code converts to text is an integer, a
      [Z], of a size that JavaScript prints in plain digits.
    - An object is an association list of own enumerable properties in
      insertion order.
    - [localStorage] is a finite map from keys to parsed contents.
    - [Date.now()] and [Math.random()] are readings handed in by the
      environment ([Tick]).
    - Each handler of the host runs to completion before the next one
      starts; timers are recorded when they are set and not fired; the
      callback of the [game_info] timer is a function of its own.
    - The host visits its registered windows in the order of the map's
      keys; what is stated about a fan-out does not depend on the order.
    - In the storage wrapper the browser's storage is a finite map from
      keys to text, with flags for the ways in which it can fail. *)

From Stdlib Require Import ZArith NArith List String Ascii DecimalString DecimalNat DecimalZ DecimalN.
From stdpp Require Import gmap strings list fin_maps.

Local Open Scope string_scope.
Local Open Scope list_scope.
Local Open Scope nat_scope.
Set Warnings "-register-all".
Set Default Proof Using "Type".

(** ** JavaScript values *)

Module Js.

Inductive value : Type :=
| VUndefined
| VNull
| VBool (b : bool)
| VNum (z : Z)
| VStr (s : string)
| VArr (items : list value)
| VObj (fields : list (string * value)).

Abbreviation object := (list (string * value)).

(** [typeof v === 'object'] together with [v] being truthy: arrays and
    objects; [null] is an object for [typeof] but falsy. *)
Definition isObjectLike (v : value) : bool :=
  match v with
  | VArr _ | VObj _ => true
  | _ => false
  end.

(** JavaScript truthiness. *)
Definition truthy (v : value) : bool :=
  match v with
  | VUndefined | VNull => false
  | VBool b => b
  | VNum z => negb (z =? 0)%Z
  | VStr s => negb (String.eqb s "")
  | VArr _ | VObj _ => true
  end.

Definition isUndefined (v : value) : bool :=
  match v with VUndefined => true | _ => false end.

(** [k in o] for an object with no inherited properties of interest. *)
Fixpoint hasKey (k : string) (o : object) : bool :=
  match o with
  | [] => false
  | (k', _) :: o' => if String.eqb k k' then true else hasKey k o'
  end.

(** [o[k]]: the value of the property, [undefined] when it is missing. *)
Fixpoint getKey (k : string) (o : object) : value :=
  match o with
  | [] => VUndefined
  | (k', v) :: o' => if String.eqb k k' then v else getKey k o'
  end.

(** The [...rest] of [const { k: _, ...rest } = o]. *)
Fixpoint removeKey (k : string) (o : object) : object :=
  match o with
  | [] => []
  | (k', v) :: o' =>
      if String.eqb k k' then removeKey k o' else (k', v) :: removeKey k o'
  end.

(** [{ ...o, k: v }]: an existing property keeps its place and takes the
    new value, a new property goes last. *)
Fixpoint setKey (k : string) (v : value) (o : object) : object :=
  match o with
  | [] => [(k, v)]
  | (k', v') :: o' =>
      if String.eqb k k' then (k', v) :: o' else (k', v') :: setKey k v o'
  end.

(** [v.k] on an arbitrary value that is neither [null] nor [undefined]:
    only plain objects carry the properties the code asks for. *)
Definition prop (k : string) (v : value) : value :=
  match v with
  | VObj o => getKey k o
  | _ => VUndefined
  end.

(** [a || b]. *)
Definition orElse (a b : value) : value := if truthy a then a else b.

(** Decimal text of an integer, as [String(n)] and template literals
    print it. *)
Definition decZ (z : Z) : string := NilZero.string_of_int (Z.to_int z).
Definition decN (n : N) : string := NilZero.string_of_uint (N.to_uint n).
Definition decNat (n : nat) : string := NilZero.string_of_uint (Nat.to_uint n).


Definition joinWith (sep : string) (parts : list string) : string :=
  match parts with
  | [] => ""
  | p :: ps => fold_left (fun acc q => acc +:+ sep +:+ q) ps p
  end.

(** [String(v)]. *)
Fixpoint toStr (v : value) : string :=
  match v with
  | VUndefined => "undefined"
  | VNull => "null"
  | VBool true => "true"
  | VBool false => "false"
  | VNum z => decZ z
  | VStr s => s
  | VArr items =>
      joinWith ","
        (map (fun x => match x with
                       | VUndefined | VNull => ""
                       | _ => toStr x
                       end) items)
  | VObj _ => "[object Object]"
  end.

(** What [JSON.parse(JSON.stringify(v))] gives back: properties holding
    [undefined] are dropped, [undefined] inside an array becomes [null]. *)
Fixpoint jsonify (v : value) : value :=
  match v with
  | VArr items =>
      VArr (map (fun x => match x with
                          | VUndefined => VNull
                          | _ => jsonify x
                          end) items)
  | VObj fields =>
      VObj (flat_map (fun kv => let '(k, x) := kv in
                                match x with
                                | VUndefined => []
                                | _ => [(k, jsonify x)]
                                end) fields)
  | _ => v
  end.

(** [s.trim()] on the white space below code unit 256. *)
Definition isSpace (c : ascii) : bool :=
  let n := nat_of_ascii c in
  (Nat.eqb n 9 || Nat.eqb n 10 || Nat.eqb n 11 || Nat.eqb n 12
   || Nat.eqb n 13 || Nat.eqb n 32 || Nat.eqb n 160)%bool.

Fixpoint trimStart (s : string) : string :=
  match s with
  | String c s' => if isSpace c then trimStart s' else s
  | EmptyString => EmptyString
  end.

Fixpoint trimEnd (s : string) : string :=
  match s with
  | String c s' =>
      match trimEnd s' with
      | EmptyString => if isSpace c then EmptyString else String c EmptyString
      | t => String c t
      end
  | EmptyString => EmptyString
  end.

Definition trim (s : string) : string := trimEnd (trimStart s).

End Js.

Import Js.

(** ** Game-state codec (GameStatePanel.tsx) *)

Module Codec.

(** [normalizeGameState(raw)]. An array carries neither key and comes
    back as it is, like every value that is not an object. *)
Definition normalizeGameState (raw : value) : value :=
  match raw with
  | VObj o =>
      if hasKey "gameState" o then
        let _deprecatedData := getKey "data" o in
        let rest := removeKey "data" o in
        if (isUndefined (getKey "gameState" rest)
            && negb (isUndefined _deprecatedData))%bool
        then VObj (setKey "gameState" _deprecatedData rest)
        else VObj rest
      else if hasKey "data" o then
        let data := getKey "data" o in
        let rest := removeKey "data" o in
        VObj (setKey "gameState" data rest)
      else raw
  | _ => raw
  end.

(** Where the value that a call returns comes from: it is the argument
    itself, or an object that the call creates. *)
Inductive Origin : Type :=
| TheArgument
| NewObject.

(** [normalizeGameState(raw)] together with the origin of its result:
    [return raw] hands back the argument, while the [rest] of a
    destructuring and an object literal are objects of their own. *)
Definition normalizeGameStateFrom (raw : value) : Origin * value :=
  match raw with
  | VObj o =>
      if hasKey "gameState" o then
        let _deprecatedData := getKey "data" o in
        let rest := removeKey "data" o in
        if (isUndefined (getKey "gameState" rest)
            && negb (isUndefined _deprecatedData))%bool
        then (NewObject, VObj (setKey "gameState" _deprecatedData rest))
        else (NewObject, VObj rest)
      else if hasKey "data" o then
        let data := getKey "data" o in
        let rest := removeKey "data" o in
        (NewObject, VObj (setKey "gameState" data rest))
      else (TheArgument, raw)
  | _ => (TheArgument, raw)
  end.

(** The reading of "empty" used when the specification says that the
    codec prefers [gameState] "if non-empty": a value that carries no
    state, that is [undefined], [null] or an object without properties. *)
Definition isEmptyState (v : value) : bool :=
  match v with
  | VUndefined | VNull => true
  | VObj [] => true
  | _ => false
  end.

End Codec.

(** ** Storage keys *)

Module Keys.

Definition inRange (lo hi : nat) (c : ascii) : bool :=
  let n := nat_of_ascii c in (Nat.leb lo n && Nat.leb n hi)%bool.

(** The character class [[a-zA-Z0-9-_]]. *)
Definition isKeyChar (c : ascii) : bool :=
  (inRange 97 122 c || inRange 65 90 c || inRange 48 57 c
   || Ascii.eqb c "-" || Ascii.eqb c "_")%bool.

(** [gameName.replace(/[^a-zA-Z0-9-_]/g, '_')]. *)
Fixpoint cleanName (gameName : string) : string :=
  match gameName with
  | EmptyString => EmptyString
  | String c rest =>
      String (if isKeyChar c then c else "_"%char) (cleanName rest)
  end.

(** [getGameStateKey(gameName)], the same in the mock and in the panel
    (whose copy first returns [null] where there is no window). *)
Definition getGameStateKey (gameName : string) : string :=
  "remix_game_state_" +:+ cleanName gameName.

Definition getSavedStatesKey (gameName : string) : string :=
  "remix_saved_states_" +:+ cleanName gameName.

Definition BROADCAST_STORAGE_KEY : string := "__remix_dev_host_broadcast__".
Definition PLAYER_ASSIGNMENTS_KEY : string := "__remix_dev_player_assignments__".

(** The sanitizer as the specification words it: every character outside
    the class is stripped. *)
Fixpoint stripName (gameName : string) : string :=
  match gameName with
  | EmptyString => EmptyString
  | String c rest =>
      if isKeyChar c then String c (stripName rest) else stripName rest
  end.

End Keys.

Import Keys.

(** ** Host controller (RemixDevHostController) *)

Module Host.

(** A window reference. *)
Definition Window := nat.

(** One reading of [Date.now()] and one draw of
    [Math.random().toString(36).slice(2, 10)]. *)
Record Tick := { now : N; rnd : string }.

Record GameStateEnvelope := {
  e_id : string;
  e_gameState : value;
  e_alertUserIds : option (list value)
}.

(** A player record. At run time [name] holds whatever a save payload
    supplied, so it is a [value]. *)
Record Player := {
  p_id : string;
  p_name : value;
  p_imageUrl : option string
}.

Record GameInfo := {
  gi_players : list Player;
  gi_player : Player;
  gi_initialGameState : option GameStateEnvelope
}.

Record StoredState := {
  gameState : option GameStateEnvelope;
  players : list Player;
  currentPlayerId : option string
}.

Record InstanceHints := {
  clientId : string;
  playerId : option string;
  playerName : option string
}.

(** What a message carries as its [data]. *)
Inductive Payload : Type :=
| PValue (v : value)
| PEnvelope (e : option GameStateEnvelope)
| PGameInfo (g : GameInfo)
| PHost (host : string)
| PClient (client : string)
| PAssigned (client player : string) (name : value)
| PMuted (isMuted : bool)
| PEmpty
| PUnhandled (type : string) (data : value).

Record BroadcastEnvelope := {
  senderId : string;
  b_type : string;
  b_data : Payload;
  timestamp : N
}.

(** The result of [JSON.parse] on the text kept under the game-state key:
    [pj_players] is [None] when the property is not an array,
    [pj_currentPlayerId] is [None] when it is not a string. *)
Record PersistedJson := {
  pj_gameState : option GameStateEnvelope;
  pj_players : option (list Player);
  pj_currentPlayerId : option string
}.

(** The contents of one [localStorage] entry: the text the host writes
    under its three keys, parsed, or some other text. A reader that finds
    an entry of another kind under its key treats it as text that does
    not parse. *)
Inductive Stored : Type :=
| StoredJson (parsed : PersistedJson)
| StoredAssignments (table : gmap string string)
| StoredBroadcast (b : BroadcastEnvelope)
| StoredText (raw : string).

Inductive Timer : Type :=
| SendGameInfo (client : string) (g : GameInfo)
| MuteDemo.

(** What the host posts or schedules. *)
Inductive Msg : Type :=
| ToClient (target : Window) (type : string) (data : Payload)
| DevEvent (type : string) (data : Payload)
| PanelBroadcast (type : string) (state : option GameStateEnvelope)
| SetTimeout (delay : N) (callback : Timer).

(** The controller's fields, followed by what it reads from its
    surroundings: the window it runs in, the cached game name, and
    [localStorage] behind [safeLocalStorage()]. *)
Record World := {
  hostId : string;
  isMultiplayer : bool;
  state : StoredState;
  clientWindows : gmap string Window;
  windowToClientId : gmap Window string;
  handledReadyClients : gset string;
  self : Window;
  gameName : string;
  storageAvailable : bool;
  localStorage : gmap string Stored
}.

Definition setState (s : StoredState) (w : World) : World :=
  {| hostId := hostId w; isMultiplayer := isMultiplayer w; state := s;
     clientWindows := clientWindows w; windowToClientId := windowToClientId w;
     handledReadyClients := handledReadyClients w; self := self w;
     gameName := gameName w; storageAvailable := storageAvailable w;
     localStorage := localStorage w |}.

Definition setClients (cw : gmap string Window) (wc : gmap Window string)
    (w : World) : World :=
  {| hostId := hostId w; isMultiplayer := isMultiplayer w; state := state w;
     clientWindows := cw; windowToClientId := wc;
     handledReadyClients := handledReadyClients w; self := self w;
     gameName := gameName w; storageAvailable := storageAvailable w;
     localStorage := localStorage w |}.

Definition setHandled (h : gset string) (w : World) : World :=
  {| hostId := hostId w; isMultiplayer := isMultiplayer w; state := state w;
     clientWindows := clientWindows w; windowToClientId := windowToClientId w;
     handledReadyClients := h; self := self w;
     gameName := gameName w; storageAvailable := storageAvailable w;
     localStorage := localStorage w |}.

Definition setStorage (ls : gmap string Stored) (w : World) : World :=
  {| hostId := hostId w; isMultiplayer := isMultiplayer w; state := state w;
     clientWindows := clientWindows w; windowToClientId := windowToClientId w;
     handledReadyClients := handledReadyClients w; self := self w;
     gameName := gameName w; storageAvailable := storageAvailable w;
     localStorage := ls |}.

(** *** safeLocalStorage *)

Definition getItem (key : string) (w : World) : option Stored :=
  if storageAvailable w then localStorage w !! key else None.

Definition setItem (key : string) (v : Stored) (w : World) : World :=
  if storageAvailable w then setStorage (<[key := v]> (localStorage w)) w
  else w.

Definition removeItem (key : string) (w : World) : World :=
  if storageAvailable w then setStorage (delete key (localStorage w)) w
  else w.

(** *** Module-level helpers of the mock *)

(** A string used as a condition: empty and missing are both falsy. *)
Definition truthyStr (o : option string) : option string :=
  match o with
  | Some s => if String.eqb s "" then None else Some s
  | None => None
  end.

Definition DEFAULT_PLAYERS : list Player :=
  [ {| p_id := "1"; p_name := VStr "Player 1"; p_imageUrl := None |};
    {| p_id := "2"; p_name := VStr "Player 2"; p_imageUrl := None |} ].

Definition createDefaultState : StoredState :=
  {| gameState := None; players := DEFAULT_PLAYERS; currentPlayerId := None |}.

Definition generateEnvelopeId (t : Tick) : string :=
  decN (now t) +:+ "-" +:+ rnd t.

Definition mintClientId (t : Tick) : string :=
  "client-" +:+ decN (now t) +:+ "-" +:+ rnd t.

Definition readPersistedState (w : World) : StoredState :=
  match getItem (getGameStateKey (gameName w)) w with
  | Some (StoredJson parsed) =>
      {| gameState := pj_gameState parsed;
         players :=
           match pj_players parsed with
           | Some ps => if (2 <=? length ps)%nat then ps else DEFAULT_PLAYERS
           | None => DEFAULT_PLAYERS
           end;
         currentPlayerId := pj_currentPlayerId parsed |}
  | _ => createDefaultState
  end.

Definition jsonifyItems (items : list value) : list value :=
  match jsonify (VArr items) with
  | VArr items' => items'
  | _ => []
  end.

Definition jsonifyEnvelope (e : GameStateEnvelope) : GameStateEnvelope :=
  {| e_id := e_id e;
     e_gameState := jsonify (e_gameState e);
     e_alertUserIds := jsonifyItems <$> e_alertUserIds e |}.

Definition jsonifyPlayer (p : Player) : Player :=
  {| p_id := p_id p; p_name := jsonify (p_name p); p_imageUrl := p_imageUrl p |}.

(** [JSON.stringify(state)] as [JSON.parse] reads it back. *)
Definition stringifyState (s : StoredState) : PersistedJson :=
  {| pj_gameState := jsonifyEnvelope <$> gameState s;
     pj_players := Some (jsonifyPlayer <$> players s);
     pj_currentPlayerId := currentPlayerId s |}.

Definition persistState (s : StoredState) (w : World) : World :=
  setItem (getGameStateKey (gameName w)) (StoredJson (stringifyState s)) w.

Definition readPlayerAssignments (w : World) : gmap string string :=
  match getItem PLAYER_ASSIGNMENTS_KEY w with
  | Some (StoredAssignments table) => table
  | _ => ∅
  end.

Definition writePlayerAssignments (assignments : gmap string string)
    (w : World) : World :=
  setItem PLAYER_ASSIGNMENTS_KEY (StoredAssignments assignments) w.

Definition clearPlayerAssignments (w : World) : World :=
  removeItem PLAYER_ASSIGNMENTS_KEY w.

(** *** Controller methods *)

Definition publishDevEvent (type : string) (data : Payload) : list Msg :=
  [DevEvent type data].

(** [sendGameEvent(type, data, targetClientId?)]. The fan-out visits the
    registered windows in the order of the map's keys. *)
Definition sendGameEvent (type : string) (data : Payload)
    (targetClientId : option string) (w : World) : list Msg :=
  match truthyStr targetClientId with
  | Some c =>
      match clientWindows w !! c with
      | Some targetWindow => [ToClient targetWindow type data]
      | None => []
      end
  | None =>
      if (size (clientWindows w) =? 0)%nat then [ToClient (self w) type data]
      else (fun kv => ToClient (snd kv) type data) <$> map_to_list (clientWindows w)
  end.

Definition broadcastToOtherWindows (type : string) (data : Payload)
    (stamp : N) (w : World) : World :=
  setItem BROADCAST_STORAGE_KEY
    (StoredBroadcast {| senderId := hostId w; b_type := type;
                        b_data := data; timestamp := stamp |}) w.

Definition triggerPlayAgain (w : World) : list Msg :=
  sendGameEvent "play_again" PEmpty None w ++ publishDevEvent "play_again" PEmpty.

Definition triggerMute (isMuted : bool) (w : World) : list Msg :=
  sendGameEvent "toggle_mute" (PMuted isMuted) None w
  ++ publishDevEvent "toggle_mute" (PMuted isMuted).

(** [registerClientWindow(targetWindow, explicitClientId)]: the new world,
    the client id returned, and the messages posted. *)
Definition registerClientWindow (targetWindow : Window)
    (explicitClientId : option string) (t : Tick) (w : World)
    : World * string * list Msg :=
  match truthyStr (windowToClientId w !! targetWindow) with
  | Some existingId =>
      (setClients (<[existingId := targetWindow]> (clientWindows w))
                  (windowToClientId w) w,
       existingId, [])
  | None =>
      let clientId :=
        match truthyStr explicitClientId with
        | Some e => if (0 <? String.length (trim e))%nat then trim e
                    else mintClientId t
        | None => mintClientId t
        end in
      let isFirstClient := (size (clientWindows w) =? 0)%nat in
      (setClients (<[clientId := targetWindow]> (clientWindows w))
                  (<[targetWindow := clientId]> (windowToClientId w)) w,
       clientId,
       publishDevEvent "client_registered" (PClient clientId)
       ++ (if isFirstClient then [SetTimeout 1500 MuteDemo] else []))
  end.

Fixpoint findIndexFrom {A : Type} (f : A → bool) (i : nat) (l : list A)
    : option nat :=
  match l with
  | [] => None
  | x :: l' => if f x then Some i else findIndexFrom f (S i) l'
  end.

(** [l.findIndex(f)], with [None] for [-1]. *)
Definition findIndex {A : Type} (f : A → bool) (l : list A) : option nat :=
  findIndexFrom f 0 l.

(** The identity resolution of [handleReady] (the [if]/[else] chain that
    assigns [resolvedPlayerId]): the id, and the player list, which grows
    by a synthesized player in the last branch. *)
Definition resolvePlayerId (multiplayer : bool) (ps : list Player)
    (assignments : gmap string string) (hints : InstanceHints)
    : string * list Player :=
  match truthyStr (playerId hints) with
  | Some hinted => (hinted, ps)
  | None =>
      match truthyStr (assignments !! clientId hints) with
      | Some assigned => (assigned, ps)
      | None =>
          if negb multiplayer then ("1", ps)
          else
            let assignedIds : gset string := map_img assignments in
            match find (fun p => negb (bool_decide (p_id p ∈ assignedIds))) ps with
            | Some available => (p_id available, ps)
            | None =>
                if (2 <=? length ps)%nat then ("1", ps)
                else
                  let nextIndex := (length ps + 1)%nat in
                  let resolved := decNat nextIndex in
                  (resolved,
                   ps ++ [ {| p_id := resolved;
                              p_name := VStr ("Player " +:+ decNat nextIndex);
                              p_imageUrl := None |} ])
            end
      end
  end.

(** [name !== hinted] on a stored name. *)
Definition nameDiffers (name : value) (hinted : string) : bool :=
  match name with
  | VStr n => negb (String.eqb n hinted)
  | _ => true
  end.

(** The block of [handleReady] under "Only add player if they don't
    exist". *)
Definition upsertPlayer (multiplayer : bool) (resolved : string)
    (hints : InstanceHints) (ps : list Player) : list Player :=
  match findIndex (fun p => String.eqb (p_id p) resolved) ps with
  | None =>
      if ((length ps <? 2)%nat || multiplayer)%bool then
        ps ++ [ {| p_id := resolved;
                   p_name := VStr (match truthyStr (playerName hints) with
                                   | Some n => n
                                   | None => "Player " +:+ resolved
                                   end);
                   p_imageUrl := None |} ]
      else ps
  | Some existingIndex =>
      match truthyStr (playerName hints), ps !! existingIndex with
      | Some n, Some p =>
          if nameDiffers (p_name p) n then
            <[existingIndex := {| p_id := p_id p; p_name := VStr n;
                                  p_imageUrl := p_imageUrl p |}]> ps
          else ps
      | _, _ => ps
      end
  end.

(** "For single player, ensure we only have one player". *)
Definition trimSinglePlayer (multiplayer : bool) (ps : list Player)
    : list Player :=
  if (negb multiplayer && (1 <? length ps)%nat)%bool then take 1 ps else ps.

(** [handleReady(sourceWindow)]; [hints] is what [readInstanceHints] reads
    from the source window (the host's own window when there is none). *)
Definition handleReady (sourceWindow : option Window) (hints : InstanceHints)
    (t : Tick) (w : World) : World * list Msg :=
  if bool_decide (clientId hints ∈ handledReadyClients w) then (w, [])
  else
    let w1 := setHandled ({[clientId hints]} ∪ handledReadyClients w) w in
    let loaded := readPersistedState w1 in
    let assignments := readPlayerAssignments w1 in
    let '(resolvedPlayerId, ps1) :=
      resolvePlayerId (isMultiplayer w) (players loaded) assignments hints in
    let w2 :=
      writePlayerAssignments (<[clientId hints := resolvedPlayerId]> assignments) w1 in
    let ps2 := upsertPlayer (isMultiplayer w) resolvedPlayerId hints ps1 in
    let ps3 := trimSinglePlayer (isMultiplayer w) ps2 in
    let s := {| gameState := gameState loaded; players := ps3;
                currentPlayerId := currentPlayerId loaded |} in
    let w3 := persistState s (setState s w2) in
    let '(w4, registeredId, posted) :=
      match sourceWindow with
      | Some win => registerClientWindow win (Some (clientId hints)) t w3
      | None =>
          (match clientWindows w3 !! clientId hints with
           | Some _ => w3
           | None => setClients (<[clientId hints := self w3]> (clientWindows w3))
                                (windowToClientId w3) w3
           end, clientId hints, [])
      end in
    match (match find (fun p => String.eqb (p_id p) resolvedPlayerId) ps3 with
           | Some p => Some p
           | None => head ps3
           end) with
    | None => (w4, posted)
    | Some player =>
        let gameInfo := {| gi_players := ps3; gi_player := player;
                           gi_initialGameState := gameState s |} in
        (w4,
         posted
         ++ publishDevEvent "game_info_assigned"
              (PAssigned registeredId resolvedPlayerId (p_name player))
         ++ [SetTimeout 50 (SendGameInfo registeredId gameInfo)])
    end.

(** One element of [typed.players.map(...)]; reading a property of
    [null] or [undefined] throws, which is [None] here. *)
Definition rosterEntry (index : nat) (p : value) : option Player :=
  match p with
  | VUndefined | VNull => None
  | _ =>
      Some {| p_id := toStr (orElse (prop "id" p)
                              (orElse (prop "playerId" p)
                                 (VNum (Z.of_nat (index + 1)))));
              p_name := orElse (prop "name" p)
                          (orElse (prop "username" p)
                             (VStr ("Player " +:+ decNat (index + 1))));
              p_imageUrl := None |}
  end.

Fixpoint rosterFrom (index : nat) (ps : list value) : option (list Player) :=
  match ps with
  | [] => Some []
  | p :: rest =>
      match rosterEntry index p with
      | None => None
      | Some q =>
          match rosterFrom (S index) rest with
          | None => None
          | Some qs => Some (q :: qs)
          end
      end
  end.

(** The roster a save payload offers: [typed.players] when [typed] is
    truthy and the property is an array of two or more elements. *)
Definition payloadRoster (typed : value) : option (list value) :=
  if truthy typed then
    match prop "players" typed with
    | VArr ps => if (2 <=? length ps)%nat then Some ps else None
    | _ => None
    end
  else None.

(** The turn indicator sniffed from the payload; [None] leaves
    [currentPlayerId] as it is. *)
Definition payloadTurn (typed : value) : option string :=
  if truthy typed then
    match prop "currentPlayer" typed with
    | VNum n => Some (decZ n)
    | _ =>
        match prop "turn" typed with
        | VStr turn => Some (if String.eqb turn "w" then "1" else "2")
        | _ => None
        end
    end
  else None.

(** The envelope built at the top of [handleSaveGameState]. *)
Definition makeEnvelope (data : value) (t : Tick) : option GameStateEnvelope :=
  if truthy (prop "gameState" data) then
    Some {| e_id := generateEnvelopeId t;
            e_gameState := prop "gameState" data;
            e_alertUserIds :=
              match prop "alertUserIds" data with
              | VArr ids => Some ids
              | _ => None
              end |}
  else None.

(** [handleSaveGameState(data)]; [t] feeds [generateEnvelopeId], [stamp]
    is the [Date.now()] of the broadcast. When the roster mapping throws,
    the envelope is already in [this.state] and nothing else happens. *)
Definition handleSaveGameState (data : value) (t : Tick) (stamp : N)
    (w : World) : World * list Msg :=
  if negb (isObjectLike data) then (w, [])
  else
    let envelope := makeEnvelope data t in
    let s0 := {| gameState := envelope; players := players (state w);
                 currentPlayerId := currentPlayerId (state w) |} in
    let typed := prop "gameState" data in
    match (match payloadRoster typed with
           | Some ps => rosterFrom 0 ps
           | None => Some (players s0)
           end) with
    | None => (setState s0 w, [])
    | Some ps =>
        let s := {| gameState := envelope; players := ps;
                    currentPlayerId :=
                      match payloadTurn typed with
                      | Some c => Some c
                      | None => currentPlayerId s0
                      end |} in
        let w1 := persistState s (setState s w) in
        (broadcastToOtherWindows "game_state_updated" (PEnvelope envelope) stamp w1,
         sendGameEvent "game_state_updated" (PEnvelope envelope) None w1
         ++ publishDevEvent "game_state_updated" (PEnvelope envelope))
    end.

Definition handleMultiplayerGameOver (data : value) (stamp : N) (w : World)
    : World * list Msg :=
  let s := {| gameState := None; players := players (state w);
              currentPlayerId := None |} in
  let w1 := persistState s (setState s w) in
  (clearPlayerAssignments
     (broadcastToOtherWindows "multiplayer_game_over" (PValue data) stamp w1),
   sendGameEvent "multiplayer_game_over" (PValue data) None w1
   ++ publishDevEvent "multiplayer_game_over" (PValue data)).

Definition resetState (w : World) : World * list Msg :=
  let w1 := persistState createDefaultState (setState createDefaultState w) in
  let w2 := setHandled ∅ (setClients ∅ ∅ (clearPlayerAssignments w1)) in
  (w2, sendGameEvent "game_state_updated" (PEnvelope None) None w2).

(** A message event as [handleIncomingMessage] sees it: the payload is an
    object with an [event] property. *)
Record Incoming := {
  m_fromRemixDevHost : bool;
  m_type : string;
  m_event_type : string;
  m_event_data : value;
  m_source : option Window;
  m_hints : InstanceHints
}.

(** The environment readings one message may consume. *)
Record Env := {
  t_envelope : Tick;
  t_panel : Tick;
  t_client : Tick;
  t_stamp : N
}.

(** The copy of the state posted to the dashboard panel. *)
Definition panelCopy (data : value) (t : Tick) : option GameStateEnvelope :=
  if truthy (prop "gameState" data) then
    Some {| e_id := generateEnvelopeId t;
            e_gameState := prop "gameState" data;
            e_alertUserIds := None |}
  else None.

(** [handleIncomingMessage]. A save handler suspends at its first [await],
    so what the [switch] posts after calling it goes out first. *)
Definition handleIncomingMessage (m : Incoming) (e : Env) (w : World)
    : World * list Msg :=
  if m_fromRemixDevHost m then (w, [])
  else if negb (String.eqb (m_type m) "game_event") then (w, [])
  else
    let type := m_event_type m in
    let data := m_event_data m in
    if String.eqb type "ready" then
      handleReady (m_source m) (m_hints m) (t_client e) w
    else if String.eqb type "save_game_state" then
      let '(w', posted) := handleSaveGameState data (t_envelope e) (t_stamp e) w in
      (w', publishDevEvent "single_player_save_game_state" (PValue data)
           ++ [PanelBroadcast "single_player_game_state_broadcast"
                 (panelCopy data (t_panel e))]
           ++ posted)
    else if String.eqb type "multiplayer_save_game_state" then
      let '(w', posted) := handleSaveGameState data (t_envelope e) (t_stamp e) w in
      (w', [PanelBroadcast "multiplayer_game_state_broadcast"
              (panelCopy data (t_panel e))]
           ++ posted)
    else if String.eqb type "refute_game_state" then
      (w, publishDevEvent "game_state_refuted" (PValue data))
    else if String.eqb type "multiplayer_game_over" then
      handleMultiplayerGameOver data (t_stamp e) w
    else if (String.eqb type "game_over" || String.eqb type "haptic_feedback"
             || String.eqb type "error")%bool then
      (w, publishDevEvent type (PValue data))
    else (w, publishDevEvent "unhandled_game_event" (PUnhandled type data)).

(** [handleStorageBroadcast(event)]: a broadcast written by another host
    is passed on to this host's clients. *)
Definition handleStorageBroadcast (key : string) (newValue : option Stored)
    (w : World) : list Msg :=
  if negb (String.eqb key BROADCAST_STORAGE_KEY) then []
  else
    match newValue with
    | Some (StoredBroadcast envelope) =>
        if String.eqb (senderId envelope) (hostId w) then []
        else sendGameEvent (b_type envelope) (b_data envelope) None w
    | _ => []
    end.

(** The constructor, up to the point where it returns. *)
Definition newHost (host : string) (multiplayer : bool) (selfWindow : Window)
    (name : string) (available : bool) (storage : gmap string Stored)
    : World * list Msg :=
  ({| hostId := host; isMultiplayer := multiplayer;
      state := createDefaultState;
      clientWindows := ∅; windowToClientId := ∅; handledReadyClients := ∅;
      self := selfWindow; gameName := name;
      storageAvailable := available; localStorage := storage |},
   publishDevEvent "host_initialized" (PHost host)).

(** What can happen to a host: a message arrives, the constructor's
    [readPersistedState().then(...)] runs, a window asks to be registered,
    a storage event arrives, or a dashboard command comes in. *)
Inductive Op : Type :=
| OpMessage (m : Incoming) (e : Env)
| OpLoaded
| OpRegister (win : Window) (explicitClientId : option string) (t : Tick)
| OpStorage (key : string) (newValue : option Stored)
| OpReset
| OpPlayAgain
| OpMute (isMuted : bool).

Definition step (o : Op) (w : World) : World * list Msg :=
  match o with
  | OpMessage m e => handleIncomingMessage m e w
  | OpLoaded => (setState (readPersistedState w) w, [])
  | OpRegister win explicit t =>
      let '(w', _, posted) := registerClientWindow win explicit t w in
      (w', posted)
  | OpStorage key newValue => (w, handleStorageBroadcast key newValue w)
  | OpReset => resetState w
  | OpPlayAgain => (w, triggerPlayAgain w)
  | OpMute isMuted => (w, triggerMute isMuted w)
  end.

Fixpoint run (ops : list Op) (w : World) : World * list Msg :=
  match ops with
  | [] => (w, [])
  | o :: rest =>
      let '(w1, posted) := step o w in
      let '(w2, posted') := run rest w1 in
      (w2, posted ++ posted')
  end.

(** *** Shorthands for stating properties *)

(** A [ready] message from a window whose hints are [hints]. *)
Definition readyMessage (source : option Window) (hints : InstanceHints)
    : Incoming :=
  {| m_fromRemixDevHost := false; m_type := "game_event";
     m_event_type := "ready"; m_event_data := VUndefined;
     m_source := source; m_hints := hints |}.

(** A save message of either variant. *)
Definition saveMessage (multiplayer : bool) (data : value) : Incoming :=
  {| m_fromRemixDevHost := false; m_type := "game_event";
     m_event_type := if multiplayer then "multiplayer_save_game_state"
                     else "save_game_state";
     m_event_data := data;
     m_source := None;
     m_hints := {| clientId := ""; playerId := None; playerName := None |} |}.

Definition gameOverMessage (data : value) : Incoming :=
  {| m_fromRemixDevHost := false; m_type := "game_event";
     m_event_type := "multiplayer_game_over"; m_event_data := data;
     m_source := None;
     m_hints := {| clientId := ""; playerId := None; playerName := None |} |}.

(** The players list kept under the game-state key, if any. *)
Definition persistedPlayers (w : World) : option (list Player) :=
  match localStorage w !! getGameStateKey (gameName w) with
  | Some (StoredJson parsed) => pj_players parsed
  | _ => None
  end.

Definition persistedJson (w : World) : option PersistedJson :=
  match localStorage w !! getGameStateKey (gameName w) with
  | Some (StoredJson parsed) => Some parsed
  | _ => None
  end.

(** The [game_info] replies scheduled among some messages. *)
Definition gameInfoReplies (posted : list Msg) : list (string * GameInfo) :=
  flat_map (fun m => match m with
                     | SetTimeout _ (SendGameInfo c g) => [(c, g)]
                     | _ => []
                     end) posted.

(** The envelopes sent out as [game_state_updated] dev events. *)
Definition savedEnvelopes (posted : list Msg) : list (option GameStateEnvelope) :=
  flat_map (fun m => match m with
                     | DevEvent "game_state_updated" (PEnvelope e) => [e]
                     | _ => []
                     end) posted.

Definition isReset (o : Op) : bool :=
  match o with OpReset => true | _ => false end.

(** The id [handleReady] resolves for [hints] in [w] and the player list
    it persists, for a client it has not handled yet. *)
Definition readyRoster (w : World) (hints : InstanceHints)
    : string * list Player :=
  let '(resolved, ps1) :=
    resolvePlayerId (isMultiplayer w) (players (readPersistedState w))
      (readPlayerAssignments w) hints in
  (resolved,
   trimSinglePlayer (isMultiplayer w)
     (upsertPlayer (isMultiplayer w) resolved hints ps1)).

(** The state [handleReady] leaves in [this.state] for such a client. *)
Definition readyState (w : World) (hints : InstanceHints) : StoredState :=
  {| gameState := gameState (readPersistedState w);
     players := snd (readyRoster w hints);
     currentPlayerId := currentPlayerId (readPersistedState w) |}.

(** The id a multiplayer host resolves over the roster with ids 1 and 2
    for a client without hint and without assignment. *)
Definition nextOfTwo (assignments : gmap string string) : string :=
  if bool_decide ("1" ∈ (map_img assignments : gset string)) then
    if bool_decide ("2" ∈ (map_img assignments : gset string)) then "1"
    else "2"
  else "1".

(** Whether the roster mapping of a save goes through without throwing. *)
Definition rosterReadable (data : value) : bool :=
  match payloadRoster (prop "gameState" data) with
  | Some ps => match rosterFrom 0 ps with Some _ => true | None => false end
  | None => true
  end.

(** The [player] of the reply: the resolved one, or else the first. *)
Definition readyPlayer (w : World) (hints : InstanceHints) : option Player :=
  match find (fun p => String.eqb (p_id p) (fst (readyRoster w hints)))
          (snd (readyRoster w hints)) with
  | Some p => Some p
  | None => head (snd (readyRoster w hints))
  end.

End Host.

(** ** Client SDK facade (FarcadeSDKMock) *)

Module Facade.

(** A promise is known by the position at which it was created. *)
Definition PromiseRef := nat.

(** The [event] of an outbound [{ type: 'game_event', event }]. *)
Record GameEvent := { g_type : string; g_data : value }.

Record Facade := {
  isClient : bool;
  target : option Host.Window;
  eventListeners : gmap string (list nat);
  readyPromiseResolve : option PromiseRef;
  hasHostReady : bool;
  readyPromise : option PromiseRef;
  readySent : bool;
  (** every promise created so far, pending ([None]) or resolved *)
  promises : list (option value);
  (** every [target.postMessage] so far, oldest first *)
  posted : list (Host.Window * GameEvent);
  (** every listener invocation so far: the callback and its argument *)
  called : list (nat * value)
}.

(** [new FarcadeSDKMock()]; [ctx] is [None] where there is no [window],
    and otherwise the parent window, or the window itself when it has no
    parent. *)
Definition construct (ctx : option Host.Window) : Facade :=
  {| isClient := bool_decide (is_Some ctx); target := ctx;
     eventListeners := ∅; readyPromiseResolve := None;
     hasHostReady := false; readyPromise := None; readySent := false;
     promises := []; posted := []; called := [] |}.

Definition sendMessage (type : string) (data : value) (f : Facade) : Facade :=
  match isClient f, target f with
  | true, Some win =>
      {| isClient := isClient f; target := target f;
         eventListeners := eventListeners f;
         readyPromiseResolve := readyPromiseResolve f;
         hasHostReady := hasHostReady f; readyPromise := readyPromise f;
         readySent := readySent f; promises := promises f;
         posted := posted f ++ [(win, {| g_type := type; g_data := data |})];
         called := called f |}
  | _, _ => f
  end.

(** [ready()]: the facade afterwards and the promise returned. *)
Definition ready (f : Facade) : Facade * PromiseRef :=
  match readyPromise f with
  | Some p => (f, p)
  | None =>
      let p := length (promises f) in
      let f1 :=
        {| isClient := isClient f; target := target f;
           eventListeners := eventListeners f;
           readyPromiseResolve := Some p;
           hasHostReady := hasHostReady f; readyPromise := Some p;
           readySent := readySent f; promises := promises f ++ [None];
           posted := posted f; called := called f |} in
      if negb (readySent f1) then
        (sendMessage "ready" VUndefined
           {| isClient := isClient f1; target := target f1;
              eventListeners := eventListeners f1;
              readyPromiseResolve := readyPromiseResolve f1;
              hasHostReady := hasHostReady f1; readyPromise := readyPromise f1;
              readySent := true; promises := promises f1;
              posted := posted f1; called := called f1 |}, p)
      else (f1, p)
  end.

(** Settling a promise: only a pending one takes the value. *)
Definition resolvePromise (p : PromiseRef) (data : value)
    (ps : list (option value)) : list (option value) :=
  match ps !! p with
  | Some None => <[p := Some data]> ps
  | _ => ps
  end.

Definition emit (eventType : string) (data : value) (f : Facade) : Facade :=
  let ready' := if String.eqb eventType "ready" then true else hasHostReady f in
  match String.eqb eventType "game_info", readyPromiseResolve f with
  | true, Some p =>
      {| isClient := isClient f; target := target f;
         eventListeners := eventListeners f;
         readyPromiseResolve := None;
         hasHostReady := ready'; readyPromise := readyPromise f;
         readySent := readySent f;
         promises := resolvePromise p data (promises f);
         posted := posted f; called := called f |}
  | _, _ =>
      {| isClient := isClient f; target := target f;
         eventListeners := eventListeners f;
         readyPromiseResolve := readyPromiseResolve f;
         hasHostReady := ready'; readyPromise := readyPromise f;
         readySent := readySent f; promises := promises f;
         posted := posted f;
         called := called f
                   ++ ((fun cb => (cb, data)) <$> default [] (eventListeners f !! eventType)) |}
  end.

(** The [data] of a message event. *)
Inductive MessageData : Type :=
| NotAnObject
| Payload (fromRemixDevHost : bool) (type : string) (event : GameEvent).

Definition handleMessage (payload : MessageData) (f : Facade) : Facade :=
  match payload with
  | NotAnObject => f
  | Payload fromHost type event =>
      if (fromHost && String.eqb type "game_event")%bool then
        emit (g_type event) (g_data event) f
      else if negb (String.eqb type "game_event") then f
      else emit (g_type event) (g_data event) f
  end.

Definition on (eventType : string) (callback : nat) (f : Facade) : Facade :=
  let known := default [] (eventListeners f !! eventType) in
  let known' := if bool_decide (callback ∈ known) then known
                else known ++ [callback] in
  {| isClient := isClient f; target := target f;
     eventListeners := <[eventType := known']> (eventListeners f);
     readyPromiseResolve := readyPromiseResolve f;
     hasHostReady := hasHostReady f; readyPromise := readyPromise f;
     readySent := readySent f; promises := promises f;
     posted := posted f;
     called := if (String.eqb eventType "ready" && hasHostReady f)%bool
               then called f ++ [(callback, VUndefined)] else called f |}.

Definition off (eventType : string) (callback : nat) (f : Facade) : Facade :=
  match eventListeners f !! eventType with
  | Some known =>
      {| isClient := isClient f; target := target f;
         eventListeners :=
           <[eventType := filter (fun cb => cb ≠ callback) known]> (eventListeners f);
         readyPromiseResolve := readyPromiseResolve f;
         hasHostReady := hasHostReady f; readyPromise := readyPromise f;
         readySent := readySent f; promises := promises f;
         posted := posted f; called := called f |}
  | None => f
  end.








End Facade.

(** ** The precedence of the specification, rule by rule *)

Module Precedence.

Import Host.

(** A hint counts when it is there and not empty. *)
Definition noHint (hints : InstanceHints) : Prop :=
  ∀ h, playerId hints = Some h → h = "".

Definition noAssignment (assignments : gmap string string)
    (hints : InstanceHints) : Prop :=
  ∀ a, assignments !! clientId hints = Some a → a = "".

(** The player's id is among the values of the assignment table. *)
Definition isAssigned (assignments : gmap string string) (p : Player) : Prop :=
  ∃ client, assignments !! client = Some (p_id p).

(** [Resolves multiplayer ps assignments hints id ps']: the id the
    handshake must resolve, and the player list afterwards. *)
Inductive Resolves (multiplayer : bool) (ps : list Player)
    (assignments : gmap string string) (hints : InstanceHints)
    : string → list Player → Prop :=
| explicit_hint h :
    playerId hints = Some h → h ≠ "" →
    Resolves multiplayer ps assignments hints h ps
| existing_assignment a :
    noHint hints →
    assignments !! clientId hints = Some a → a ≠ "" →
    Resolves multiplayer ps assignments hints a ps
| single_player :
    noHint hints → noAssignment assignments hints →
    multiplayer = false →
    Resolves multiplayer ps assignments hints "1" ps
| first_unassigned before p after :
    noHint hints → noAssignment assignments hints →
    multiplayer = true →
    ps = before ++ p :: after →
    Forall (isAssigned assignments) before →
    ¬ isAssigned assignments p →
    Resolves multiplayer ps assignments hints (p_id p) ps
| synthesized :
    noHint hints → noAssignment assignments hints →
    multiplayer = true →
    Forall (isAssigned assignments) ps →
    length ps < 2 →
    Resolves multiplayer ps assignments hints (decNat (length ps + 1))
      (ps ++ [ {| p_id := decNat (length ps + 1);
                  p_name := VStr ("Player " +:+ decNat (length ps + 1));
                  p_imageUrl := None |} ])
| cap_reached :
    noHint hints → noAssignment assignments hints →
    multiplayer = true →
    Forall (isAssigned assignments) ps →
    2 ≤ length ps →
    Resolves multiplayer ps assignments hints "1" ps.

End Precedence.

(** ** Sample data *)

Module Samples.

Import Host.

Definition tick1 : Tick := {| now := 1700000000000; rnd := "k3j9x0ab" |}.
Definition tick2 : Tick := {| now := 1700000000250; rnd := "p0q7zz1c" |}.

Definition env1 : Env :=
  {| t_envelope := tick1; t_panel := tick2; t_client := tick1;
     t_stamp := 1700000000001 |}.
Definition env2 : Env :=
  {| t_envelope := tick2; t_panel := tick1; t_client := tick2;
     t_stamp := 1700000000251 |}.

(** A host just constructed over an empty, working [localStorage]. *)
Definition freshHost (multiplayer : bool) : World :=
  (newHost "h0stid42" multiplayer 0 "bizarre ball toss" true ∅).1.

Definition hintsA : InstanceHints :=
  {| clientId := "client-1700000000000-aaaaaaaa"; playerId := None;
     playerName := None |}.
Definition hintsB : InstanceHints :=
  {| clientId := "client-1700000000100-bbbbbbbb"; playerId := None;
     playerName := Some "Robin" |}.
Definition hintsC : InstanceHints :=
  {| clientId := "client-1700000000200-cccccccc"; playerId := None;
     playerName := None |}.

(** A window opened with [?player=3]. *)
Definition hintsThird : InstanceHints :=
  {| clientId := "client-1700000000300-dddddddd"; playerId := Some "3";
     playerName := None |}.

(** [{ gameState: { score: 120, currentPlayer: 2 } }]. *)
Definition payload : value :=
  VObj [("gameState", VObj [("score", VNum 120); ("currentPlayer", VNum 2)])].

(** A save of a three-handed game:
    [{ gameState: { players: [{id:'a'}, {id:'b'}, {id:'c'}] } }]. *)
Definition payloadOfThree : value :=
  VObj [("gameState",
         VObj [("players",
                VArr [VObj [("id", VStr "a")]; VObj [("id", VStr "b")];
                      VObj [("id", VStr "c")]])])].

End Samples.

(** Sentences of the specification that the code does not satisfy as
    they are worded, stated once so that they can be tested. *)

Module Stated.

Import Codec Keys.

(** An object with both keys comes out with [gameState] only, holding the
    old [gameState] when that is non-empty and the [data] value otherwise. *)
Definition prefersNonEmptyGameState (o : object) : Prop :=
  ∃ r, normalizeGameState (VObj o) = VObj r
       ∧ hasKey "data" r = false
       ∧ hasKey "gameState" r = true
       ∧ getKey "gameState" r =
           (if isEmptyState (getKey "gameState" o) then getKey "data" o
            else getKey "gameState" o).

(** An object with a [gameState] key and no [data] key comes back as the
    same object, unchanged. *)
Definition returnsSameObject (o : object) : Prop :=
  hasKey "gameState" o = true → hasKey "data" o = false →
  normalizeGameStateFrom (VObj o) = (TheArgument, VObj o).

(** The storage key is the prefix followed by the stripped name. *)
Definition keyStripsName (gameName : string) : Prop :=
  getGameStateKey gameName = "remix_game_state_" +:+ stripName gameName.

(** Along a run of host operations the persisted players list has at
    most 2 entries, and exactly 1 once a single-player host has done
    anything. *)
Definition playersCapped (w0 : Host.World) (ops : list Host.Op) : Prop :=
  ∀ ps, Host.persistedPlayers (Host.run ops w0).1 = Some ps →
        length ps ≤ 2
        ∧ (Host.isMultiplayer w0 = false → ops ≠ [] → length ps = 1).


(** From empty state, three multiplayer clients with distinct client ids
    and no hint receive the players with ids 1, 2 and 1. *)
Definition oneTwoOne (w0 : Host.World) (ha hb hc : Host.InstanceHints)
    (e : Host.Env) : Prop :=
  ∃ ra rb rc ga gb gc,
    Host.gameInfoReplies
      (Host.run [Host.OpMessage (Host.readyMessage None ha) e;
                 Host.OpMessage (Host.readyMessage None hb) e;
                 Host.OpMessage (Host.readyMessage None hc) e] w0).2
    = [(ra, ga); (rb, gb); (rc, gc)]
    ∧ Host.p_id (Host.gi_player ga) = "1"
    ∧ Host.p_id (Host.gi_player gb) = "2"
    ∧ Host.p_id (Host.gi_player gc) = "1".

End Stated.

(** ** Instance resolution (getClientInstanceId, readInstanceHints) *)

Module Instance.

Import Host.

(** The [data-*] attributes of the frame element that the code reads. *)
Record Dataset := {
  remixPlayerId : option string;
  remixPlayer : option string;
  d_playerId : option string;
  d_player : option string;
  remixPlayerName : option string;
  d_playerName : option string
}.

(** What [readInstanceHints] looks at in a window it can reach: the
    globals (each [Some] when the property is a string), the dataset of
    the frame element ([None] when there is no frame element, or reading
    it throws), the window's name, and the parsed query of its URL. *)
Record WindowCtx := {
  devClientId : option string;
  devInstancePlayerId : option string;
  devInstancePlayerName : option string;
  devPlayerId : option string;
  devPlayerName : option string;
  frameDataset : option Dataset;
  windowName : string;
  search : list (string * string)
}.

(** [getClientInstanceId(ctx)]: the window afterwards and the id. The
    property is defined once, not writable and not configurable. *)
Definition getClientInstanceId (ctx : WindowCtx) (t : Tick)
    : WindowCtx * string :=
  match devClientId ctx with
  | Some id => (ctx, id)
  | None =>
      let id := mintClientId t in
      ({| devClientId := Some id;
          devInstancePlayerId := devInstancePlayerId ctx;
          devInstancePlayerName := devInstancePlayerName ctx;
          devPlayerId := devPlayerId ctx;
          devPlayerName := devPlayerName ctx;
          frameDataset := frameDataset ctx;
          windowName := windowName ctx;
          search := search ctx |}, id)
  end.

(** [a || b] on strings that may be missing. *)
Definition orStr (a b : option string) : option string :=
  match truthyStr a with
  | Some s => Some s
  | None => b
  end.

(** [params.get(name)]: the first value under that name. *)
Fixpoint paramsGet (name : string) (params : list (string * string))
    : option string :=
  match params with
  | [] => None
  | (k, v) :: rest => if String.eqb k name then Some v else paramsGet name rest
  end.

(** The class [\w]. *)
Definition isWordChar (c : ascii) : bool :=
  (inRange 97 122 c || inRange 65 90 c || inRange 48 57 c
   || Ascii.eqb c "_")%bool.

(** Letters compared as the [i] flag does. *)
Definition lowerCase (c : ascii) : ascii :=
  if inRange 65 90 c then ascii_of_nat (nat_of_ascii c + 32) else c.

(** The rest of [s] after a lower-case literal matched without regard to
    case. *)
Fixpoint afterLiteral (literal s : string) : option string :=
  match literal, s with
  | EmptyString, _ => Some s
  | String l literal', String c s' =>
      if Ascii.eqb (lowerCase c) l then afterLiteral literal' s' else None
  | String _ _, EmptyString => None
  end.

(** The longest run of word characters at the start of [s]. *)
Fixpoint takeWord (s : string) : string :=
  match s with
  | String c s' => if isWordChar c then String c (takeWord s') else EmptyString
  | EmptyString => EmptyString
  end.

(** [=(\w+)]. *)
Definition wordAfterEquals (s : string) : option string :=
  match s with
  | String c s' =>
      if Ascii.eqb c "=" then
        match takeWord s' with
        | EmptyString => None
        | word => Some word
        end
      else None
  | EmptyString => None
  end.

(** [/player(?:Id)?=(\w+)/i] anchored at the start of [s]: the group. *)
Definition matchHere (s : string) : option string :=
  match afterLiteral "player" s with
  | None => None
  | Some r =>
      match (match afterLiteral "id" r with
             | Some r' => wordAfterEquals r'
             | None => None
             end) with
      | Some word => Some word
      | None => wordAfterEquals r
      end
  end.

(** [name.match(/player(?:Id)?=(\w+)/i)]: group 1 of the leftmost match. *)
Fixpoint matchPlayerName (name : string) : option string :=
  match matchHere name with
  | Some word => Some word
  | None =>
      match name with
      | String _ rest => matchPlayerName rest
      | EmptyString => None
      end
  end.

(** [readInstanceHints(ctx)]: the window afterwards and the hints. *)
Definition readInstanceHints (ctx : WindowCtx) (t : Tick)
    : WindowCtx * InstanceHints :=
  let '(ctx', client) := getClientInstanceId ctx t in
  let id1 := trim <$> devInstancePlayerId ctx in
  let name1 := trim <$> devInstancePlayerName ctx in
  let id2 := match devPlayerId ctx with
             | Some s => Some (trim s)
             | None => id1
             end in
  let name2 := match devPlayerName ctx with
               | Some s => Some (trim s)
               | None => name1
               end in
  let id3 :=
    match frameDataset ctx with
    | Some d =>
        match truthyStr (orStr (remixPlayerId d)
                           (orStr (remixPlayer d)
                              (orStr (d_playerId d) (d_player d)))),
              truthyStr id2 with
        | Some idCandidate, None => Some (trim idCandidate)
        | _, _ => id2
        end
    | None => id2
    end in
  let name3 :=
    match frameDataset ctx with
    | Some d =>
        match truthyStr (orStr (remixPlayerName d) (d_playerName d)),
              truthyStr name2 with
        | Some nameCandidate, None => Some (trim nameCandidate)
        | _, _ => name2
        end
    | None => name2
    end in
  let id4 :=
    match truthyStr (Some (windowName ctx)), truthyStr id3 with
    | Some name, None =>
        match matchPlayerName name with
        | Some word => Some word
        | None => id3
        end
    | _, _ => id3
    end in
  let id5 :=
    match truthyStr (orStr (paramsGet "player" (search ctx))
                       (paramsGet "instance" (search ctx))) with
    | Some paramPlayer => Some (trim paramPlayer)
    | None => id4
    end in
  let name5 :=
    match truthyStr (paramsGet "playerName" (search ctx)) with
    | Some paramName => Some (trim paramName)
    | None => name3
    end in
  (ctx', {| clientId := client; playerId := id5; playerName := name5 |}).

(** [handleReady(sourceWindow)] with the hints read from the window:
    [ctx] is the source window, or the host's own when there is none;
    [tHints] feeds [getClientInstanceId], [t] the registration. *)
Definition handleReadyFrom (ctx : WindowCtx) (sourceWindow : option Window)
    (tHints t : Tick) (w : World) : WindowCtx * (World * list Msg) :=
  let '(ctx', hints) := readInstanceHints ctx tHints in
  (ctx', handleReady sourceWindow hints t w).

End Instance.

(** ** More of the host controller *)

Module HostMore.

Import Host.

(** The callback of the timer that [handleReady] sets: the reply. *)
Definition deliverGameInfo (client : string) (g : GameInfo) (w : World)
    : list Msg :=
  sendGameEvent "game_info" (PGameInfo g) (Some client) w
  ++ publishDevEvent "game_info" (PGameInfo g).

(** [ensureDevHost(isMultiplayer)] over the slot [window.__remixDevHost]:
    the slot afterwards, the host returned, and what was posted. The
    other arguments are what the constructor finds in its window. *)
Definition ensureDevHost (host : string) (selfWindow : Window)
    (name : string) (available : bool) (storage : gmap string Stored)
    (multiplayer : bool) (slot : option World)
    : option World * World * list Msg :=
  match slot with
  | Some existing => (slot, existing, [])
  | None =>
      let '(w, posted) :=
        newHost host multiplayer selfWindow name available storage in
      (Some w, w, posted)
  end.

(** What the top window posts while it serves a request: what the host
    posts, and the [__remix_dev_host_ready__] notice. *)
Inductive TopMsg : Type :=
| FromHost (m : Msg)
| HostReady.

(** [v !== false]. *)
Definition notFalse (v : value) : bool :=
  match v with
  | VBool false => false
  | _ => true
  end.

(** The top window's listener on a [__remix_dev_host_request__] message
    with [multiplayer] and [clientId] in its payload, from [source]: the
    slot afterwards and what was posted. The host in the slot is the
    object that the registration changes. *)
Definition hostRequest (host : string) (selfWindow : Window)
    (name : string) (available : bool) (storage : gmap string Stored)
    (multiplayer : value) (source : option Window)
    (explicitClientId : option string) (t : Tick) (slot : option World)
    : option World * list TopMsg :=
  let '(slot1, w, posted) :=
    ensureDevHost host selfWindow name available storage
      (notFalse multiplayer) slot in
  match source with
  | Some win =>
      let '(w', _, posted') := registerClientWindow win explicitClientId t w in
      (Some w', (FromHost <$> posted ++ posted') ++ [HostReady])
  | None => (slot1, (FromHost <$> posted) ++ [HostReady])
  end.

(** The windows the untargeted fan-out reaches. *)
Definition fanOutTargets (w : World) : list Window :=
  if (size (clientWindows w) =? 0)%nat then [self w]
  else snd <$> map_to_list (clientWindows w).

(** Every window in the host's table goes by a client id that is not
    empty and that the host can address. *)
Definition registered (w : World) : Prop :=
  map_Forall (fun _ c => c ≠ "" ∧ is_Some (clientWindows w !! c))
    (windowToClientId w).

End HostMore.

(** ** Safe storage wrapper (utils/safeLocalStorage.ts) *)

Module SafeStorage.

(** The browser as the wrapper meets it: whether [window] and
    [window.localStorage] are there, whether touching the storage throws
    (blocked by the browser), whether writes throw (no quota left), and
    the entries. *)
Record Browser := {
  present : bool;
  denied : bool;
  full : bool;
  items : gmap string string
}.

Definition setItems (m : gmap string string) (b : Browser) : Browser :=
  {| present := present b; denied := denied b; full := full b; items := m |}.

(** The native calls; [None] is a throw. *)
Definition nativeGet (key : string) (b : Browser) : option (option string) :=
  if (present b && negb (denied b))%bool then Some (items b !! key) else None.

Definition nativeSet (key value : string) (b : Browser) : option Browser :=
  if (present b && negb (denied b) && negb (full b))%bool
  then Some (setItems (<[key := value]> (items b)) b) else None.

Definition nativeRemove (key : string) (b : Browser) : option Browser :=
  if (present b && negb (denied b))%bool
  then Some (setItems (delete key (items b)) b) else None.

Definition nativeClear (b : Browser) : option Browser :=
  if (present b && negb (denied b))%bool then Some (setItems ∅ b) else None.

Definition nativeKeys (b : Browser) : option (list string) :=
  if (present b && negb (denied b))%bool
  then Some (fst <$> map_to_list (items b)) else None.

(** The wrapper and the browser it runs in; [isAvailable] is the cached
    answer of the probe, [None] before the first call. *)
Record Store := {
  isAvailable : option bool;
  browser : Browser
}.

(** [checkAvailability()]. *)
Definition checkAvailability (s : Store) : Store * bool :=
  match isAvailable s with
  | Some known => (s, known)
  | None =>
      if negb (present (browser s)) then
        ({| isAvailable := Some false; browser := browser s |}, false)
      else
        match nativeSet "__localStorage_test__" "test" (browser s) with
        | None => ({| isAvailable := Some false; browser := browser s |}, false)
        | Some b1 =>
            match nativeRemove "__localStorage_test__" b1 with
            | None => ({| isAvailable := Some false; browser := b1 |}, false)
            | Some b2 => ({| isAvailable := Some true; browser := b2 |}, true)
            end
        end
  end.

Definition getItem (key : string) (s : Store) : Store * option string :=
  let '(s1, ok) := checkAvailability s in
  if ok then
    match nativeGet key (browser s1) with
    | Some found => (s1, found)
    | None => (s1, None)
    end
  else (s1, None).

Definition setItem (key value : string) (s : Store) : Store * bool :=
  let '(s1, ok) := checkAvailability s in
  if ok then
    match nativeSet key value (browser s1) with
    | Some b => ({| isAvailable := isAvailable s1; browser := b |}, true)
    | None => (s1, false)
    end
  else (s1, false).

Definition removeItem (key : string) (s : Store) : Store * bool :=
  let '(s1, ok) := checkAvailability s in
  if ok then
    match nativeRemove key (browser s1) with
    | Some b => ({| isAvailable := isAvailable s1; browser := b |}, true)
    | None => (s1, false)
    end
  else (s1, false).

Definition clear (s : Store) : Store * bool :=
  let '(s1, ok) := checkAvailability s in
  if ok then
    match nativeClear (browser s1) with
    | Some b => ({| isAvailable := isAvailable s1; browser := b |}, true)
    | None => (s1, false)
    end
  else (s1, false).

Definition keys (s : Store) : Store * list string :=
  let '(s1, ok) := checkAvailability s in
  if ok then
    match nativeKeys (browser s1) with
    | Some ks => (s1, ks)
    | None => (s1, [])
    end
  else (s1, []).

Definition getFilteredKeys (filter : string → bool) (s : Store)
    : Store * list string :=
  let '(s1, ks) := keys s in (s1, List.filter filter ks).

(** [removeItems(keys)]: one [removeItem] per key, in order. *)
Fixpoint removeItems (ks : list string) (s : Store) : Store :=
  match ks with
  | [] => s
  | k :: rest => removeItems rest (removeItem k s).1
  end.

Section Json.

(** [JSON.parse] and [JSON.stringify] at the type the caller asks for;
    [None] is a throw. *)
Context {T : Type} (parse : string → option T) (stringify : T → option string).

Definition getJSON (key : string) (defaultValue : option T) (s : Store)
    : Store * option T :=
  let '(s1, value) := getItem key s in
  match Host.truthyStr value with
  | None => (s1, defaultValue)
  | Some text =>
      match parse text with
      | Some v => (s1, Some v)
      | None => (s1, defaultValue)
      end
  end.

Definition setJSON (key : string) (value : T) (s : Store) : Store * bool :=
  match stringify value with
  | Some text => setItem key text s
  | None => (s, false)
  end.

End Json.

End SafeStorage.

(** ** More of the game-state panel (GameStatePanel.tsx) *)

Module Panel.

Import Codec.

(** [loadGameStateFromStorage()], from the point where the stored text
    has been parsed; [None] stands for no storage, no key, no text, or
    text that does not parse, and [VNull] for a [null] result. *)
Definition loadGameStateFromStorage (parsed : option value) : value :=
  match parsed with
  | None => VNull
  | Some p =>
      if truthy (prop "gameState" p) then normalizeGameState (prop "gameState" p)
      else if truthy (prop "moves" p) then normalizeGameState p
      else VNull
  end.

(** The two default players the panel writes. *)
Definition defaultPlayers : value :=
  VArr [ VObj [("id", VStr "1"); ("name", VStr "Player 1"); ("imageUrl", VUndefined)];
         VObj [("id", VStr "2"); ("name", VStr "Player 2"); ("imageUrl", VUndefined)] ].

(** [null] or [undefined], the values that [??] passes over. *)
Definition nullish (v : value) : bool :=
  match v with
  | VUndefined | VNull => true
  | _ => false
  end.

(** [stateBody]: [parsedState.gameState ?? parsedState] for an object,
    [null] otherwise. *)
Definition stateBody (parsedState : value) : value :=
  if isObjectLike parsedState then
    match prop "gameState" parsedState with
    | VUndefined | VNull => parsedState
    | body => body
    end
  else VNull.

(** [stateBody.timestamp = Date.now()] when the body is an object without
    a truthy timestamp. An array takes the property too, but not into
    its JSON text, so it stays as it is here. *)
Definition stampBody (now : N) (body : value) : value :=
  match body with
  | VObj o =>
      if truthy (getKey "timestamp" o) then body
      else VObj (setKey "timestamp" (VNum (Z.of_N now)) o)
  | _ => body
  end.

(** [parsedState] after that assignment: the body is [parsedState] itself
    or the object held under its [gameState] key, which is the same
    object and so shows the new property. *)
Definition stampState (now : N) (parsedState : value) : value :=
  match parsedState with
  | VObj o =>
      match getKey "gameState" o with
      | VUndefined | VNull => stampBody now parsedState
      | body => VObj (setKey "gameState" (stampBody now body) o)
      end
  | _ => parsedState
  end.

(** The [stateToSave] of [autoSave], for the text parsed to [raw]. *)
Definition autoSaveRecord (now : N) (raw : value) : value :=
  let parsedState := stampState now (normalizeGameState raw) in
  VObj [("gameState", parsedState);
        ("players", orElse (prop "players" (stateBody parsedState)) defaultPlayers);
        ("currentPlayerId", VNull)].

(** The [stateToSave] of [handleLoadState]. *)
Definition loadStateRecord (now : N) (savedGameState : value) : value :=
  let parsedState := stampState now (normalizeGameState savedGameState) in
  VObj [("gameState", parsedState);
        ("players", orElse (prop "players" (stateBody parsedState)) defaultPlayers);
        ("currentPlayerId", orElse (prop "currentPlayer" (stateBody parsedState)) VNull)].

(** A value without the deprecated [data] key at its top. *)
Definition dataFree (v : value) : Prop :=
  match v with
  | VObj o => hasKey "data" o = false
  | _ => True
  end.

Record SavedState := {
  s_id : string;
  s_label : string;
  s_timestamp : N;
  s_gameState : value
}.

(** [handleSave()]: the saved states afterwards; [t] gives the
    [Date.now()] and the [generateShortHash()] of the new entry. *)
Definition handleSave (textContent : string) (parseError : option string)
    (gameState : value) (t : Host.Tick) (savedStates : list SavedState)
    : list SavedState :=
  match Host.truthyStr (Some textContent), Host.truthyStr parseError with
  | Some _, None =>
      {| s_id := Host.rnd t; s_label := "Untitled";
         s_timestamp := Host.now t; s_gameState := gameState |} :: savedStates
  | _, _ => savedStates
  end.

(** [handleDeleteState(id)]; [confirmed] is the answer to the dialog. *)
Definition handleDeleteState (id : string) (confirmed : bool)
    (savedStates : list SavedState) : list SavedState :=
  if confirmed then List.filter (fun s => negb (String.eqb (s_id s) id)) savedStates
  else savedStates.

Definition handleUpdateLabel (id newLabel : string)
    (savedStates : list SavedState) : list SavedState :=
  map (fun s => if String.eqb (s_id s) id then
                  {| s_id := s_id s;
                     s_label := if String.eqb newLabel "" then "Untitled" else newLabel;
                     s_timestamp := s_timestamp s; s_gameState := s_gameState s |}
                else s) savedStates.

End Panel.

(** ** Dashboard utilities *)

Module Utils.

(** [formatTimeAgo(timestamp)] on whole milliseconds; [now] is the
    [Date.now()] it reads. *)
Definition formatTimeAgo (timestamp now : Z) : string :=
  if (timestamp =? 0)%Z then "Never"
  else
    let diff := (now - timestamp)%Z in
    let seconds := (diff / 1000)%Z in
    let minutes := (seconds / 60)%Z in
    let hours := (minutes / 60)%Z in
    let days := (hours / 24)%Z in
    if (0 <? days)%Z then decZ days +:+ "d ago"
    else if (0 <? hours)%Z then decZ hours +:+ "h ago"
    else if (0 <? minutes)%Z then decZ minutes +:+ "m ago"
    else if (0 <? seconds)%Z then decZ seconds +:+ "s ago"
    else "Just now".

End Utils.

(** ** Sample windows and stores *)

Module Examples.

Import Host Instance.

(** A game frame opened as [?player=2&playerName=Robin], in a window
    named [player=7] whose globals say player 5. *)
Definition frameOfTwo : WindowCtx :=
  {| devClientId := None;
     devInstancePlayerId := Some "5"; devInstancePlayerName := None;
     devPlayerId := None; devPlayerName := None;
     frameDataset := None; windowName := "player=7";
     search := [("player", " 2 "); ("playerName", "Robin")] |}.

(** A window that carries only a name. *)
Definition namedFrame : WindowCtx :=
  {| devClientId := None;
     devInstancePlayerId := None; devInstancePlayerName := None;
     devPlayerId := None; devPlayerName := None;
     frameDataset := None; windowName := "game PlayerId=7_b!";
     search := [] |}.

(** A window whose global names player 4 while its name says 7. *)
Definition globalFrame : WindowCtx :=
  {| devClientId := None;
     devInstancePlayerId := Some "5"; devInstancePlayerName := None;
     devPlayerId := Some " 4"; devPlayerName := None;
     frameDataset := None; windowName := "player=7";
     search := [("debug", "1")] |}.

End Examples.

(** * Properties *)

(** ** Objects as association lists *)

Section ObjectLemmas.

Implicit Types (k : string) (v : value) (o : object).

Lemma hasKey_removeKey_same k o : hasKey k (removeKey k o) = false.
Proof.
  induction o as [|[k' v'] o IH]; simpl; [done|].
  destruct (String.eqb k k') eqn:E; simpl; [done|]. by rewrite E.
Qed.

Lemma hasKey_removeKey_ne k k' o :
  k ≠ k' → hasKey k (removeKey k' o) = hasKey k o.
Proof.
  intros Hne. induction o as [|[k0 v0] o IH]; simpl; [done|].
  destruct (String.eqb k' k0) eqn:E; simpl.
  - apply String.eqb_eq in E. subst k0.
    destruct (String.eqb k k') eqn:E'; [by apply String.eqb_eq in E'|done].
  - by rewrite IH.
Qed.

Lemma getKey_removeKey_same k o : getKey k (removeKey k o) = VUndefined.
Proof.
  induction o as [|[k' v'] o IH]; simpl; [done|].
  destruct (String.eqb k k') eqn:E; simpl; [done|]. by rewrite E.
Qed.

Lemma getKey_removeKey_ne k k' o :
  k ≠ k' → getKey k (removeKey k' o) = getKey k o.
Proof.
  intros Hne. induction o as [|[k0 v0] o IH]; simpl; [done|].
  destruct (String.eqb k' k0) eqn:E; simpl.
  - apply String.eqb_eq in E. subst k0.
    destruct (String.eqb k k') eqn:E'; [by apply String.eqb_eq in E'|done].
  - by rewrite IH.
Qed.

Lemma removeKey_absent k o : hasKey k o = false → removeKey k o = o.
Proof.
  induction o as [|[k' v'] o IH]; simpl; [done|].
  destruct (String.eqb k k'); [done|]. intros H. by rewrite IH.
Qed.

Lemma getKey_absent k o : hasKey k o = false → getKey k o = VUndefined.
Proof.
  induction o as [|[k' v'] o IH]; simpl; [done|].
  by destruct (String.eqb k k').
Qed.

Lemma hasKey_setKey_same k v o : hasKey k (setKey k v o) = true.
Proof.
  induction o as [|[k' v'] o IH]; simpl.
  - by rewrite String.eqb_refl.
  - destruct (String.eqb k k') eqn:E; simpl; by rewrite E.
Qed.

Lemma hasKey_setKey_ne k k' v o :
  k ≠ k' → hasKey k (setKey k' v o) = hasKey k o.
Proof.
  intros Hne. induction o as [|[k0 v0] o IH]; simpl.
  - destruct (String.eqb k k') eqn:E; [by apply String.eqb_eq in E|done].
  - destruct (String.eqb k' k0) eqn:E; simpl; [done|]. by rewrite IH.
Qed.

Lemma getKey_setKey_same k v o : getKey k (setKey k v o) = v.
Proof.
  induction o as [|[k' v'] o IH]; simpl.
  - by rewrite String.eqb_refl.
  - destruct (String.eqb k k') eqn:E; simpl; by rewrite E.
Qed.

Lemma getKey_setKey_ne k k' v o :
  k ≠ k' → getKey k (setKey k' v o) = getKey k o.
Proof.
  intros Hne. induction o as [|[k0 v0] o IH]; simpl.
  - destruct (String.eqb k k') eqn:E; [by apply String.eqb_eq in E|done].
  - destruct (String.eqb k' k0) eqn:E; simpl; [|by rewrite IH].
    apply String.eqb_eq in E. subst k0.
    destruct (String.eqb k k') eqn:E'; [by apply String.eqb_eq in E'|done].
Qed.

Lemma setKey_absent k v o : hasKey k o = false → setKey k v o = o ++ [(k, v)].
Proof.
  induction o as [|[k' v'] o IH]; simpl; [done|].
  destruct (String.eqb k k'); [done|]. intros H. by rewrite IH.
Qed.

End ObjectLemmas.

(** ** Game-state codec *)

Section CodecProperties.

Import Codec.

(** The result of the codec on an object never has a [data] key when the
    object had a [gameState] or a [data] key. *)
Lemma normalizeGameState_shape o :
  (hasKey "gameState" o || hasKey "data" o)%bool = true →
  ∃ r, normalizeGameState (VObj o) = VObj r
       ∧ hasKey "gameState" r = true ∧ hasKey "data" r = false.
Proof.
  intros H. unfold normalizeGameState.
  destruct (hasKey "gameState" o) eqn:Hg.
  - destruct (_ && _)%bool; eexists; (split; [reflexivity|]).
    + split; [apply hasKey_setKey_same|].
      rewrite hasKey_setKey_ne by done. apply hasKey_removeKey_same.
    + split; [|apply hasKey_removeKey_same].
      by rewrite hasKey_removeKey_ne.
  - simpl in H. rewrite H. eexists; split; [reflexivity|].
    split; [apply hasKey_setKey_same|].
    rewrite hasKey_setKey_ne by done. apply hasKey_removeKey_same.
Qed.

Lemma normalizeGameState_canonical r :
  hasKey "gameState" r = true → hasKey "data" r = false →
  normalizeGameState (VObj r) = VObj r.
Proof.
  intros Hg Hd. unfold normalizeGameState. rewrite Hg.
  rewrite (getKey_absent "data" r Hd). simpl.
  rewrite Bool.andb_false_r. by rewrite removeKey_absent.
Qed.

Lemma normalizeGameState_idempotent raw :
  normalizeGameState (normalizeGameState raw) = normalizeGameState raw.
Proof.
  destruct raw as [| | | | | |o]; try reflexivity.
  destruct (hasKey "gameState" o || hasKey "data" o)%bool eqn:H.
  - destruct (normalizeGameState_shape o H) as (r & -> & Hg & Hd).
    by apply normalizeGameState_canonical.
  - apply Bool.orb_false_iff in H as [Hg Hd].
    unfold normalizeGameState at 2. rewrite Hg, Hd.
    unfold normalizeGameState. by rewrite Hg, Hd.
Qed.

Lemma normalizeGameStateFrom_value raw :
  (normalizeGameStateFrom raw).2 = normalizeGameState raw.
Proof.
  destruct raw as [| |b|n|s|items|o]; try done.
  unfold normalizeGameStateFrom, normalizeGameState.
  destruct (hasKey "gameState" o); [by destruct (_ && _)%bool|].
  by destruct (hasKey "data" o).
Qed.

Lemma removeKey_filter k (o : object) :
  removeKey k o = filter (λ kv, kv.1 ≠ k) o.
Proof.
  induction o as [|[k' v] o IH]; [done|]. cbn [removeKey].
  destruct (String.eqb k k') eqn:E.
  - apply String.eqb_eq in E as <-. by rewrite filter_cons_False by (by intros H).
  - apply String.eqb_neq in E. rewrite filter_cons_True by (by intros <-).
    by rewrite IH.
Qed.

(** C5, as the specification words it, fails in one part: an object with
    a [gameState] key and no [data] key does not come back as the same
    object; the codec returns the [rest] copy, an object of its own. *)
Lemma returnsSameObject_fails :
  ¬ Stated.returnsSameObject [("gameState", VObj [("score", VNum 3)])].
Proof. intros H. by specialize (H eq_refl eq_refl). Qed.

(** C5, amended. The codec is idempotent up to deep equality: applied to
    its own result it returns an equal value. An object with a [data]
    key and no [gameState] key gives a new object that holds the other
    properties in their order, followed by [gameState] with the value
    that [data] had; so [{data: X}] gives [{gameState: X}]. An object
    with a [gameState] key and no [data] key gives an object with the
    same properties and values, which is a new object and not the
    argument. What is not an object, an array, and an object with
    neither key come back as the argument itself. *)
Theorem normalizeGameState_laws :
  (∀ raw, (normalizeGameStateFrom raw).2 = normalizeGameState raw)
  ∧ (∀ raw, normalizeGameState (normalizeGameState raw) = normalizeGameState raw)
  ∧ (∀ o, hasKey "gameState" o = false → hasKey "data" o = true →
          normalizeGameStateFrom (VObj o)
          = (NewObject,
             VObj (filter (λ kv, kv.1 ≠ "data") o
                   ++ [("gameState", getKey "data" o)])))
  ∧ (∀ X, normalizeGameState (VObj [("data", X)]) = VObj [("gameState", X)])
  ∧ (∀ o, hasKey "gameState" o = true → hasKey "data" o = false →
          normalizeGameStateFrom (VObj o) = (NewObject, VObj o))
  ∧ (∀ raw, isObjectLike raw = false →
            normalizeGameStateFrom raw = (TheArgument, raw))
  ∧ (∀ items, normalizeGameStateFrom (VArr items) = (TheArgument, VArr items))
  ∧ (∀ o, hasKey "gameState" o = false → hasKey "data" o = false →
          normalizeGameStateFrom (VObj o) = (TheArgument, VObj o)).
Proof.
  split; [apply normalizeGameStateFrom_value|].
  split; [apply normalizeGameState_idempotent|].
  split.
  { intros o Hg Hd. unfold normalizeGameStateFrom. rewrite Hg, Hd.
    rewrite setKey_absent by (by rewrite hasKey_removeKey_ne).
    by rewrite removeKey_filter. }
  split; [reflexivity|].
  split.
  { intros o Hg Hd. unfold normalizeGameStateFrom. rewrite Hg.
    rewrite (getKey_absent "data" o Hd). cbn [isUndefined negb].
    rewrite Bool.andb_false_r. by rewrite removeKey_absent. }
  split; [intros raw H; by destruct raw|].
  split; [done|].
  intros o Hg Hd. unfold normalizeGameStateFrom. by rewrite Hg, Hd.
Qed.

Lemma normalizeGameState_laws_witness :
  normalizeGameStateFrom
    (VObj [("id", VStr "s1"); ("data", VObj [("score", VNum 3)]);
           ("alertUserIds", VArr [])])
  = (NewObject,
     VObj [("id", VStr "s1"); ("alertUserIds", VArr []);
           ("gameState", VObj [("score", VNum 3)])])
  ∧ normalizeGameStateFrom
      (VObj [("gameState", VObj [("score", VNum 3)]); ("turn", VStr "w")])
    = (NewObject, VObj [("gameState", VObj [("score", VNum 3)]); ("turn", VStr "w")])
  ∧ normalizeGameStateFrom (VStr "saved") = (TheArgument, VStr "saved").
Proof.
  destruct normalizeGameState_laws as (_ & _ & Hdata & _ & Hobj & Hprim & _).
  split.
  { exact (Hdata [("id", VStr "s1"); ("data", VObj [("score", VNum 3)]);
                  ("alertUserIds", VArr [])] eq_refl eq_refl). }
  split; [apply Hobj; reflexivity | apply Hprim; reflexivity].
Defined.

(** C6, as the specification words it, fails: with [gameState: null] next
    to a [data] value the codec keeps [null]. *)
Lemma prefersNonEmptyGameState_fails :
  ¬ Stated.prefersNonEmptyGameState
      [("gameState", VNull); ("data", VObj [("score", VNum 1)])].
Proof.
  intros (r & Hr & _ & _ & Hv). vm_compute in Hr. injection Hr as <-.
  vm_compute in Hv. discriminate.
Qed.

(** C6, amended. For an object with both keys the codec returns an object
    with a [gameState] key and no [data] key; the other properties stay;
    the [gameState] value is the old one unless that is [undefined], in
    which case it is the [data] value. *)
Theorem normalizeGameState_both_keys o :
  hasKey "data" o = true → hasKey "gameState" o = true →
  ∃ r, normalizeGameState (VObj o) = VObj r
       ∧ hasKey "data" r = false
       ∧ hasKey "gameState" r = true
       ∧ getKey "gameState" r =
           (if isUndefined (getKey "gameState" o) then getKey "data" o
            else getKey "gameState" o)
       ∧ ∀ k, k ≠ "data" → k ≠ "gameState" →
              hasKey k r = hasKey k o ∧ getKey k r = getKey k o.
Proof.
  intros Hd Hg. unfold normalizeGameState. rewrite Hg.
  rewrite (getKey_removeKey_ne "gameState" "data") by done.
  destruct (isUndefined (getKey "gameState" o)) eqn:Hu; simpl.
  - destruct (isUndefined (getKey "data" o)) eqn:Hu'; simpl.
    + eexists; split; [reflexivity|].
      split; [apply hasKey_removeKey_same|].
      split; [by rewrite hasKey_removeKey_ne|].
      split.
      * rewrite getKey_removeKey_ne by done.
        destruct (getKey "gameState" o), (getKey "data" o); done.
      * intros k H1 H2.
        by rewrite hasKey_removeKey_ne, getKey_removeKey_ne.
    + eexists; split; [reflexivity|].
      split; [rewrite hasKey_setKey_ne by done; apply hasKey_removeKey_same|].
      split; [apply hasKey_setKey_same|].
      split; [apply getKey_setKey_same|].
      intros k H1 H2. rewrite hasKey_setKey_ne by done.
      rewrite hasKey_removeKey_ne by done. split; [done|].
      rewrite getKey_setKey_ne by done. by rewrite getKey_removeKey_ne.
  - eexists; split; [reflexivity|].
    split; [apply hasKey_removeKey_same|].
    split; [by rewrite hasKey_removeKey_ne|].
    split; [by rewrite getKey_removeKey_ne|].
    intros k H1 H2. by rewrite hasKey_removeKey_ne, getKey_removeKey_ne.
Qed.

Lemma normalizeGameState_both_keys_witness :
  ∃ r, normalizeGameState
         (VObj [("gameState", VUndefined); ("data", VNum 7); ("id", VStr "a")])
       = VObj r
       ∧ hasKey "data" r = false
       ∧ hasKey "gameState" r = true
       ∧ getKey "gameState" r = VNum 7
       ∧ ∀ k, k ≠ "data" → k ≠ "gameState" →
              hasKey k r = hasKey k [("gameState", VUndefined); ("data", VNum 7); ("id", VStr "a")]
              ∧ getKey k r = getKey k [("gameState", VUndefined); ("data", VNum 7); ("id", VStr "a")].
Proof.
  apply (normalizeGameState_both_keys
           [("gameState", VUndefined); ("data", VNum 7); ("id", VStr "a")]);
    reflexivity.
Defined.

End CodecProperties.

(** ** Decimal text and generated identifiers *)

Section IdentifierLemmas.

Import Host.







End IdentifierLemmas.

(** ** Storage keys *)

Section KeyProperties.

Import Host.

Lemma cleanName_length name :
  String.length (cleanName name) = String.length name.
Proof. induction name as [|c name IH]; simpl; [done|]. by rewrite IH. Qed.

Lemma cleanName_get name i :
  String.get i (cleanName name)
  = (λ c, if isKeyChar c then c else "_"%char) <$> String.get i name.
Proof.
  revert i. induction name as [|c name IH]; intros [|i]; simpl; done.
Qed.

Lemma cleanName_chars name i c :
  String.get i (cleanName name) = Some c → isKeyChar c = true.
Proof.
  rewrite cleanName_get. destruct (String.get i name) as [c'|]; [|done].
  simpl. intros [= <-]. by destruct (isKeyChar c') eqn:E.
Qed.

(** C8, as the specification words it, fails: a blank in the game name is
    replaced, not removed. *)
Lemma keyStripsName_fails : ¬ Stated.keyStripsName "my game".
Proof. unfold Stated.keyStripsName. vm_compute. discriminate. Qed.

(** C8, amended. The game-state key is the prefix [remix_game_state_]
    followed by the game name in which every character outside
    [[A-Za-z0-9-_]] is replaced by an underscore, one for one, and the
    others are kept: the sanitized name has the length of the name, and
    only characters of the class. That is the key under which the host
    persists its state. The broadcast side channel is written under the
    one key [__remix_dev_host_broadcast__], whatever the game name, and
    that key is no game's state key. *)
Theorem getGameStateKey_replaces (w : World) :
  getGameStateKey (gameName w) = "remix_game_state_" +:+ cleanName (gameName w)
  ∧ String.length (cleanName (gameName w)) = String.length (gameName w)
  ∧ (∀ i, String.get i (cleanName (gameName w))
          = (λ c, if isKeyChar c then c else "_"%char) <$> String.get i (gameName w))
  ∧ (∀ i c, String.get i (cleanName (gameName w)) = Some c → isKeyChar c = true)
  ∧ (∀ s, storageAvailable w = true →
          localStorage (persistState s w)
          = <["remix_game_state_" +:+ cleanName (gameName w) := StoredJson (stringifyState s)]>
              (localStorage w))
  ∧ (∀ type data stamp, storageAvailable w = true →
          localStorage (broadcastToOtherWindows type data stamp w)
          = <["__remix_dev_host_broadcast__" :=
                StoredBroadcast {| senderId := hostId w; b_type := type;
                                   b_data := data; timestamp := stamp |}]>
              (localStorage w))
  ∧ (∀ name, getGameStateKey name ≠ "__remix_dev_host_broadcast__").
Proof.
  split; [reflexivity|].
  split; [apply cleanName_length|].
  split; [apply cleanName_get|].
  split; [apply cleanName_chars|].
  split.
  { intros s H. unfold persistState, setItem. by rewrite H. }
  split.
  { intros type data stamp H. unfold broadcastToOtherWindows, setItem.
    by rewrite H. }
  intros name. unfold getGameStateKey. simpl. discriminate.
Qed.

Lemma getGameStateKey_replaces_witness :
  getGameStateKey "bizarre ball toss" = "remix_game_state_bizarre_ball_toss"
  ∧ localStorage (persistState createDefaultState (Samples.freshHost false))
    = <["remix_game_state_bizarre_ball_toss" :=
          StoredJson (stringifyState createDefaultState)]> ∅.
Proof.
  destruct (getGameStateKey_replaces (Samples.freshHost false))
    as (Hkey & _ & _ & _ & Hpersist & _).
  split; [exact Hkey|]. apply (Hpersist createDefaultState). reflexivity.
Defined.

End KeyProperties.

(** ** Host controller *)

(** Reduces the projections of a world built with the setters. *)
Ltac world_fields :=
  cbn [Host.state Host.isMultiplayer Host.handledReadyClients Host.gameName
       Host.storageAvailable Host.localStorage Host.clientWindows
       Host.windowToClientId Host.self Host.hostId
       Host.setStorage Host.setState Host.setHandled Host.setClients fst snd].

Section HostFrames.

Import Host.

(** *** Storage helpers leave the controller's fields alone *)

Lemma setItem_fields key v w :
  state (setItem key v w) = state w
  ∧ isMultiplayer (setItem key v w) = isMultiplayer w
  ∧ handledReadyClients (setItem key v w) = handledReadyClients w
  ∧ clientWindows (setItem key v w) = clientWindows w
  ∧ windowToClientId (setItem key v w) = windowToClientId w
  ∧ gameName (setItem key v w) = gameName w
  ∧ storageAvailable (setItem key v w) = storageAvailable w
  ∧ self (setItem key v w) = self w
  ∧ hostId (setItem key v w) = hostId w.
Proof.
  unfold setItem. destruct (storageAvailable w) eqn:E; simpl; rewrite ?E;
    repeat split.
Qed.

Lemma removeItem_fields key w :
  state (removeItem key w) = state w
  ∧ isMultiplayer (removeItem key w) = isMultiplayer w
  ∧ handledReadyClients (removeItem key w) = handledReadyClients w
  ∧ clientWindows (removeItem key w) = clientWindows w
  ∧ windowToClientId (removeItem key w) = windowToClientId w
  ∧ gameName (removeItem key w) = gameName w
  ∧ storageAvailable (removeItem key w) = storageAvailable w
  ∧ self (removeItem key w) = self w
  ∧ hostId (removeItem key w) = hostId w.
Proof.
  unfold removeItem. destruct (storageAvailable w) eqn:E; simpl; rewrite ?E;
    repeat split.
Qed.

Lemma setItem_storage key v w :
  localStorage (setItem key v w)
  = if storageAvailable w then <[key := v]> (localStorage w) else localStorage w.
Proof. unfold setItem. by destruct (storageAvailable w). Qed.

Lemma removeItem_storage key w :
  localStorage (removeItem key w)
  = if storageAvailable w then delete key (localStorage w) else localStorage w.
Proof. unfold removeItem. by destruct (storageAvailable w). Qed.

Lemma stateKey_not_assignments name :
  getGameStateKey name ≠ PLAYER_ASSIGNMENTS_KEY.
Proof. unfold getGameStateKey. simpl. discriminate. Qed.

Lemma stateKey_not_broadcast name :
  getGameStateKey name ≠ BROADCAST_STORAGE_KEY.
Proof. unfold getGameStateKey. simpl. discriminate. Qed.

(** *** Reading back what was persisted *)

Lemma readPersistedState_length w :
  (2 ≤ length (players (readPersistedState w)))%nat.
Proof.
  unfold readPersistedState.
  destruct (getItem _ w) as [[parsed| | |]|]; try (cbv; lia).
  cbn [players]. destruct (pj_players parsed) as [ps|]; [|cbv; lia].
  destruct (2 <=? length ps) eqn:E; [by apply Nat.leb_le in E | cbv; lia].
Qed.

Lemma persistedPlayers_persistState s w :
  storageAvailable w = true →
  persistedPlayers (persistState s w) = Some (jsonifyPlayer <$> players s).
Proof.
  intros H. unfold persistedPlayers, persistState.
  destruct (setItem_fields (getGameStateKey (gameName w))
              (StoredJson (stringifyState s)) w) as (_&_&_&_&_&->&_).
  rewrite setItem_storage, H. by rewrite lookup_insert_eq.
Qed.

Lemma registerClientWindow_frame win explicit t w :
  let w' := (registerClientWindow win explicit t w).1.1 in
  state w' = state w
  ∧ isMultiplayer w' = isMultiplayer w
  ∧ handledReadyClients w' = handledReadyClients w
  ∧ gameName w' = gameName w
  ∧ storageAvailable w' = storageAvailable w
  ∧ localStorage w' = localStorage w
  ∧ gameInfoReplies (registerClientWindow win explicit t w).2 = [].
Proof.
  unfold registerClientWindow.
  destruct (truthyStr (windowToClientId w !! win)); simpl; [done|].
  repeat split. by destruct (size (clientWindows w) =? 0).
Qed.

Lemma setItem_eq key v w :
  setItem key v w
  = setStorage (if storageAvailable w then <[key := v]> (localStorage w)
                else localStorage w) w.
Proof. unfold setItem. destruct w as [? ? ? ? ? ? ? ? [] ?]; reflexivity. Qed.

Lemma removeItem_eq key w :
  removeItem key w
  = setStorage (if storageAvailable w then delete key (localStorage w)
                else localStorage w) w.
Proof. unfold removeItem. destruct w as [? ? ? ? ? ? ? ? [] ?]; reflexivity. Qed.

Lemma handleReady_handled src hints t w :
  clientId hints ∈ handledReadyClients w → handleReady src hints t w = (w, []).
Proof. intros H. unfold handleReady. by rewrite bool_decide_eq_true_2. Qed.

Lemma handleReady_fresh src hints t w :
  clientId hints ∉ handledReadyClients w →
  let w' := (handleReady src hints t w).1 in
  state w' = readyState w hints
  ∧ handledReadyClients w' = {[clientId hints]} ∪ handledReadyClients w
  ∧ isMultiplayer w' = isMultiplayer w
  ∧ gameName w' = gameName w
  ∧ storageAvailable w' = storageAvailable w
  ∧ localStorage w' =
      (if storageAvailable w then
         <[getGameStateKey (gameName w) := StoredJson (stringifyState (readyState w hints))]>
           (<[PLAYER_ASSIGNMENTS_KEY :=
                StoredAssignments (<[clientId hints := (readyRoster w hints).1]>
                                     (readPlayerAssignments w))]> (localStorage w))
       else localStorage w).
Proof.
  intros H. unfold handleReady. rewrite bool_decide_eq_false_2 by done.
  unfold readyState, readyRoster.
  change (readPersistedState (setHandled _ w)) with (readPersistedState w).
  change (readPlayerAssignments (setHandled _ w)) with (readPlayerAssignments w).
  destruct (resolvePlayerId _ _ _ _) as [rid ps1] eqn:E.
  unfold persistState, writePlayerAssignments. rewrite !setItem_eq.
  world_fields.
  match goal with |- context [registerClientWindow _ _ _ ?x] => set (w3 := x) end.
  set (found := match find _ _ with Some p => Some p | None => _ end).
  destruct src as [win|].
  - pose proof (registerClientWindow_frame win (Some (clientId hints)) t w3) as F.
    destruct (registerClientWindow win (Some (clientId hints)) t w3) as [[w4 rid'] msgs].
    cbn [fst snd] in F. destruct F as (F1 & F2 & F3 & F4 & F5 & F6 & _).
    destruct found; cbn [fst]; rewrite F1, F2, F3, F4, F5, F6; subst w3; world_fields;
      destruct (storageAvailable w); repeat split.
  - subst w3. destruct (clientWindows w !! clientId hints); destruct found; world_fields;
      destruct (storageAvailable w); repeat split.
Qed.

(** *** The player list through a handshake *)

Lemma findIndexFrom_None {A} (f : A → bool) i l :
  findIndexFrom f i l = None ↔ Forall (λ x, f x = false) l.
Proof.
  revert i. induction l as [|x l IH]; intros i; simpl.
  - split; [constructor|done].
  - destruct (f x) eqn:E.
    + split; [done|]. intros HF. inversion HF; congruence.
    + rewrite IH. split; [by constructor|]. by inversion 1.
Qed.

Lemma findIndexFrom_Some {A} (f : A → bool) i l j :
  findIndexFrom f i l = Some j →
  i ≤ j ∧ ∃ x, l !! (j - i) = Some x ∧ f x = true.
Proof.
  revert i. induction l as [|x l IH]; intros i; simpl; [done|].
  destruct (f x) eqn:E.
  - intros [= <-]. split; [lia|]. exists x. by rewrite Nat.sub_diag.
  - intros H. destruct (IH _ H) as (Hle & y & Hy & Hf). split; [lia|].
    exists y. split; [|done].
    replace (j - i) with (S (j - S i)) by lia. done.
Qed.

Lemma findIndex_None_ids resolved (ps : list Player) :
  findIndex (λ p, String.eqb (p_id p) resolved) ps = None
  ↔ resolved ∉ p_id <$> ps.
Proof.
  unfold findIndex. rewrite findIndexFrom_None, Forall_forall.
  rewrite list_elem_of_fmap. split.
  - intros H (p & -> & Hp).
    specialize (H p Hp). by rewrite String.eqb_refl in H.
  - intros H p Hp. destruct (String.eqb (p_id p) resolved) eqn:E; [|done].
    apply String.eqb_eq in E. destruct H. by exists p.
Qed.

(** The upsert appends one player when the resolved id is not listed and
    the list is short or the host is multiplayer, and keeps the length
    otherwise. *)
Lemma upsertPlayer_length multiplayer resolved hints ps :
  length (upsertPlayer multiplayer resolved hints ps)
  = if bool_decide (resolved ∈ p_id <$> ps) then length ps
    else if ((length ps <? 2) || multiplayer)%bool then S (length ps)
         else length ps.
Proof.
  unfold upsertPlayer.
  destruct (findIndex _ ps) as [i|] eqn:E.
  - rewrite bool_decide_eq_true_2.
    + destruct (truthyStr (playerName hints)); [|done].
      destruct (ps !! i) as [p|]; [|done].
      destruct (nameDiffers (p_name p) s); [|done]. by rewrite length_insert.
    + destruct (decide (resolved ∈ p_id <$> ps)) as [|Hn]; [done|].
      apply findIndex_None_ids in Hn. congruence.
  - apply findIndex_None_ids in E. rewrite bool_decide_eq_false_2 by done.
    destruct (_ || _)%bool; [|done]. rewrite length_app. simpl. lia.
Qed.

Lemma resolvePlayerId_keeps multiplayer ps assignments hints :
  2 ≤ length ps → (resolvePlayerId multiplayer ps assignments hints).2 = ps.
Proof.
  intros H. unfold resolvePlayerId.
  destruct (truthyStr (playerId hints)); [done|].
  destruct (truthyStr (assignments !! clientId hints)); [done|].
  destruct (negb multiplayer); [done|].
  destruct (find _ ps); [done|].
  apply Nat.leb_le in H. by rewrite H.
Qed.

Lemma readyRoster_resolved w hints :
  readyRoster w hints
  = ((resolvePlayerId (isMultiplayer w) (players (readPersistedState w))
        (readPlayerAssignments w) hints).1,
     trimSinglePlayer (isMultiplayer w)
       (upsertPlayer (isMultiplayer w)
          (resolvePlayerId (isMultiplayer w) (players (readPersistedState w))
             (readPlayerAssignments w) hints).1
          hints (players (readPersistedState w)))).
Proof.
  unfold readyRoster.
  pose proof (resolvePlayerId_keeps (isMultiplayer w)
                (players (readPersistedState w)) (readPlayerAssignments w)
                hints (readPersistedState_length w)) as K.
  destruct (resolvePlayerId _ _ _ _) as [rid ps1]. simpl in *. by subst.
Qed.

(** A single-player handshake leaves exactly one player. *)
Lemma readyRoster_single w hints :
  isMultiplayer w = false → length (readyRoster w hints).2 = 1.
Proof.
  intros Hm. rewrite readyRoster_resolved. cbn [snd]. rewrite Hm.
  unfold trimSinglePlayer. cbn [negb andb].
  pose proof (readPersistedState_length w) as L.
  set (ps := upsertPlayer _ _ _ _).
  assert (2 ≤ length ps) as Hps.
  { subst ps. rewrite upsertPlayer_length.
    destruct (bool_decide _); [done|]. destruct (_ || _)%bool; lia. }
  destruct (1 <? length ps) eqn:E.
  - rewrite length_take. lia.
  - apply Nat.ltb_ge in E. lia.
Qed.

(** A multiplayer handshake keeps the list it read and appends one player
    exactly when the resolved id is not in that list. *)
Lemma readyRoster_multi w hints :
  isMultiplayer w = true →
  length (readyRoster w hints).2
  = if bool_decide ((readyRoster w hints).1 ∈ p_id <$> players (readPersistedState w))
    then length (players (readPersistedState w))
    else S (length (players (readPersistedState w))).
Proof.
  intros Hm. rewrite readyRoster_resolved. cbn [fst snd]. rewrite Hm.
  unfold trimSinglePlayer. cbn [negb andb].
  rewrite upsertPlayer_length. destruct (bool_decide _); [done|].
  by rewrite Bool.orb_true_r.
Qed.

Lemma readyRoster_nonempty w hints : 1 ≤ length (readyRoster w hints).2.
Proof.
  destruct (isMultiplayer w) eqn:Hm.
  - rewrite readyRoster_multi by done.
    pose proof (readPersistedState_length w). destruct (bool_decide _); lia.
  - by rewrite readyRoster_single.
Qed.

Lemma readyPlayer_some w hints : is_Some (readyPlayer w hints).
Proof.
  unfold readyPlayer. destruct (find _ _); [done|].
  pose proof (readyRoster_nonempty w hints) as L.
  destruct (readyRoster w hints).2; simpl in *; [lia|done].
Qed.

End HostFrames.
Section HostHandlers.

Import Host.

Lemma gameInfoReplies_app a b :
  gameInfoReplies (a ++ b) = gameInfoReplies a ++ gameInfoReplies b.
Proof. unfold gameInfoReplies. apply flat_map_app. Qed.

(** What a processed handshake posts: whatever the registration posts,
    the [game_info_assigned] dev event, and the timer of the reply. *)
Lemma handleReady_fresh_posted src hints t w player :
  clientId hints ∉ handledReadyClients w →
  readyPlayer w hints = Some player →
  ∃ posted0 rid,
    (handleReady src hints t w).2
    = posted0
      ++ [DevEvent "game_info_assigned"
            (PAssigned rid (readyRoster w hints).1 (p_name player));
          SetTimeout 50
            (SendGameInfo rid
               {| gi_players := (readyRoster w hints).2;
                  gi_player := player;
                  gi_initialGameState := gameState (readPersistedState w) |})]
    ∧ gameInfoReplies posted0 = [].
Proof.
  intros H. unfold handleReady, readyPlayer. rewrite bool_decide_eq_false_2 by done.
  unfold readyRoster.
  change (readPersistedState (setHandled _ w)) with (readPersistedState w).
  change (readPlayerAssignments (setHandled _ w)) with (readPlayerAssignments w).
  destruct (resolvePlayerId _ _ _ _) as [resolved ps1] eqn:E. cbn [fst snd].
  intros Hp.
  destruct src as [win|].
  - match goal with |- context [registerClientWindow win ?e t ?x] =>
      pose proof (registerClientWindow_frame win e t x) as F;
      destruct (registerClientWindow win e t x) as [[w4 rid] msgs]
    end.
    cbn [fst snd] in F. destruct F as (_ & _ & _ & _ & _ & _ & F).
    rewrite Hp. cbn [snd]. by exists msgs, rid.
  - rewrite Hp. cbn [snd]. by exists [], (clientId hints).
Qed.

Lemma handleReady_fresh_replies src hints t w :
  clientId hints ∉ handledReadyClients w →
  ∃ rid player,
    readyPlayer w hints = Some player
    ∧ gameInfoReplies (handleReady src hints t w).2
      = [(rid, {| gi_players := (readyRoster w hints).2;
                  gi_player := player;
                  gi_initialGameState := gameState (readPersistedState w) |})].
Proof.
  intros H. destruct (readyPlayer_some w hints) as [player Hp].
  destruct (handleReady_fresh_posted src hints t w player H Hp)
    as (posted0 & rid & -> & H0).
  exists rid, player. split; [done|].
  by rewrite gameInfoReplies_app, H0.
Qed.

(** *** Saves, game-overs and resets *)

Lemma handleSaveGameState_frame data t stamp w :
  let w' := (handleSaveGameState data t stamp w).1 in
  handledReadyClients w' = handledReadyClients w
  ∧ clientWindows w' = clientWindows w
  ∧ windowToClientId w' = windowToClientId w
  ∧ isMultiplayer w' = isMultiplayer w
  ∧ gameName w' = gameName w
  ∧ storageAvailable w' = storageAvailable w.
Proof.
  unfold handleSaveGameState.
  destruct (negb (isObjectLike data)); [done|].
  destruct (match payloadRoster _ with Some ps => _ | None => _ end); [|done].
  unfold broadcastToOtherWindows, persistState. rewrite !setItem_eq.
  by world_fields.
Qed.

Lemma handleMultiplayerGameOver_frame data stamp w :
  let w' := (handleMultiplayerGameOver data stamp w).1 in
  handledReadyClients w' = handledReadyClients w
  ∧ clientWindows w' = clientWindows w
  ∧ windowToClientId w' = windowToClientId w
  ∧ isMultiplayer w' = isMultiplayer w
  ∧ gameName w' = gameName w
  ∧ storageAvailable w' = storageAvailable w
  ∧ state w' = {| gameState := None; players := players (state w);
                  currentPlayerId := None |}.
Proof.
  unfold handleMultiplayerGameOver, clearPlayerAssignments,
    broadcastToOtherWindows, persistState.
  rewrite removeItem_eq, !setItem_eq. by world_fields.
Qed.

Lemma handleMultiplayerGameOver_storage data stamp w :
  localStorage (handleMultiplayerGameOver data stamp w).1
  = if storageAvailable w then
      delete PLAYER_ASSIGNMENTS_KEY
        (<[BROADCAST_STORAGE_KEY :=
             StoredBroadcast {| senderId := hostId w;
                                b_type := "multiplayer_game_over";
                                b_data := PValue data;
                                timestamp := stamp |}]>
           (<[getGameStateKey (gameName w) :=
                StoredJson (stringifyState
                              {| gameState := None;
                                 players := players (state w);
                                 currentPlayerId := None |})]>
              (localStorage w)))
    else localStorage w.
Proof.
  unfold handleMultiplayerGameOver, clearPlayerAssignments,
    broadcastToOtherWindows, persistState.
  rewrite removeItem_eq, !setItem_eq. world_fields.
  by destruct (storageAvailable w).
Qed.

Lemma handleMultiplayerGameOver_persisted data stamp w :
  storageAvailable w = true →
  persistedJson (handleMultiplayerGameOver data stamp w).1
  = Some (stringifyState {| gameState := None; players := players (state w);
                            currentPlayerId := None |}).
Proof.
  intros Hsa. unfold persistedJson.
  destruct (handleMultiplayerGameOver_frame data stamp w)
    as (_ & _ & _ & _ & -> & _).
  rewrite handleMultiplayerGameOver_storage, Hsa.
  rewrite lookup_delete_ne by (apply not_eq_sym, stateKey_not_assignments).
  rewrite lookup_insert_ne by (apply not_eq_sym, stateKey_not_broadcast).
  by rewrite lookup_insert_eq.
Qed.

Lemma handleIncomingMessage_handled m e w :
  handledReadyClients w ⊆ handledReadyClients (handleIncomingMessage m e w).1.
Proof.
  unfold handleIncomingMessage.
  destruct (m_fromRemixDevHost m); [done|].
  destruct (negb _); [done|].
  destruct (String.eqb (m_event_type m) "ready").
  { destruct (decide (clientId (m_hints m) ∈ handledReadyClients w)) as [Hin|Hout].
    - by rewrite handleReady_handled.
    - destruct (handleReady_fresh (m_source m) (m_hints m) (t_client e) w Hout)
        as (_ & -> & _). set_solver. }
  destruct (String.eqb (m_event_type m) "save_game_state").
  { pose proof (handleSaveGameState_frame (m_event_data m) (t_envelope e) (t_stamp e) w) as F.
    destruct (handleSaveGameState _ _ _ w) as [w' posted]. cbn [fst] in *.
    destruct F as (-> & _). done. }
  destruct (String.eqb (m_event_type m) "multiplayer_save_game_state").
  { pose proof (handleSaveGameState_frame (m_event_data m) (t_envelope e) (t_stamp e) w) as F.
    destruct (handleSaveGameState _ _ _ w) as [w' posted]. cbn [fst] in *.
    destruct F as (-> & _). done. }
  destruct (String.eqb (m_event_type m) "refute_game_state"); [done|].
  destruct (String.eqb (m_event_type m) "multiplayer_game_over").
  { by destruct (handleMultiplayerGameOver_frame (m_event_data m) (t_stamp e) w) as (-> & _). }
  by destruct (_ || _)%bool.
Qed.

(** Only [resetState] takes a client out of the handled set. *)
Lemma step_handled o w :
  isReset o = false →
  handledReadyClients w ⊆ handledReadyClients (step o w).1.
Proof.
  destruct o as [m e| |win explicit t|key newValue| | |b]; simpl; try done.
  - intros _. apply handleIncomingMessage_handled.
  - intros _.
    pose proof (registerClientWindow_frame win explicit t w) as F.
    destruct (registerClientWindow win explicit t w) as [[w' rid] msgs].
    cbn [fst snd] in *. by destruct F as (_ & _ & -> & _).
Qed.

Lemma run_handled ops w :
  forallb (λ o, negb (isReset o)) ops = true →
  handledReadyClients w ⊆ handledReadyClients (run ops w).1.
Proof.
  revert w. induction ops as [|o ops IH]; intros w; simpl; [done|].
  intros H. apply andb_prop in H as [Ho Hops].
  apply Bool.negb_true_iff in Ho.
  pose proof (step_handled o w Ho) as S1.
  destruct (step o w) as [w1 posted]. specialize (IH w1 Hops).
  destruct (run ops w1) as [w2 posted']. cbn [fst] in *. set_solver.
Qed.

End HostHandlers.

(** ** Handshake deduplication *)

Section Deduplication.

Import Host.

(** C4. Once the host has taken a [ready] from a client id, a further
    [ready] from the same client id changes nothing and posts nothing, in
    particular no [game_info] reply: the world afterwards (stored state,
    players, assignment table) is the world before. This holds whatever
    the host did in between, as long as it was not reset. *)
Theorem second_ready_is_ignored w0 src hints e ops src' hints' e' :
  clientId hints' = clientId hints →
  forallb (λ o, negb (isReset o)) ops = true →
  let w := (run (OpMessage (readyMessage src hints) e :: ops) w0).1 in
  handleIncomingMessage (readyMessage src' hints') e' w = (w, []).
Proof.
  intros Hc Hops w.
  assert (clientId hints ∈ handledReadyClients w) as Hin.
  { subst w. cbn [run step].
    assert (clientId hints ∈
              handledReadyClients
                (handleIncomingMessage (readyMessage src hints) e w0).1) as H1.
    { change (handleIncomingMessage (readyMessage src hints) e w0)
        with (handleReady src hints (t_client e) w0).
      destruct (decide (clientId hints ∈ handledReadyClients w0)) as [Hin|Hout].
      - by rewrite handleReady_handled.
      - destruct (handleReady_fresh src hints (t_client e) w0 Hout) as (_ & -> & _).
        set_solver. }
    destruct (handleIncomingMessage (readyMessage src hints) e w0) as [w1 posted].
    pose proof (run_handled ops w1 Hops) as H2.
    destruct (run ops w1) as [w2 posted']. cbn [fst] in *. set_solver. }
  change (handleIncomingMessage (readyMessage src' hints') e' w)
    with (handleReady src' hints' (t_client e') w).
  apply handleReady_handled. by rewrite Hc.
Qed.

Lemma second_ready_is_ignored_witness :
  let w := (run [OpMessage (readyMessage (Some 1) Samples.hintsA) Samples.env1;
                 OpMessage (saveMessage true Samples.payload) Samples.env1;
                 OpMessage (gameOverMessage VNull) Samples.env2]
              (Samples.freshHost true)).1 in
  handleIncomingMessage (readyMessage (Some 1) Samples.hintsA) Samples.env2 w
  = (w, []).
Proof.
  apply (second_ready_is_ignored (Samples.freshHost true) (Some 1)
           Samples.hintsA Samples.env1
           [OpMessage (saveMessage true Samples.payload) Samples.env1;
            OpMessage (gameOverMessage VNull) Samples.env2]
           (Some 1) Samples.hintsA Samples.env2); reflexivity.
Defined.

Lemma resetState_fields w :
  let w' := (resetState w).1 in
  state w' = createDefaultState
  ∧ handledReadyClients w' = ∅
  ∧ clientWindows w' = ∅
  ∧ windowToClientId w' = ∅
  ∧ localStorage w'
    = if storageAvailable w then
        delete PLAYER_ASSIGNMENTS_KEY
          (<[getGameStateKey (gameName w) := StoredJson (stringifyState createDefaultState)]>
             (localStorage w))
      else localStorage w.
Proof.
  unfold resetState, clearPlayerAssignments, persistState.
  rewrite removeItem_eq, setItem_eq. world_fields.
  by destruct (storageAvailable w).
Qed.

(** C10. A multiplayer game-over sets [gameState] and [currentPlayerId]
    of the host's state to null and keeps its players; it persists that
    state and removes the assignment table; it leaves the set of handled
    client ids and the registered windows as they were. So a [ready] from
    a client id handled before the game-over is still ignored. Among all
    the things that can happen to a host, only [resetState] takes client
    ids out of the handled set, and it empties it. *)
Theorem game_over_keeps_handled w data e :
  let w' := (handleIncomingMessage (gameOverMessage data) e w).1 in
  state w' = {| gameState := None; players := players (state w);
                currentPlayerId := None |}
  ∧ (storageAvailable w = true →
       persistedJson w' = Some (stringifyState (state w'))
       ∧ localStorage w' !! PLAYER_ASSIGNMENTS_KEY = None
       ∧ ∀ key, key ≠ getGameStateKey (gameName w) →
                key ≠ PLAYER_ASSIGNMENTS_KEY → key ≠ BROADCAST_STORAGE_KEY →
                localStorage w' !! key = localStorage w !! key)
  ∧ readPlayerAssignments w' = ∅
  ∧ handledReadyClients w' = handledReadyClients w
  ∧ clientWindows w' = clientWindows w
  ∧ windowToClientId w' = windowToClientId w
  ∧ (∀ src hints e', clientId hints ∈ handledReadyClients w →
       handleIncomingMessage (readyMessage src hints) e' w' = (w', []))
  ∧ handledReadyClients (resetState w).1 = ∅
  ∧ (∀ o, isReset o = false →
          handledReadyClients w ⊆ handledReadyClients (step o w).1).
Proof.
  change (handleIncomingMessage (gameOverMessage data) e w)
    with (handleMultiplayerGameOver data (t_stamp e) w).
  intros w'.
  destruct (handleMultiplayerGameOver_frame data (t_stamp e) w)
    as (Hh & Hc & Hw & _ & Hn & Ha & Hs).
  fold w' in Hh, Hc, Hw, Hn, Ha, Hs.
  pose proof (handleMultiplayerGameOver_storage data (t_stamp e) w) as Hls.
  fold w' in Hls.
  split; [done|]. split.
  { intros Hsa. rewrite Hsa in Hls. split; [|split].
    - rewrite Hs. by apply handleMultiplayerGameOver_persisted.
    - rewrite Hls. apply lookup_delete_eq.
    - intros key H1 H2 H3. rewrite Hls.
      rewrite lookup_delete_ne by done. rewrite lookup_insert_ne by done.
      by rewrite lookup_insert_ne. }
  split.
  { unfold readPlayerAssignments, getItem. rewrite Ha, Hls.
    destruct (storageAvailable w); [|done]. by rewrite lookup_delete_eq. }
  split; [done|]. split; [done|]. split; [done|]. split.
  { intros src hints e' Hin.
    change (handleIncomingMessage (readyMessage src hints) e' w')
      with (handleReady src hints (t_client e') w').
    apply handleReady_handled. by rewrite Hh. }
  split; [by destruct (resetState_fields w) as (_ & -> & _)|].
  intros o Ho. by apply step_handled.
Qed.

Lemma game_over_keeps_handled_witness :
  let w := (handleIncomingMessage (readyMessage (Some 1) Samples.hintsA)
              Samples.env1 (Samples.freshHost true)).1 in
  let w' := (handleIncomingMessage (gameOverMessage VNull) Samples.env2 w).1 in
  handleIncomingMessage (readyMessage (Some 1) Samples.hintsA) Samples.env2 w'
  = (w', [])
  ∧ readPlayerAssignments w' = ∅.
Proof.
  intros w w'.
  destruct (game_over_keeps_handled w VNull Samples.env2)
    as (_ & _ & Hassign & _ & _ & _ & Hready & _).
  split; [|exact Hassign].
  apply (Hready (Some 1) Samples.hintsA Samples.env2).
  refine (bool_decide_unpack _ _). vm_compute. exact I.
Defined.

End Deduplication.

(** ** The persisted players list *)

Section PlayersList.

Import Host.

Lemma readPersistedState_players w ps :
  storageAvailable w = true →
  persistedPlayers w = Some ps →
  players (readPersistedState w)
  = if 2 <=? length ps then ps else DEFAULT_PLAYERS.
Proof.
  intros Hsa. unfold persistedPlayers, readPersistedState, getItem.
  rewrite Hsa. destruct (localStorage w !! _) as [[parsed| | |]|]; try done.
  by intros ->.
Qed.

Lemma handleReady_fresh_persisted src hints t w :
  storageAvailable w = true →
  clientId hints ∉ handledReadyClients w →
  persistedPlayers (handleReady src hints t w).1
  = Some (jsonifyPlayer <$> (readyRoster w hints).2).
Proof.
  intros Hsa H.
  destruct (handleReady_fresh src hints t w H) as (_ & _ & _ & Hn & _ & Hls).
  unfold persistedPlayers. rewrite Hn, Hls, Hsa. by rewrite lookup_insert_eq.
Qed.

(** C9. [readPersistedState] takes the persisted players list as it is
    when it has 2 or more entries, and returns the two default players,
    ids 1 and 2, for any shorter list and when there is no list. A single-player handshake persists
    a list of exactly one player, so the next read replaces it by the
    defaults. *)
Theorem readPersistedState_short_roster w :
  storageAvailable w = true →
  (∀ ps, persistedPlayers w = Some ps → 2 ≤ length ps →
         players (readPersistedState w) = ps)
  ∧ (∀ ps, persistedPlayers w = Some ps → length ps < 2 →
           players (readPersistedState w) = DEFAULT_PLAYERS)
  ∧ (persistedPlayers w = None →
       players (readPersistedState w) = DEFAULT_PLAYERS)
  ∧ p_id <$> DEFAULT_PLAYERS = ["1"; "2"]
  ∧ (∀ src hints t,
       isMultiplayer w = false → clientId hints ∉ handledReadyClients w →
       let w' := (handleReady src hints t w).1 in
       ∃ p, persistedPlayers w' = Some [p]
            ∧ players (readPersistedState w') = DEFAULT_PLAYERS).
Proof.
  intros Hsa. split; [|split; [|split; [|split; [done|]]]].
  - intros ps Hp Hl. rewrite (readPersistedState_players w ps Hsa Hp).
    apply Nat.leb_le in Hl. by rewrite Hl.
  - intros ps Hp Hl. rewrite (readPersistedState_players w ps Hsa Hp).
    apply Nat.leb_gt in Hl. by rewrite Hl.
  - unfold persistedPlayers, readPersistedState, getItem. rewrite Hsa.
    destruct (localStorage w !! _) as [[parsed| | |]|]; try done.
    by intros ->.
  - intros src hints t Hm H w'.
    pose proof (handleReady_fresh_persisted src hints t w Hsa H) as Hp.
    pose proof (readyRoster_single w hints Hm) as L.
    destruct (readyRoster w hints).2 as [|p [|q l]] eqn:E; simpl in L; try lia.
    exists (jsonifyPlayer p). fold w' in Hp. split; [done|].
    destruct (handleReady_fresh src hints t w H) as (_ & _ & _ & _ & Hsa' & _).
    fold w' in Hsa'. rewrite Hsa in Hsa'.
    by rewrite (readPersistedState_players w' _ Hsa' Hp).
Qed.

Lemma readPersistedState_short_roster_witness :
  let w := Samples.freshHost false in
  let w' := (handleReady (Some 1) Samples.hintsB Samples.tick1 w).1 in
  ∃ p, persistedPlayers w' = Some [p]
       ∧ players (readPersistedState w') = DEFAULT_PLAYERS.
Proof.
  intros w w'.
  destruct (readPersistedState_short_roster w eq_refl) as (_ & _ & _ & _ & H).
  apply (H (Some 1) Samples.hintsB Samples.tick1); [reflexivity|].
  intros Hin. apply (bool_decide_pack _) in Hin. vm_compute in Hin. exact Hin.
Defined.

Lemma rosterFrom_length i l ps :
  rosterFrom i l = Some ps → length ps = length l.
Proof.
  revert i ps. induction l as [|x l IH]; intros i ps; simpl.
  - by intros [= <-].
  - destruct (rosterEntry i x); [|done].
    destruct (rosterFrom (S i) l) as [qs|] eqn:E; [|done].
    intros [= <-]. simpl. by rewrite (IH _ _ E).
Qed.

Lemma payloadRoster_length typed ps :
  payloadRoster typed = Some ps → 2 ≤ length ps.
Proof.
  unfold payloadRoster. destruct (truthy typed); [|done].
  destruct (prop "players" typed); try done.
  destruct (2 <=? length items) eqn:E; [|done].
  intros [= <-]. by apply Nat.leb_le.
Qed.

Lemma savedEnvelopes_app a b :
  savedEnvelopes (a ++ b) = savedEnvelopes a ++ savedEnvelopes b.
Proof. unfold savedEnvelopes. apply flat_map_app. Qed.

Lemma savedEnvelopes_sendGameEvent type data targetClientId w :
  savedEnvelopes (sendGameEvent type data targetClientId w) = [].
Proof.
  unfold sendGameEvent.
  destruct (truthyStr targetClientId).
  - by destruct (clientWindows w !! s).
  - destruct (size (clientWindows w) =? 0); [done|].
    induction (map_to_list (clientWindows w)) as [|kv l IH]; [done|].
    rewrite fmap_cons. unfold savedEnvelopes in *. cbn [flat_map].
    by rewrite IH.
Qed.

(** The state a save leaves in the host, what it persists and what it
    sends out. *)
Lemma handleSaveGameState_result data t stamp w :
  isObjectLike data = true →
  let r := handleSaveGameState data t stamp w in
  gameState (state r.1) = makeEnvelope data t
  ∧ (rosterReadable data = true →
       players (state r.1)
       = match payloadRoster (prop "gameState" data) with
         | Some roster => default [] (rosterFrom 0 roster)
         | None => players (state w)
         end
       ∧ savedEnvelopes r.2 = [makeEnvelope data t]
       ∧ (storageAvailable w = true →
            persistedJson r.1 = Some (stringifyState (state r.1))))
  ∧ (rosterReadable data = false →
       players (state r.1) = players (state w)
       ∧ r.2 = [] ∧ localStorage r.1 = localStorage w).
Proof.
  intros Ho. unfold handleSaveGameState, rosterReadable. rewrite Ho. cbn [negb].
  destruct (payloadRoster (prop "gameState" data)) as [roster|].
  - destruct (rosterFrom 0 roster) as [ps|]; cbn [fst snd].
    + unfold broadcastToOtherWindows, persistState. rewrite !setItem_eq.
      world_fields. split; [done|]. split; [|done]. intros _.
      split; [done|]. split.
      { by rewrite savedEnvelopes_app, savedEnvelopes_sendGameEvent. }
      intros Hsa. unfold persistedJson. world_fields. rewrite Hsa.
      rewrite lookup_insert_ne by (apply not_eq_sym, stateKey_not_broadcast).
      by rewrite lookup_insert_eq.
    + world_fields. split; [done|]. split; [done|]. by intros _.
  - cbn [fst snd]. unfold broadcastToOtherWindows, persistState.
    rewrite !setItem_eq. world_fields. split; [done|]. split; [|done].
    intros _. split; [done|]. split.
    { by rewrite savedEnvelopes_app, savedEnvelopes_sendGameEvent. }
    intros Hsa. unfold persistedJson. world_fields. rewrite Hsa.
    rewrite lookup_insert_ne by (apply not_eq_sym, stateKey_not_broadcast).
    by rewrite lookup_insert_eq.
Qed.

Lemma handleIncomingMessage_save variant data e w :
  (handleIncomingMessage (saveMessage variant data) e w).1
  = (handleSaveGameState data (t_envelope e) (t_stamp e) w).1
  ∧ savedEnvelopes (handleIncomingMessage (saveMessage variant data) e w).2
    = savedEnvelopes (handleSaveGameState data (t_envelope e) (t_stamp e) w).2.
Proof.
  unfold handleIncomingMessage, saveMessage.
  destruct variant; cbn -[handleSaveGameState];
    destruct (handleSaveGameState _ _ _ w) as [w' posted]; done.
Qed.

End PlayersList.

Section PlayersCap.

Import Host.

Lemma persistedPlayers_of_json w j :
  persistedJson w = Some j → persistedPlayers w = pj_players j.
Proof.
  unfold persistedJson, persistedPlayers.
  destruct (localStorage w !! _) as [[parsed| | |]|]; try done.
  by intros [= ->].
Qed.

(** C1, as the specification words it, fails on both counts: a save
    whose payload lists three players persists three players, and a reset
    of a single-player host persists two. *)
Lemma playersCapped_fails :
  ¬ Stated.playersCapped (Samples.freshHost true)
      [OpMessage (saveMessage true Samples.payloadOfThree) Samples.env1]
  ∧ ¬ Stated.playersCapped (Samples.freshHost false) [OpReset].
Proof.
  split; intros H.
  - destruct (H _ eq_refl) as [Hle _]. vm_compute in Hle. lia.
  - destruct (H _ eq_refl) as [_ Hone].
    specialize (Hone eq_refl ltac:(discriminate)). vm_compute in Hone.
    discriminate.
Qed.

Lemma upsertPlayer_ids_any multiplayer resolved hints ps :
  p_id <$> upsertPlayer multiplayer resolved hints ps
  = if bool_decide (resolved ∈ p_id <$> ps) then p_id <$> ps
    else if ((length ps <? 2) || multiplayer)%bool
         then (p_id <$> ps) ++ [resolved]
         else p_id <$> ps.
Proof.
  unfold upsertPlayer.
  destruct (findIndex _ ps) as [i|] eqn:E.
  - rewrite bool_decide_eq_true_2.
    2:{ destruct (decide (resolved ∈ p_id <$> ps)) as [Hin|Hout]; [done|].
        apply findIndex_None_ids in Hout. by rewrite Hout in E. }
    destruct (truthyStr (playerName hints)) as [n|]; [|done].
    destruct (ps !! i) as [q|] eqn:Eq; [|done].
    destruct (nameDiffers (p_name q) n); [|done].
    rewrite list_fmap_insert. cbn [p_id]. apply list_insert_id.
    by rewrite list_lookup_fmap, Eq.
  - apply findIndex_None_ids in E. rewrite bool_decide_eq_false_2 by done.
    destruct (_ || _)%bool; [|done]. by rewrite fmap_app.
Qed.

(** The ids of the players that a handshake leaves. *)
Lemma readyRoster_ids w hints :
  p_id <$> (readyRoster w hints).2
  = if isMultiplayer w then
      if bool_decide ((readyRoster w hints).1
                      ∈ p_id <$> players (readPersistedState w))
      then p_id <$> players (readPersistedState w)
      else (p_id <$> players (readPersistedState w)) ++ [(readyRoster w hints).1]
    else take 1 (p_id <$> players (readPersistedState w)).
Proof.
  rewrite readyRoster_resolved. cbn [fst snd].
  pose proof (readPersistedState_length w) as L.
  set (ps := players (readPersistedState w)) in *.
  set (resolved := (resolvePlayerId _ _ _ _).1).
  unfold trimSinglePlayer.
  destruct (isMultiplayer w); cbn [negb andb].
  - rewrite upsertPlayer_ids_any. destruct (bool_decide _); [done|].
    by rewrite Bool.orb_true_r.
  - assert (Hids : p_id <$> upsertPlayer false resolved hints ps = p_id <$> ps).
    { rewrite upsertPlayer_ids_any. destruct (bool_decide _); [done|].
      destruct (length ps <? 2) eqn:E; [|done]. apply Nat.ltb_lt in E. lia. }
    assert (Hlen : length (upsertPlayer false resolved hints ps) = length ps).
    { by rewrite <- (length_fmap p_id), Hids, length_fmap. }
    destruct (1 <? length (upsertPlayer false resolved hints ps)) eqn:E.
    + by rewrite fmap_take, Hids.
    + apply Nat.ltb_ge in E. lia.
Qed.

(** The ids that the roster mapping of a save gives. *)
Lemma rosterFrom_ids i roster ps :
  rosterFrom i roster = Some ps →
  p_id <$> ps
  = imap (λ j p, toStr (orElse (prop "id" p)
                          (orElse (prop "playerId" p)
                             (VNum (Z.of_nat (i + j + 1)))))) roster.
Proof.
  revert i ps. induction roster as [|p roster IH]; intros i ps; cbn [rosterFrom].
  - by intros [= <-].
  - destruct (rosterEntry i p) as [q|] eqn:Eq; [|done].
    destruct (rosterFrom (S i) roster) as [qs|] eqn:Eqs; [|done].
    intros [= <-]. rewrite fmap_cons, imap_cons. f_equal.
    + unfold rosterEntry in Eq. rewrite Nat.add_0_r.
      destruct p; try done; by injection Eq as <-.
    + rewrite (IH _ _ Eqs). apply imap_ext. intros j x _. cbn.
      by replace (S (i + j + 1)) with (i + S j + 1) by lia.
Qed.

Lemma rosterFrom_None i roster :
  rosterFrom i roster = None ↔ (VNull ∈ roster ∨ VUndefined ∈ roster).
Proof.
  revert i. induction roster as [|p roster IH]; intros i; cbn [rosterFrom].
  - split; [done|]. intros [H|H]; by apply elem_of_nil in H.
  - destruct (rosterEntry i p) as [q|] eqn:Eq.
    + assert (Hp : p ≠ VNull ∧ p ≠ VUndefined) by (by destruct p).
      destruct (rosterFrom (S i) roster) as [qs|] eqn:Eqs.
      * split; [done|]. intros H.
        assert (VNull ∈ roster ∨ VUndefined ∈ roster) as H'.
        { destruct H as [H|H]; apply elem_of_cons in H as [H|H];
            first [by destruct Hp; subst | by left | by right]. }
        apply (IH (S i)) in H'. by rewrite H' in Eqs.
      * split; [|done]. intros _. destruct (proj1 (IH (S i)) Eqs) as [H|H];
          [left|right]; by apply elem_of_cons; right.
    + split; [|done]. intros _. destruct p; try done;
        [right|left]; by apply elem_of_cons; left.
Qed.

(** A save stops at the roster mapping exactly when the payload offers a
    roster with an entry that is [null] or [undefined]. *)
Lemma rosterReadable_false data :
  rosterReadable data = false
  ↔ ∃ roster, payloadRoster (prop "gameState" data) = Some roster
              ∧ (VNull ∈ roster ∨ VUndefined ∈ roster).
Proof.
  unfold rosterReadable.
  destruct (payloadRoster (prop "gameState" data)) as [roster|].
  - destruct (rosterFrom 0 roster) as [ps|] eqn:E.
    + split; [done|]. intros (roster' & [= <-] & H).
      apply (rosterFrom_None 0) in H. by rewrite H in E.
    + split; [|done]. intros _. exists roster. split; [done|].
      by apply (rosterFrom_None 0).
  - split; [done|]. by intros (roster' & ? & _).
Qed.

(** C1, amended. With working storage, a ready handshake that a
    single-player host processes persists exactly 1 player, whose id is
    that of the first player of the list read from storage. The list is not capped at 2. A handshake
    that a multiplayer host processes persists the list read from
    storage, which has at least 2 entries, with one player appended when
    the resolved id is not in it. A save whose data is an object and
    whose roster has no entry that is [null] or [undefined] persists
    the payload's roster, mapped entry by entry, when it has 2 or more
    entries, however many, and the host's current list otherwise; a
    save whose data is not an object, or whose roster has such an entry,
    persists nothing. A game-over persists the host's current list, and
    a reset persists the two default players on either kind of host. *)
Theorem persisted_players_by_operation w :
  storageAvailable w = true →
  (∀ src hints e,
     clientId hints ∉ handledReadyClients w →
     let stored := players (readPersistedState w) in
     let resolved := (readyRoster w hints).1 in
     ∃ ps,
       persistedPlayers (handleIncomingMessage (readyMessage src hints) e w).1
       = Some ps
       ∧ 2 ≤ length stored
       ∧ p_id <$> ps
         = (if isMultiplayer w then
              if bool_decide (resolved ∈ p_id <$> stored) then p_id <$> stored
              else (p_id <$> stored) ++ [resolved]
            else take 1 (p_id <$> stored))
       ∧ (isMultiplayer w = false → length ps = 1))
  ∧ (∀ variant data e,
       let r := handleIncomingMessage (saveMessage variant data) e w in
       (isObjectLike data = false → r.1 = w)
       ∧ (isObjectLike data = true → rosterReadable data = false →
          localStorage r.1 = localStorage w
          ∧ players (state r.1) = players (state w))
       ∧ (isObjectLike data = true → rosterReadable data = true →
          match payloadRoster (prop "gameState" data) with
          | Some roster =>
              ∃ ps, rosterFrom 0 roster = Some ps
                    ∧ persistedPlayers r.1 = Some (jsonifyPlayer <$> ps)
                    ∧ players (state r.1) = ps
                    ∧ length ps = length roster ∧ 2 ≤ length roster
                    ∧ p_id <$> ps
                      = imap (λ j p, toStr (orElse (prop "id" p)
                                              (orElse (prop "playerId" p)
                                                 (VNum (Z.of_nat (0 + j + 1))))))
                          roster
          | None =>
              persistedPlayers r.1 = Some (jsonifyPlayer <$> players (state w))
              ∧ players (state r.1) = players (state w)
          end)
       ∧ (rosterReadable data = false
          ↔ ∃ roster, payloadRoster (prop "gameState" data) = Some roster
                      ∧ (VNull ∈ roster ∨ VUndefined ∈ roster)))
  ∧ (∀ data e,
       persistedPlayers (handleIncomingMessage (gameOverMessage data) e w).1
       = Some (jsonifyPlayer <$> players (state w)))
  ∧ persistedPlayers (resetState w).1 = Some DEFAULT_PLAYERS.
Proof.
  intros Hsa. split; [|split; [|split]].
  - intros src hints e H stored resolved.
    change (handleIncomingMessage (readyMessage src hints) e w)
      with (handleReady src hints (t_client e) w).
    rewrite (handleReady_fresh_persisted src hints (t_client e) w Hsa H).
    eexists; split; [reflexivity|].
    split; [apply readPersistedState_length|]. split.
    + rewrite <- list_fmap_compose.
      rewrite (list_fmap_ext (p_id ∘ jsonifyPlayer) p_id _ (λ _ _ _, eq_refl)).
      apply readyRoster_ids.
    + intros Hm. rewrite length_fmap. by apply readyRoster_single.
  - intros variant data e r.
    destruct (handleIncomingMessage_save variant data e w) as [Hw _].
    fold r in Hw. rewrite Hw.
    split; [|split; [|split]].
    + intros Ho. unfold handleSaveGameState. by rewrite Ho.
    + intros Ho Hr.
      destruct (handleSaveGameState_result data (t_envelope e) (t_stamp e) w Ho)
        as (_ & _ & Hbad).
      by destruct (Hbad Hr) as (Hp & _ & Hls).
    + intros Ho Hr.
      destruct (handleSaveGameState_result data (t_envelope e) (t_stamp e) w Ho)
        as (_ & Hok & _).
      destruct (Hok Hr) as (Hp & _ & Hj). specialize (Hj Hsa).
      rewrite (persistedPlayers_of_json _ _ Hj).
      cbn [stringifyState pj_players]. rewrite Hp.
      unfold rosterReadable in Hr.
      destruct (payloadRoster (prop "gameState" data)) as [roster|] eqn:E; [|done].
      destruct (rosterFrom 0 roster) as [qs|] eqn:E'; [|done].
      exists qs. cbn [default]. split; [done|]. split; [done|]. split; [done|].
      split; [by apply rosterFrom_length in E'|].
      split; [by apply payloadRoster_length in E|].
      by apply rosterFrom_ids.
    + apply rosterReadable_false.
  - intros data e.
    change (handleIncomingMessage (gameOverMessage data) e w)
      with (handleMultiplayerGameOver data (t_stamp e) w).
    by rewrite (persistedPlayers_of_json _ _
                  (handleMultiplayerGameOver_persisted data (t_stamp e) w Hsa)).
  - destruct (resetState_fields w) as (_ & _ & _ & _ & Hls).
    unfold persistedPlayers.
    assert (gameName (resetState w).1 = gameName w) as ->.
    { unfold resetState, clearPlayerAssignments, persistState.
      rewrite removeItem_eq, setItem_eq. by world_fields. }
    rewrite Hls, Hsa.
    rewrite lookup_delete_ne by (apply not_eq_sym, stateKey_not_assignments).
    by rewrite lookup_insert_eq.
Qed.

Lemma persisted_players_by_operation_witness :
  ∃ ps,
    persistedPlayers
      (handleIncomingMessage (readyMessage (Some 1) Samples.hintsA)
         Samples.env1 (Samples.freshHost false)).1 = Some ps
    ∧ p_id <$> ps = ["1"]
    ∧ length ps = 1.
Proof.
  destruct (persisted_players_by_operation (Samples.freshHost false) eq_refl)
    as (H & _).
  destruct (H (Some 1) Samples.hintsA Samples.env1) as (ps & Hps & _ & Hids & Hlen).
  { intros Hin. apply (bool_decide_pack _) in Hin. vm_compute in Hin. exact Hin. }
  exists ps. split; [exact Hps|]. split; [exact Hids|]. by apply Hlen.
Defined.

End PlayersCap.

(** ** Envelope ids *)

Section EnvelopeIds.

Import Host HostMore.



Lemma sendGameEvent_fanOut type data w :
  sendGameEvent type data None w
  = (λ win, ToClient win type data) <$> fanOutTargets w.
Proof.
  unfold sendGameEvent, fanOutTargets. cbn [truthyStr].
  destruct (size (clientWindows w) =? 0); [done|].
  by rewrite <- list_fmap_compose.
Qed.


(** A save message: the handler's result, with what the [switch] posts
    in front. *)
Lemma handleIncomingMessage_save_posted variant data e w :
  handleIncomingMessage (saveMessage variant data) e w
  = ((handleSaveGameState data (t_envelope e) (t_stamp e) w).1,
     ((if variant then []
       else [DevEvent "single_player_save_game_state" (PValue data)])
      ++ [PanelBroadcast (if variant then "multiplayer_game_state_broadcast"
                          else "single_player_game_state_broadcast")
            (panelCopy data (t_panel e))])
     ++ (handleSaveGameState data (t_envelope e) (t_stamp e) w).2).
Proof.
  unfold handleIncomingMessage, saveMessage.
  destruct variant; cbn -[handleSaveGameState];
    by destruct (handleSaveGameState _ _ _ w) as [w' posted].
Qed.



End EnvelopeIds.

(** ** Identity resolution *)

Section IdentityResolution.

Import Host Precedence.

Lemma truthyStr_Some o s : truthyStr o = Some s → o = Some s ∧ s ≠ "".
Proof.
  unfold truthyStr. destruct o as [s'|]; [|done].
  destruct (String.eqb s' "") eqn:E; [done|]. intros [= ->].
  split; [done|]. intros ->. by rewrite String.eqb_refl in E.
Qed.

Lemma truthyStr_None o : truthyStr o = None → ∀ s, o = Some s → s = "".
Proof.
  unfold truthyStr. intros H s ->.
  destruct (String.eqb s "") eqn:E; [by apply String.eqb_eq|done].
Qed.

Lemma find_first {A} (f : A → bool) l x :
  find f l = Some x →
  ∃ before after,
    l = before ++ x :: after ∧ f x = true ∧ Forall (λ y, f y = false) before.
Proof.
  induction l as [|y l IH]; simpl; [done|].
  destruct (f y) eqn:E.
  - intros [= ->]. exists [], l. by repeat split.
  - intros H. destruct (IH H) as (before & after & -> & Hx & Hb).
    exists (y :: before), after. repeat split; [done|]. by constructor.
Qed.

Lemma find_nowhere {A} (f : A → bool) l :
  find f l = None → Forall (λ y, f y = false) l.
Proof.
  induction l as [|y l IH]; simpl; [by constructor|].
  destruct (f y) eqn:E; [done|]. intros H. constructor; auto.
Qed.

Lemma unassigned_test assignments p :
  negb (bool_decide (p_id p ∈ (map_img assignments : gset string))) = false
  ↔ isAssigned assignments p.
Proof.
  unfold isAssigned. rewrite Bool.negb_false_iff, bool_decide_eq_true.
  apply elem_of_map_img.
Qed.

Lemma resolvePlayerId_precedence multiplayer ps assignments hints :
  Resolves multiplayer ps assignments hints
    (resolvePlayerId multiplayer ps assignments hints).1
    (resolvePlayerId multiplayer ps assignments hints).2.
Proof.
  unfold resolvePlayerId.
  destruct (truthyStr (playerId hints)) as [h|] eqn:Eh.
  { apply truthyStr_Some in Eh as [Eh Hne]. by apply explicit_hint. }
  pose proof (truthyStr_None _ Eh) as Hno.
  destruct (truthyStr (assignments !! clientId hints)) as [a|] eqn:Ea.
  { apply truthyStr_Some in Ea as [Ea Hne]. by apply existing_assignment. }
  pose proof (truthyStr_None _ Ea) as Hna.
  destruct multiplayer; cbn [negb]; [|by apply single_player].
  destruct (find _ ps) as [p|] eqn:Ef.
  - apply find_first in Ef as (before & after & -> & Hp & Hb).
    apply (first_unassigned _ _ _ _ before p after); try done.
    + eapply Forall_impl; [exact Hb|]. intros q Hq. by apply unassigned_test.
    + intros Hass. apply unassigned_test in Hass. congruence.
  - apply find_nowhere in Ef.
    assert (Forall (isAssigned assignments) ps) as Hall.
    { eapply Forall_impl; [exact Ef|]. intros q Hq. by apply unassigned_test. }
    destruct (2 <=? length ps) eqn:El.
    + apply Nat.leb_le in El. by apply cap_reached.
    + apply Nat.leb_gt in El. by apply synthesized.
Qed.

Lemma noHint_falsy hints : noHint hints → truthyStr (playerId hints) = None.
Proof.
  unfold noHint, truthyStr. intros H.
  destruct (playerId hints) as [h|]; [|done]. by rewrite (H h eq_refl).
Qed.

Lemma noAssignment_falsy assignments hints :
  noAssignment assignments hints →
  truthyStr (assignments !! clientId hints) = None.
Proof.
  unfold noAssignment, truthyStr. intros H.
  destruct (assignments !! clientId hints) as [a|]; [|done].
  by rewrite (H a eq_refl).
Qed.

Lemma find_skip {A} (f : A → bool) before l :
  Forall (λ y, f y = false) before → find f (before ++ l) = find f l.
Proof.
  induction 1 as [|y before Hy _ IH]; [done|]. cbn [app find]. by rewrite Hy.
Qed.

Lemma all_assigned assignments (ps : list Player) :
  Forall (isAssigned assignments) ps →
  Forall (λ p, negb (bool_decide (p_id p ∈ (map_img assignments : gset string)))
               = false) ps.
Proof.
  intros H. eapply Forall_impl; [exact H|]. intros q Hq. by apply unassigned_test.
Qed.

(** The precedence leaves one answer, the one the chain computes. *)
Lemma resolvePlayerId_only multiplayer ps assignments hints id ps' :
  Resolves multiplayer ps assignments hints id ps' →
  resolvePlayerId multiplayer ps assignments hints = (id, ps').
Proof.
  intros H. unfold resolvePlayerId.
  destruct H as [h Hh Hne|a Hno Ha Hne|Hno Hna Hm
                 |before q after Hno Hna Hm Hps Hb Hq|Hno Hna Hm Hall Hlen
                 |Hno Hna Hm Hall Hlen].
  - rewrite Hh. cbn [truthyStr].
    destruct (String.eqb h "") eqn:E; [by apply String.eqb_eq in E|done].
  - rewrite (noHint_falsy _ Hno), Ha. cbn [truthyStr].
    destruct (String.eqb a "") eqn:E; [by apply String.eqb_eq in E|done].
  - rewrite (noHint_falsy _ Hno), (noAssignment_falsy _ _ Hna). by rewrite Hm.
  - rewrite (noHint_falsy _ Hno), (noAssignment_falsy _ _ Hna), Hm. cbn [negb].
    rewrite Hps, (find_skip _ _ _ (all_assigned _ _ Hb)). cbn [find].
    destruct (negb (bool_decide _)) eqn:E; [done|].
    by apply unassigned_test in E.
  - rewrite (noHint_falsy _ Hno), (noAssignment_falsy _ _ Hna), Hm. cbn [negb].
    rewrite <- (app_nil_r ps) at 1.
    rewrite (find_skip _ _ _ (all_assigned _ _ Hall)). cbn [find].
    destruct (2 <=? length ps) eqn:E; [|done]. apply Nat.leb_le in E. lia.
  - rewrite (noHint_falsy _ Hno), (noAssignment_falsy _ _ Hna), Hm. cbn [negb].
    rewrite <- (app_nil_r ps) at 1.
    rewrite (find_skip _ _ _ (all_assigned _ _ Hall)). cbn [find].
    destruct (2 <=? length ps) eqn:E; [done|]. apply Nat.leb_gt in E. lia.
Qed.

End IdentityResolution.
Section Scenario.

Import Host Precedence.

Lemma find_by_id resolved (ps : list Player) :
  resolved ∈ p_id <$> ps →
  ∃ p, find (λ p, String.eqb (p_id p) resolved) ps = Some p ∧ p_id p = resolved.
Proof.
  induction ps as [|q ps IH]; simpl.
  - by intros ?%elem_of_nil.
  - intros H. destruct (String.eqb (p_id q) resolved) eqn:E.
    + apply String.eqb_eq in E. by exists q.
    + apply elem_of_cons in H as [->|H]; [by rewrite String.eqb_refl in E|].
      by apply IH.
Qed.

Lemma upsertPlayer_ids multiplayer resolved hints ps :
  resolved ∈ p_id <$> ps →
  p_id <$> upsertPlayer multiplayer resolved hints ps = p_id <$> ps.
Proof.
  intros H. unfold upsertPlayer.
  destruct (findIndex _ ps) as [i|] eqn:E.
  - destruct (truthyStr (playerName hints)) as [n|]; [|done].
    destruct (ps !! i) as [p|] eqn:Ep; [|done].
    destruct (nameDiffers (p_name p) n); [|done].
    rewrite list_fmap_insert. cbn [p_id]. apply list_insert_id.
    by rewrite list_lookup_fmap, Ep.
  - apply findIndex_None_ids in E. contradiction.
Qed.

Lemma jsonifyPlayer_ids (ps : list Player) :
  p_id <$> (jsonifyPlayer <$> ps) = p_id <$> ps.
Proof. rewrite <- list_fmap_compose. by apply list_fmap_ext. Qed.

Lemma resolvePlayerId_two ps assignments hints :
  p_id <$> ps = ["1"; "2"] →
  playerId hints = None →
  assignments !! clientId hints = None →
  resolvePlayerId true ps assignments hints = (nextOfTwo assignments, ps).
Proof.
  intros Hids Hh Ha. unfold resolvePlayerId, nextOfTwo. rewrite Hh, Ha.
  cbn [truthyStr negb].
  destruct ps as [|p1 [|p2 [|p3 ps]]]; try done.
  injection Hids as H1 H2. cbn [find]. rewrite H1, H2.
  destruct (bool_decide ("1" ∈ map_img assignments)); cbn [negb];
    [|by rewrite <- H1].
  destruct (bool_decide ("2" ∈ map_img assignments)); cbn [negb];
    [done|by rewrite <- H2].
Qed.

Lemma nextOfTwo_listed assignments : nextOfTwo assignments ∈ ["1"; "2"].
Proof.
  unfold nextOfTwo. repeat destruct (bool_decide _); set_solver.
Qed.

Lemma handshake_on_two w src hints t :
  storageAvailable w = true →
  isMultiplayer w = true →
  p_id <$> players (readPersistedState w) = ["1"; "2"] →
  playerId hints = None →
  readPlayerAssignments w !! clientId hints = None →
  clientId hints ∉ handledReadyClients w →
  let r := nextOfTwo (readPlayerAssignments w) in
  let w' := (handleReady src hints t w).1 in
  storageAvailable w' = true
  ∧ isMultiplayer w' = true
  ∧ p_id <$> players (readPersistedState w') = ["1"; "2"]
  ∧ readPlayerAssignments w' = <[clientId hints := r]> (readPlayerAssignments w)
  ∧ handledReadyClients w' = {[clientId hints]} ∪ handledReadyClients w
  ∧ ∃ rid g, gameInfoReplies (handleReady src hints t w).2 = [(rid, g)]
             ∧ p_id (gi_player g) = r.
Proof.
  intros Hsa Hm Hids Hh Ha Hc r w'.
  pose proof (resolvePlayerId_two _ _ _ Hids Hh Ha) as Hres.
  assert (readyRoster w hints
          = (r, upsertPlayer true r hints (players (readPersistedState w)))) as Hroster.
  { unfold readyRoster. rewrite Hm, Hres. by unfold trimSinglePlayer. }
  assert (p_id <$> (readyRoster w hints).2 = ["1"; "2"]) as Hids'.
  { rewrite Hroster. cbn [snd]. rewrite upsertPlayer_ids; [done|].
    rewrite Hids. apply nextOfTwo_listed. }
  destruct (handleReady_fresh src hints t w Hc) as (Hs & Hh' & Hm' & Hn & Hsa' & Hls).
  fold w' in Hs, Hh', Hm', Hn, Hsa', Hls. rewrite Hsa in Hls.
  split; [congruence|]. split; [congruence|]. split.
  { assert (persistedPlayers w' = Some (jsonifyPlayer <$> (readyRoster w hints).2)) as Hp.
    { by apply handleReady_fresh_persisted. }
    rewrite (readPersistedState_players w' _ (eq_trans Hsa' Hsa) Hp).
    assert (length (jsonifyPlayer <$> (readyRoster w hints).2) = 2) as ->.
    { rewrite length_fmap. by rewrite <- (length_fmap p_id), Hids'. }
    cbn [Nat.leb]. by rewrite jsonifyPlayer_ids. }
  split.
  { unfold readPlayerAssignments at 1, getItem. rewrite Hsa', Hsa, Hls.
    rewrite lookup_insert_ne by apply stateKey_not_assignments.
    rewrite lookup_insert_eq. by rewrite Hroster. }
  split; [done|].
  destruct (handleReady_fresh_replies src hints t w Hc) as (rid & player & Hp & Hrep).
  eexists rid, _. split; [exact Hrep|]. cbn [gi_player].
  unfold readyPlayer in Hp.
  destruct (find_by_id r (readyRoster w hints).2) as (p & Hf & Hid).
  { rewrite Hids'. apply nextOfTwo_listed. }
  rewrite Hroster in Hp. cbn [fst snd] in Hp. rewrite Hroster in Hf.
  cbn [snd] in Hf. rewrite Hf in Hp. congruence.
Qed.


Lemma nextOfTwo_empty : nextOfTwo ∅ = "1".
Proof.
  unfold nextOfTwo. rewrite bool_decide_eq_false_2; [done|].
  intros (k & Hk)%elem_of_map_img. by rewrite lookup_empty in Hk.
Qed.

(** A handshake on a multiplayer host whose storage does not work: the
    list and the table read are the defaults, so a client without hint
    gets player 1. *)
Lemma handshake_without_storage w src hints t :
  storageAvailable w = false →
  isMultiplayer w = true →
  playerId hints = None →
  clientId hints ∉ handledReadyClients w →
  let w' := (handleReady src hints t w).1 in
  storageAvailable w' = false
  ∧ isMultiplayer w' = true
  ∧ handledReadyClients w' = {[clientId hints]} ∪ handledReadyClients w
  ∧ ∃ rid g, gameInfoReplies (handleReady src hints t w).2 = [(rid, g)]
             ∧ p_id (gi_player g) = "1".
Proof.
  intros Hsa Hm Hh Hc w'.
  assert (Hstate : readPersistedState w = createDefaultState).
  { unfold readPersistedState, getItem. by rewrite Hsa. }
  assert (Hassign : readPlayerAssignments w = ∅).
  { unfold readPlayerAssignments, getItem. by rewrite Hsa. }
  assert (Hroster : readyRoster w hints
                    = ("1", upsertPlayer true "1" hints DEFAULT_PLAYERS)).
  { unfold readyRoster. rewrite Hm, Hstate, Hassign.
    rewrite (resolvePlayerId_two (players createDefaultState) ∅ hints eq_refl Hh
               (lookup_empty _)).
    rewrite nextOfTwo_empty. by unfold trimSinglePlayer. }
  assert (Hids : p_id <$> (readyRoster w hints).2 = ["1"; "2"]).
  { rewrite Hroster. cbn [snd]. rewrite upsertPlayer_ids; [done|].
    apply elem_of_cons. by left. }
  destruct (handleReady_fresh src hints t w Hc) as (_ & Hh' & Hm' & _ & Hsa' & _).
  fold w' in Hh', Hm', Hsa'.
  split; [congruence|]. split; [congruence|]. split; [done|].
  destruct (handleReady_fresh_replies src hints t w Hc) as (rid & player & Hp & Hrep).
  eexists rid, _. split; [exact Hrep|]. cbn [gi_player].
  unfold readyPlayer in Hp.
  destruct (find_by_id "1" (readyRoster w hints).2) as (q & Hf & Hid).
  { rewrite Hids. apply elem_of_cons. by left. }
  rewrite Hroster in Hp, Hf. cbn [fst snd] in Hp, Hf. rewrite Hf in Hp. congruence.
Qed.

(** C2, as the specification words it, fails in its last part: on a host
    whose storage does not work the assignment table is empty at every
    handshake, and the second of three clients gets player 1 again. *)
Lemma oneTwoOne_fails :
  ¬ Stated.oneTwoOne (newHost "h0stid42" true 0 "bizarre ball toss" false ∅).1
      Samples.hintsA Samples.hintsB Samples.hintsC Samples.env1.
Proof.
  intros (ra & rb & rc & ga & gb & gc & H & _ & Hb & _).
  vm_compute in H. injection H as _ _ _ <- _ _. vm_compute in Hb. discriminate.
Qed.

(** C2, amended. The chain that resolves the player id follows the
    precedence, and the precedence leaves no other answer: a hint that
    is there and not empty wins; otherwise the client's assignment in
    the table, when it is not empty; otherwise "1" on a single-player
    host; otherwise, on a multiplayer host, the first player of the list
    whose id is not a value of the table, then a synthesized player
    while the list has fewer than 2 entries, then "1". A handshake
    applies the chain to the list and the table it reads from storage;
    that list has at least 2 entries, so that a handshake never
    synthesizes a player. The resolved id is what the host writes into
    the table, when storage works, and announces, and the reply carries
    the player with that id when the list has one. Three multiplayer
    clients with distinct client ids and no hint get the players with
    ids 1, 2 and 1 on a new host over empty, working storage; on a host
    whose storage does not work they get 1, 1 and 1. *)
Theorem handshake_resolves_by_precedence :
  (∀ multiplayer ps assignments hints id ps',
     resolvePlayerId multiplayer ps assignments hints = (id, ps')
     ↔ Resolves multiplayer ps assignments hints id ps')
  ∧ (∀ w src hints e,
       clientId hints ∉ handledReadyClients w →
       let r := handleIncomingMessage (readyMessage src hints) e w in
       ∃ resolved rid g,
         resolvePlayerId (isMultiplayer w) (players (readPersistedState w))
           (readPlayerAssignments w) hints
         = (resolved, players (readPersistedState w))
         ∧ 2 ≤ length (players (readPersistedState w))
         ∧ (storageAvailable w = true →
              readPlayerAssignments r.1 !! clientId hints = Some resolved)
         ∧ (storageAvailable w = false → readPlayerAssignments r.1 = ∅)
         ∧ In (DevEvent "game_info_assigned"
                 (PAssigned rid resolved (p_name (gi_player g)))) r.2
         ∧ gameInfoReplies r.2 = [(rid, g)]
         ∧ (resolved ∈ p_id <$> gi_players g → p_id (gi_player g) = resolved))
  ∧ (∀ host selfWindow name available sa sb sc ha hb hc ea eb ec,
       playerId ha = None → playerId hb = None → playerId hc = None →
       clientId ha ≠ clientId hb → clientId ha ≠ clientId hc →
       clientId hb ≠ clientId hc →
       ∃ ra rb rc ga gb gc,
         gameInfoReplies
           (run [OpMessage (readyMessage sa ha) ea;
                 OpMessage (readyMessage sb hb) eb;
                 OpMessage (readyMessage sc hc) ec]
              (newHost host true selfWindow name available ∅).1).2
         = [(ra, ga); (rb, gb); (rc, gc)]
         ∧ p_id (gi_player ga) = "1"
         ∧ p_id (gi_player gb) = (if available then "2" else "1")
         ∧ p_id (gi_player gc) = "1").
Proof.
  split; [|split].
  - intros multiplayer ps assignments hints id ps'. split.
    + intros H.
      pose proof (resolvePlayerId_precedence multiplayer ps assignments hints) as R.
      by rewrite H in R.
    + apply resolvePlayerId_only.
  - intros w src hints e Hc.
    change (handleIncomingMessage (readyMessage src hints) e w)
      with (handleReady src hints (t_client e) w). cbn zeta.
    destruct (readyPlayer_some w hints) as [player Hp].
    destruct (handleReady_fresh_posted src hints (t_client e) w player Hc Hp)
      as (posted0 & rid & Hposted & H0).
    pose proof (resolvePlayerId_keeps (isMultiplayer w)
                  (players (readPersistedState w)) (readPlayerAssignments w)
                  hints (readPersistedState_length w)) as Hkeeps.
    pose proof (readyRoster_resolved w hints) as Hroster.
    set (res := resolvePlayerId (isMultiplayer w)
                  (players (readPersistedState w)) (readPlayerAssignments w)
                  hints) in *.
    exists res.1, rid,
      {| gi_players := (readyRoster w hints).2; gi_player := player;
         gi_initialGameState := gameState (readPersistedState w) |}.
    destruct (handleReady_fresh src hints (t_client e) w Hc)
      as (_ & _ & _ & _ & Hsa' & Hls).
    split; [by rewrite <- Hkeeps; destruct res|].
    split; [apply readPersistedState_length|].
    split; [|split; [|split; [|split]]].
    + intros Hsa.
      unfold readPlayerAssignments at 1, getItem. rewrite Hsa', Hsa, Hls, Hsa.
      rewrite lookup_insert_ne by apply stateKey_not_assignments.
      rewrite lookup_insert_eq. cbn [readPlayerAssignments].
      rewrite lookup_insert_eq. by rewrite Hroster.
    + intros Hsa. unfold readPlayerAssignments, getItem. by rewrite Hsa', Hsa.
    + rewrite Hposted. apply in_or_app. right. left.
      by rewrite Hroster.
    + by rewrite Hposted, gameInfoReplies_app, H0.
    + cbn [gi_player gi_players]. intros Hin.
      destruct (find_by_id _ _ Hin) as (p & Hf & Hid).
      unfold readyPlayer in Hp. rewrite Hroster in Hp, Hf, Hin.
      cbn [fst snd] in Hp, Hf. rewrite Hf in Hp. congruence.
  - intros host selfWindow name available sa sb sc ha hb hc ea eb ec
      Ha Hb Hc Hab Hac Hbc.
    set (w0 := (newHost host true selfWindow name available ∅).1).
    cbn [run step].
    change (handleIncomingMessage (readyMessage sa ha) ea w0)
      with (handleReady sa ha (t_client ea) w0).
    destruct available.
    + assert (readPlayerAssignments w0 = ∅) as A0 by reflexivity.
      pose proof (handshake_on_two w0 sa ha (t_client ea) eq_refl eq_refl eq_refl
                    Ha (lookup_empty _) (not_elem_of_empty _)) as S1.
      destruct (handleReady sa ha (t_client ea) w0) as [w1 p1].
      cbn [fst snd] in S1. rewrite A0 in S1.
      destruct S1 as (Hsa1 & Hm1 & Hids1 & A1 & Hh1 & ra & ga & R1 & I1).
      change (handleIncomingMessage (readyMessage sb hb) eb w1)
        with (handleReady sb hb (t_client eb) w1).
      assert (readPlayerAssignments w1 !! clientId hb = None) as Nb.
      { rewrite A1. by rewrite lookup_insert_ne, lookup_empty. }
      assert (clientId hb ∉ handledReadyClients w1) as Fb.
      { rewrite Hh1. apply not_elem_of_union.
        split; [by apply not_elem_of_singleton, not_eq_sym|apply not_elem_of_empty]. }
      pose proof (handshake_on_two w1 sb hb (t_client eb) Hsa1 Hm1 Hids1 Hb Nb Fb) as S2.
      destruct (handleReady sb hb (t_client eb) w1) as [w2 p2].
      cbn [fst snd] in S2.
      destruct S2 as (Hsa2 & Hm2 & Hids2 & A2 & Hh2 & rb & gb & R2 & I2).
      change (handleIncomingMessage (readyMessage sc hc) ec w2)
        with (handleReady sc hc (t_client ec) w2).
      assert (readPlayerAssignments w2 !! clientId hc = None) as Nc.
      { rewrite A2, A1. by rewrite !lookup_insert_ne, lookup_empty. }
      assert (clientId hc ∉ handledReadyClients w2) as Fc.
      { rewrite Hh2, Hh1. rewrite !not_elem_of_union.
        split; [by apply not_elem_of_singleton, not_eq_sym|].
        split; [by apply not_elem_of_singleton, not_eq_sym|apply not_elem_of_empty]. }
      pose proof (handshake_on_two w2 sc hc (t_client ec) Hsa2 Hm2 Hids2 Hc Nc Fc) as S3.
      destruct (handleReady sc hc (t_client ec) w2) as [w3 p3].
      cbn [fst snd] in S3.
      destruct S3 as (_ & _ & _ & _ & _ & rc & gc & R3 & I3).
      exists ra, rb, rc, ga, gb, gc. cbn [snd].
      rewrite !gameInfoReplies_app, R1, R2, R3. split; [reflexivity|].
      assert ("1" ∈ (map_img (readPlayerAssignments w1) : gset string)) as M11.
      { rewrite A1. apply elem_of_map_img. exists (clientId ha).
        by rewrite lookup_insert_eq. }
      assert ("2" ∉ (map_img (readPlayerAssignments w1) : gset string)) as M12.
      { rewrite A1. intros (k & Hk)%elem_of_map_img.
        apply lookup_insert_Some in Hk as [[_ Hk]|[_ Hk]]; [|by rewrite lookup_empty in Hk].
        revert Hk. by rewrite nextOfTwo_empty. }
      assert (nextOfTwo (readPlayerAssignments w1) = "2") as N1.
      { unfold nextOfTwo. by rewrite bool_decide_eq_true_2, bool_decide_eq_false_2. }
      assert (nextOfTwo (readPlayerAssignments w2) = "1") as N2.
      { unfold nextOfTwo. rewrite bool_decide_eq_true_2, bool_decide_eq_true_2; [done| |].
        - rewrite A2, N1. apply elem_of_map_img. exists (clientId hb).
          by rewrite lookup_insert_eq.
        - rewrite A2, A1, nextOfTwo_empty. apply elem_of_map_img. exists (clientId ha).
          rewrite lookup_insert_ne by done. by rewrite lookup_insert_eq. }
      rewrite I1, I2, I3, nextOfTwo_empty, N1, N2. done.
    + pose proof (handshake_without_storage w0 sa ha (t_client ea) eq_refl eq_refl
                    Ha (not_elem_of_empty _)) as S1.
      destruct (handleReady sa ha (t_client ea) w0) as [w1 p1].
      cbn [fst snd] in S1.
      destruct S1 as (Hsa1 & Hm1 & Hh1 & ra & ga & R1 & I1).
      change (handleIncomingMessage (readyMessage sb hb) eb w1)
        with (handleReady sb hb (t_client eb) w1).
      assert (clientId hb ∉ handledReadyClients w1) as Fb.
      { rewrite Hh1. apply not_elem_of_union.
        split; [by apply not_elem_of_singleton, not_eq_sym|apply not_elem_of_empty]. }
      pose proof (handshake_without_storage w1 sb hb (t_client eb) Hsa1 Hm1 Hb Fb) as S2.
      destruct (handleReady sb hb (t_client eb) w1) as [w2 p2].
      cbn [fst snd] in S2.
      destruct S2 as (Hsa2 & Hm2 & Hh2 & rb & gb & R2 & I2).
      change (handleIncomingMessage (readyMessage sc hc) ec w2)
        with (handleReady sc hc (t_client ec) w2).
      assert (clientId hc ∉ handledReadyClients w2) as Fc.
      { rewrite Hh2, Hh1. rewrite !not_elem_of_union.
        split; [by apply not_elem_of_singleton, not_eq_sym|].
        split; [by apply not_elem_of_singleton, not_eq_sym|apply not_elem_of_empty]. }
      pose proof (handshake_without_storage w2 sc hc (t_client ec) Hsa2 Hm2 Hc Fc) as S3.
      destruct (handleReady sc hc (t_client ec) w2) as [w3 p3].
      cbn [fst snd] in S3.
      destruct S3 as (_ & _ & _ & rc & gc & R3 & I3).
      exists ra, rb, rc, ga, gb, gc. cbn [snd].
      rewrite !gameInfoReplies_app, R1, R2, R3. by split.
Qed.

Lemma handshake_resolves_by_precedence_witness :
  Resolves true [ {| p_id := "1"; p_name := VStr "Player 1"; p_imageUrl := None |} ]
    {[ "client-0" := "1" ]} Samples.hintsA "2"
    [ {| p_id := "1"; p_name := VStr "Player 1"; p_imageUrl := None |};
      {| p_id := "2"; p_name := VStr "Player 2"; p_imageUrl := None |} ]
  ∧ ∃ ra rb rc ga gb gc,
      gameInfoReplies
        (run [OpMessage (readyMessage (Some 1) Samples.hintsA) Samples.env1;
              OpMessage (readyMessage (Some 2) Samples.hintsB) Samples.env2;
              OpMessage (readyMessage (Some 3) Samples.hintsC) Samples.env1]
           (newHost "h0stid42" true 0 "bizarre ball toss" true ∅).1).2
      = [(ra, ga); (rb, gb); (rc, gc)]
      ∧ p_id (gi_player ga) = "1"
      ∧ p_id (gi_player gb) = "2"
      ∧ p_id (gi_player gc) = "1".
Proof.
  destruct handshake_resolves_by_precedence as (Hchain & _ & H).
  split.
  - apply Hchain. by vm_compute.
  - apply (H "h0stid42" 0 "bizarre ball toss" true (Some 1) (Some 2) (Some 3)
             Samples.hintsA Samples.hintsB Samples.hintsC
             Samples.env1 Samples.env2 Samples.env1);
      first [reflexivity | vm_compute; discriminate].
Defined.

End Scenario.

(** ** Client SDK facade *)

Section FacadeProperties.

Import Facade.


Lemma sendMessage_fields type data f :
  isClient (sendMessage type data f) = isClient f
  ∧ target (sendMessage type data f) = target f
  ∧ readyPromise (sendMessage type data f) = readyPromise f
  ∧ readySent (sendMessage type data f) = readySent f
  ∧ promises (sendMessage type data f) = promises f.
Proof.
  unfold sendMessage.
  destruct f as [c t ? ? ? ? ? ? ? ?]; destruct c, t; repeat split.
Qed.













End FacadeProperties.

(** * Instance hints *)

Section InstanceProperties.

Import Host Instance.

Lemma getClientInstanceId_again ctx t t' :
  getClientInstanceId (getClientInstanceId ctx t).1 t'
  = getClientInstanceId ctx t.
Proof.
  unfold getClientInstanceId.
  destruct (devClientId ctx) as [id|] eqn:E; simpl; by rewrite ?E.
Qed.

Lemma getClientInstanceId_fields ctx t :
  let ctx' := (getClientInstanceId ctx t).1 in
  devInstancePlayerId ctx' = devInstancePlayerId ctx
  ∧ devInstancePlayerName ctx' = devInstancePlayerName ctx
  ∧ devPlayerId ctx' = devPlayerId ctx
  ∧ devPlayerName ctx' = devPlayerName ctx
  ∧ frameDataset ctx' = frameDataset ctx
  ∧ windowName ctx' = windowName ctx
  ∧ search ctx' = search ctx.
Proof.
  unfold getClientInstanceId. by destruct (devClientId ctx).
Qed.

Lemma readInstanceHints_window ctx t :
  (readInstanceHints ctx t).1 = (getClientInstanceId ctx t).1
  ∧ clientId (readInstanceHints ctx t).2 = (getClientInstanceId ctx t).2.
Proof.
  unfold readInstanceHints. by destruct (getClientInstanceId ctx t).
Qed.

Lemma readInstanceHints_again ctx t t' :
  readInstanceHints (readInstanceHints ctx t).1 t' = readInstanceHints ctx t.
Proof.
  destruct (readInstanceHints_window ctx t) as [Hw _]. rewrite Hw.
  pose proof (getClientInstanceId_again ctx t t') as Hagain.
  destruct (getClientInstanceId_fields ctx t) as (H1 & H2 & H3 & H4 & H5 & H6 & H7).
  unfold readInstanceHints. rewrite Hagain.
  cbv zeta in H1, H2, H3, H4, H5, H6, H7.
  rewrite H1, H2, H3, H4, H5, H6, H7.
  by destruct (getClientInstanceId ctx t).
Qed.

(** X1. Reading the hints of a window a second time, at whatever later
    clock reading and random draw, gives the same hints, the same client
    id among them, and leaves the window as the first reading left it.
    A window that had no client id has one afterwards. *)
Theorem readInstanceHints_stable ctx t t' :
  readInstanceHints (readInstanceHints ctx t).1 t' = readInstanceHints ctx t
  ∧ devClientId (readInstanceHints ctx t).1
    = Some (clientId (readInstanceHints ctx t).2).
Proof.
  split; [apply readInstanceHints_again|].
  destruct (readInstanceHints_window ctx t) as [-> ->].
  unfold getClientInstanceId. by destruct (devClientId ctx) eqn:E.
Qed.

(** X2. A non-empty [player] parameter in the URL decides the player id
    hint, whatever the globals, the frame's data attributes and the
    window name say; so does [instance] when [player] is missing or
    empty. The hint is the parameter trimmed: when that is not empty the
    handshake resolves to it, and when the parameter is all white space
    the handshake resolves as for a window without any hint. *)
Theorem url_parameter_overrides ctx t p :
  orStr (paramsGet "player" (search ctx)) (paramsGet "instance" (search ctx))
  = Some p →
  p ≠ "" →
  let hints := (readInstanceHints ctx t).2 in
  playerId hints = Some (trim p)
  ∧ ∀ multiplayer ps assignments,
      resolvePlayerId multiplayer ps assignments hints
      = if String.eqb (trim p) "" then
          resolvePlayerId multiplayer ps assignments
            {| clientId := clientId hints; playerId := None;
               playerName := playerName hints |}
        else (trim p, ps).
Proof.
  intros Hp Hne hints.
  assert (Hid : playerId hints = Some (trim p)).
  { subst hints. unfold readInstanceHints.
    destruct (getClientInstanceId ctx t) as [ctx' client]. cbn [snd playerId].
    rewrite Hp. unfold truthyStr at 1.
    destruct (String.eqb p "") eqn:E; [by apply String.eqb_eq in E|done]. }
  split; [exact Hid|].
  intros multiplayer ps assignments. unfold resolvePlayerId.
  rewrite Hid. cbn [playerId clientId truthyStr].
  by destruct (String.eqb (trim p) "").
Qed.

Lemma url_parameter_overrides_witness :
  playerId (readInstanceHints Examples.frameOfTwo Samples.tick1).2 = Some "2"
  ∧ (resolvePlayerId true DEFAULT_PLAYERS ∅
       (readInstanceHints Examples.frameOfTwo Samples.tick1).2).1 = "2".
Proof.
  destruct (url_parameter_overrides Examples.frameOfTwo Samples.tick1 " 2 ")
    as [Hid Hres]; [reflexivity|done|].
  split; [exact Hid|]. by rewrite Hres.
Defined.

End InstanceProperties.

Section WindowName.

Import Host Instance.

Lemma takeWord_word s :
  forallb isWordChar (list_ascii_of_string (takeWord s)) = true.
Proof.
  induction s as [|c s IH]; [done|]. simpl.
  destruct (isWordChar c) eqn:E; [|done]. simpl. by rewrite E, IH.
Qed.

Lemma takeWord_app word rest :
  forallb isWordChar (list_ascii_of_string word) = true →
  match rest with String c _ => isWordChar c = false | EmptyString => True end →
  takeWord (word +:+ rest) = word.
Proof.
  intros Hword Hrest. induction word as [|c word IH]; simpl in *.
  - destruct rest as [|c rest]; [done|]. simpl. by rewrite Hrest.
  - apply andb_prop in Hword as [Hc Hword]. rewrite Hc. f_equal. by apply IH.
Qed.

Lemma wordAfterEquals_word s word :
  wordAfterEquals s = Some word →
  word ≠ "" ∧ forallb isWordChar (list_ascii_of_string word) = true.
Proof.
  unfold wordAfterEquals. destruct s as [|c s]; [done|].
  destruct (Ascii.eqb c "="); [|done].
  pose proof (takeWord_word s) as Hw.
  destruct (takeWord s) as [|c' s'] eqn:E; [done|].
  intros [= <-]. by split.
Qed.

Lemma matchHere_word s word :
  matchHere s = Some word →
  word ≠ "" ∧ forallb isWordChar (list_ascii_of_string word) = true.
Proof.
  unfold matchHere. destruct (afterLiteral "player" s) as [r|]; [|done].
  destruct (afterLiteral "id" r) as [r'|].
  - destruct (wordAfterEquals r') as [word'|] eqn:E.
    + intros [= <-]. by apply wordAfterEquals_word in E.
    + apply wordAfterEquals_word.
  - apply wordAfterEquals_word.
Qed.

Lemma matchPlayerName_word name word :
  matchPlayerName name = Some word →
  word ≠ "" ∧ forallb isWordChar (list_ascii_of_string word) = true.
Proof.
  induction name as [|c name IH]; simpl.
  - done.
  - destruct (matchHere (String c name)) as [word'|] eqn:E.
    + intros [= <-]. by apply matchHere_word in E.
    + exact IH.
Qed.

Lemma wordAfterEquals_app word rest :
  word ≠ "" →
  forallb isWordChar (list_ascii_of_string word) = true →
  match rest with String c _ => isWordChar c = false | EmptyString => True end →
  wordAfterEquals ("=" +:+ word +:+ rest) = Some word.
Proof.
  intros Hne Hword Hrest.
  change ("=" +:+ word +:+ rest) with (String "=" (word +:+ rest)).
  unfold wordAfterEquals. change (Ascii.eqb "=" "=") with true. cbv beta iota.
  rewrite (takeWord_app word rest Hword Hrest). by destruct word.
Qed.

Lemma matchPlayerName_here name word :
  matchHere name = Some word → matchPlayerName name = Some word.
Proof. intros H. destruct name; [done|]. cbn [matchPlayerName]. by rewrite H. Qed.

(** X3. The id taken from a window name is never empty and is made of
    word characters only (letters, digits, underscore). A name that
    starts with [player=] or [playerId=], in whatever letter case is
    shown here, followed by such a word, gives exactly that word: the
    word ends at the first character that is not a word character. *)
Theorem window_name_gives_a_word :
  (∀ name word,
     matchPlayerName name = Some word →
     word ≠ "" ∧ forallb isWordChar (list_ascii_of_string word) = true)
  ∧ (∀ word rest,
       word ≠ "" →
       forallb isWordChar (list_ascii_of_string word) = true →
       match rest with String c _ => isWordChar c = false | EmptyString => True end →
       matchPlayerName ("player=" +:+ word +:+ rest) = Some word
       ∧ matchPlayerName ("playerId=" +:+ word +:+ rest) = Some word
       ∧ matchPlayerName ("PLAYERID=" +:+ word +:+ rest) = Some word).
Proof.
  split; [exact matchPlayerName_word|].
  intros word rest Hne Hword Hrest.
  pose proof (wordAfterEquals_app word rest Hne Hword Hrest) as Hw.
  assert (Hnone : afterLiteral "id" ("=" +:+ word +:+ rest) = None) by reflexivity.
  split; [|split]; apply matchPlayerName_here; unfold matchHere.
  - replace (afterLiteral "player" ("player=" +:+ word +:+ rest))
      with (Some ("=" +:+ word +:+ rest)) by reflexivity.
    by rewrite Hnone, Hw.
  - replace (afterLiteral "player" ("playerId=" +:+ word +:+ rest))
      with (Some ("Id=" +:+ word +:+ rest)) by reflexivity.
    replace (afterLiteral "id" ("Id=" +:+ word +:+ rest))
      with (Some ("=" +:+ word +:+ rest)) by reflexivity.
    by rewrite Hw.
  - replace (afterLiteral "player" ("PLAYERID=" +:+ word +:+ rest))
      with (Some ("ID=" +:+ word +:+ rest)) by reflexivity.
    replace (afterLiteral "id" ("ID=" +:+ word +:+ rest))
      with (Some ("=" +:+ word +:+ rest)) by reflexivity.
    by rewrite Hw.
Qed.

Lemma window_name_gives_a_word_witness :
  matchPlayerName "player=7_b!" = Some "7_b"
  ∧ matchPlayerName "PLAYERID=7_b!" = Some "7_b".
Proof.
  destruct window_name_gives_a_word as [_ H].
  destruct (H "7_b" "!") as (H1 & _ & H3); [done|reflexivity|reflexivity|].
  split; [exact H1|exact H3].
Defined.

(** X4. Without a [player] or [instance] parameter in the URL, a global
    hint that is not empty once trimmed is the player id hint: the
    frame's data attributes and the window name are not consulted.
    [__remixDevPlayerId], when it is a string, stands in front of
    [__remixDevInstance.playerId]. Without any such hint and without a
    frame element, the hint is what the window name gives. *)
Theorem globals_before_name ctx t :
  truthyStr (orStr (paramsGet "player" (search ctx))
                   (paramsGet "instance" (search ctx))) = None →
  let hints := (readInstanceHints ctx t).2 in
  let global := match devPlayerId ctx with
                | Some s => Some (trim s)
                | None => trim <$> devInstancePlayerId ctx
                end in
  (∀ id, truthyStr global = Some id → playerId hints = Some id)
  ∧ (global = None → frameDataset ctx = None →
     playerId hints = matchPlayerName (windowName ctx)).
Proof.
  intros Hurl hints global. subst hints. unfold readInstanceHints.
  destruct (getClientInstanceId ctx t) as [ctx' client]. cbn [snd playerId].
  rewrite Hurl. fold global. split.
  - intros id Hid.
    pose proof (truthyStr_Some _ _ Hid) as [Hg _].
    destruct (frameDataset ctx) as [d|].
    + rewrite Hid.
      destruct (truthyStr (orStr (remixPlayerId d) _)); rewrite Hid;
        by destruct (truthyStr (Some (windowName ctx))).
    + rewrite Hid. by destruct (truthyStr (Some (windowName ctx))).
  - intros -> ->. cbn [truthyStr].
    destruct (String.eqb (windowName ctx) "") eqn:E.
    + apply String.eqb_eq in E. by rewrite E.
    + by destruct (matchPlayerName (windowName ctx)).
Qed.

Lemma globals_before_name_witness :
  playerId (readInstanceHints Examples.globalFrame Samples.tick1).2 = Some "4"
  ∧ playerId (readInstanceHints Examples.namedFrame Samples.tick1).2 = Some "7_b".
Proof.
  split.
  - by apply (globals_before_name Examples.globalFrame Samples.tick1).
  - destruct (globals_before_name Examples.namedFrame Samples.tick1) as [_ H];
      [reflexivity|]. by rewrite H.
Defined.

End WindowName.

Section SameWindow.

Import Host Instance.

Lemma handleReady_marks src hints t w :
  clientId hints ∈ handledReadyClients (handleReady src hints t w).1.
Proof.
  destruct (decide (clientId hints ∈ handledReadyClients w)) as [Hin|Hout].
  - by rewrite handleReady_handled.
  - destruct (handleReady_fresh src hints t w Hout) as (_ & -> & _).
    apply elem_of_union_l. by apply elem_of_singleton.
Qed.

(** X5. Two handshakes from the same window: the second is ignored.
    The client id is kept on the window by the first reading of the
    hints, so the second reading finds it, and the host has it among the
    handled clients; the host and the window stay as they were and
    nothing is posted. *)
Theorem same_window_ready_twice ctx src tHints t tHints' t' w :
  let first := handleReadyFrom ctx src tHints t w in
  handleReadyFrom first.1 src tHints' t' first.2.1 = (first.1, (first.2.1, [])).
Proof.
  unfold handleReadyFrom.
  pose proof (readInstanceHints_again ctx tHints tHints') as Hstable.
  destruct (readInstanceHints ctx tHints) as [ctx' hints]. cbn [fst snd] in *.
  rewrite Hstable. f_equal.
  apply handleReady_handled, handleReady_marks.
Qed.

End SameWindow.

(** * Registration of client windows *)

Section Registration.

Import Host HostMore.

Lemma mintClientId_nonempty t : mintClientId t ≠ "".
Proof. done. Qed.

Lemma registerClientWindow_maps win explicit t w :
  let r := registerClientWindow win explicit t w in
  r.1.2 ≠ ""
  ∧ clientWindows r.1.1 !! r.1.2 = Some win
  ∧ windowToClientId r.1.1 !! win = Some r.1.2.
Proof.
  unfold registerClientWindow.
  destruct (truthyStr (windowToClientId w !! win)) as [existing|] eqn:E.
  - apply truthyStr_Some in E as [E Hne]. cbn [fst snd]. world_fields.
    by rewrite lookup_insert_eq.
  - cbn [fst snd]. world_fields. rewrite !lookup_insert_eq.
    split; [|done].
    destruct (truthyStr explicit) as [e|]; [|apply mintClientId_nonempty].
    destruct (0 <? String.length (trim e)) eqn:L; [|apply mintClientId_nonempty].
    intros Hz. rewrite Hz in L. done.
Qed.

Lemma registerClientWindow_known win explicit t w c :
  windowToClientId w !! win = Some c →
  c ≠ "" →
  clientWindows w !! c = Some win →
  registerClientWindow win explicit t w = (w, c, []).
Proof.
  intros Hwc Hne Hcw. unfold registerClientWindow. rewrite Hwc.
  cbn [truthyStr]. destruct (String.eqb c "") eqn:E.
  { by apply String.eqb_eq in E. }
  rewrite (insert_id _ _ _ Hcw). by destruct w.
Qed.

(** X6. Registering a window that is already registered changes
    nothing: it returns the id the window got the first time, whatever
    id is offered and whatever the clock and the random draw are, posts
    nothing, and leaves the host as the first registration left it. The
    id is never empty. *)
Theorem registerClientWindow_again win explicit t explicit' t' w :
  let first := registerClientWindow win explicit t w in
  registerClientWindow win explicit' t' first.1.1 = (first.1.1, first.1.2, [])
  ∧ first.1.2 ≠ "".
Proof.
  intros first.
  destruct (registerClientWindow_maps win explicit t w) as (Hne & Hcw & Hwc).
  fold first in Hne, Hcw, Hwc. split; [|exact Hne].
  by apply registerClientWindow_known.
Qed.

Lemma registered_ext w w' :
  clientWindows w' = clientWindows w →
  windowToClientId w' = windowToClientId w →
  registered w → registered w'.
Proof. unfold registered. by intros -> ->. Qed.

Lemma registered_more c win w :
  registered w →
  registered (setClients (<[c := win]> (clientWindows w)) (windowToClientId w) w).
Proof.
  unfold registered. world_fields. intros H win' c' Hl.
  destruct (H win' c' Hl) as [Hne Hsome]. split; [done|].
  destruct (decide (c = c')) as [->|Hd].
  - rewrite lookup_insert_eq. by eexists.
  - by rewrite lookup_insert_ne.
Qed.

Lemma registerClientWindow_registered win explicit t w :
  registered w → registered (registerClientWindow win explicit t w).1.1.
Proof.
  intros H.
  destruct (registerClientWindow_maps win explicit t w) as (Hne & Hcw & Hwc).
  revert Hne Hcw Hwc. unfold registerClientWindow.
  destruct (truthyStr (windowToClientId w !! win)) as [existing|] eqn:E.
  - intros _ _ _. cbn [fst]. by apply registered_more.
  - cbn [fst snd]. intros Hne _ _.
    set (c := match truthyStr explicit with Some e => _ | None => _ end) in *.
    unfold registered. world_fields. intros win' c' Hl.
    destruct (decide (win = win')) as [<-|Hd].
    + rewrite lookup_insert_eq in Hl. injection Hl as <-.
      split; [done|]. rewrite lookup_insert_eq. by eexists.
    + rewrite lookup_insert_ne in Hl by done.
      destruct (H win' c' Hl) as [Hne' Hsome]. split; [done|].
      destruct (decide (c = c')) as [->|Hd'].
      * rewrite lookup_insert_eq. by eexists.
      * by rewrite lookup_insert_ne.
Qed.

Lemma handleReady_registered src hints t w :
  registered w → registered (handleReady src hints t w).1.
Proof.
  intros H. unfold handleReady.
  destruct (bool_decide (clientId hints ∈ handledReadyClients w)); [done|].
  destruct (resolvePlayerId _ _ _ _) as [rid ps1].
  unfold persistState, writePlayerAssignments. rewrite !setItem_eq.
  world_fields.
  match goal with |- context [registerClientWindow _ _ _ ?x] => set (w3 := x) end.
  assert (H3 : registered w3) by (by apply (registered_ext w)).
  set (found := match find _ _ with Some p => Some p | None => _ end).
  destruct src as [win|].
  - pose proof (registerClientWindow_registered win (Some (clientId hints)) t w3 H3) as R.
    destruct (registerClientWindow win (Some (clientId hints)) t w3) as [[w4 rid'] msgs].
    by destruct found.
  - assert (R : registered
                  match clientWindows w3 !! clientId hints with
                  | Some _ => w3
                  | None => setClients (<[clientId hints := self w3]> (clientWindows w3))
                              (windowToClientId w3) w3
                  end).
    { destruct (clientWindows w3 !! clientId hints); [done|].
      by apply registered_more. }
    by destruct found.
Qed.

Lemma step_registered o w : registered w → registered (step o w).1.
Proof.
  intros H. destruct o as [m e| |win explicit t|key newValue| | |isMuted]; cbn [step].
  - unfold handleIncomingMessage.
    destruct (m_fromRemixDevHost m); [done|].
    destruct (negb (String.eqb (m_type m) "game_event")); [done|].
    destruct (String.eqb (m_event_type m) "ready"); [by apply handleReady_registered|].
    destruct (String.eqb (m_event_type m) "save_game_state").
    { destruct (handleSaveGameState_frame (m_event_data m) (t_envelope e) (t_stamp e) w)
        as (_ & F1 & F2 & _).
      destruct (handleSaveGameState _ _ _ w) as [w' posted]. cbn [fst] in *.
      by apply (registered_ext w). }
    destruct (String.eqb (m_event_type m) "multiplayer_save_game_state").
    { destruct (handleSaveGameState_frame (m_event_data m) (t_envelope e) (t_stamp e) w)
        as (_ & F1 & F2 & _).
      destruct (handleSaveGameState _ _ _ w) as [w' posted]. cbn [fst] in *.
      by apply (registered_ext w). }
    destruct (String.eqb (m_event_type m) "refute_game_state"); [done|].
    destruct (String.eqb (m_event_type m) "multiplayer_game_over").
    { destruct (handleMultiplayerGameOver_frame (m_event_data m) (t_stamp e) w)
        as (_ & F1 & F2 & _).
      by apply (registered_ext w). }
    by destruct (_ || _)%bool.
  - by apply (registered_ext w).
  - pose proof (registerClientWindow_registered win explicit t w H) as R.
    by destruct (registerClientWindow win explicit t w) as [[w' c] posted].
  - done.
  - destruct (resetState_fields w) as (_ & _ & F1 & F2 & _).
    unfold registered. rewrite F2. apply map_Forall_empty.
  - done.
  - done.
Qed.

(** X7. Whatever messages, registrations, storage events and dashboard
    commands a host goes through, every window in its table keeps a
    client id that is not empty and that the host can address; a host
    just constructed has that too. *)
Theorem run_registered ops w :
  registered w → registered (run ops w).1.
Proof.
  revert w. induction ops as [|o ops IH]; intros w H; [done|].
  cbn [run]. pose proof (step_registered o w H) as H1.
  destruct (step o w) as [w1 posted]. specialize (IH w1 H1).
  by destruct (run ops w1) as [w2 posted'].
Qed.

Lemma run_registered_witness :
  registered
    (run [OpMessage (readyMessage (Some 1) Samples.hintsA) Samples.env1;
          OpRegister 2 (Some "  ") Samples.tick2;
          OpMessage (gameOverMessage VNull) Samples.env2]
       (Samples.freshHost true)).1.
Proof.
  apply run_registered. refine (bool_decide_unpack _ _). vm_compute. exact I.
Defined.

End Registration.

(** * The reply of a handshake *)

Section Replies.

Import Host HostMore.

(** X8. A first handshake from a client in window [win] schedules one
    [game_info] reply. When the timer fires the reply is posted to that
    window and to the dashboard. When the host is reset before the timer
    fires, the reply reaches the dashboard only: the client is no longer
    known and gets nothing. *)
Theorem game_info_reaches_source win hints t w :
  clientId hints ∉ handledReadyClients w →
  let r := handleReady (Some win) hints t w in
  ∃ rid g,
    gameInfoReplies r.2 = [(rid, g)]
    ∧ deliverGameInfo rid g r.1
      = [ToClient win "game_info" (PGameInfo g); DevEvent "game_info" (PGameInfo g)]
    ∧ deliverGameInfo rid g (resetState r.1).1
      = [DevEvent "game_info" (PGameInfo g)].
Proof.
  intros H. destruct (readyPlayer_some w hints) as [player Hp]. revert Hp.
  unfold handleReady, readyPlayer. rewrite bool_decide_eq_false_2 by done.
  unfold readyRoster.
  change (readPersistedState (setHandled _ w)) with (readPersistedState w).
  change (readPlayerAssignments (setHandled _ w)) with (readPlayerAssignments w).
  destruct (resolvePlayerId _ _ _ _) as [resolved ps1] eqn:E. cbn [fst snd].
  intros Hp.
  match goal with |- context [registerClientWindow win ?e t ?x] =>
    pose proof (registerClientWindow_frame win e t x) as F;
    pose proof (registerClientWindow_maps win e t x) as M;
    destruct (registerClientWindow win e t x) as [[w4 rid] msgs]
  end.
  cbn [fst snd] in F, M. destruct F as (_ & _ & _ & _ & _ & _ & F).
  destruct M as (Hne & Hcw & _).
  rewrite Hp. cbn [fst snd].
  eexists rid, _. split; [|split].
  - rewrite gameInfoReplies_app, F. reflexivity.
  - unfold deliverGameInfo, sendGameEvent. cbn [truthyStr].
    destruct (String.eqb rid "") eqn:Er; [by apply String.eqb_eq in Er|].
    by rewrite Hcw.
  - destruct (resetState_fields w4) as (_ & _ & Hc & _).
    unfold deliverGameInfo, sendGameEvent. cbn [truthyStr].
    destruct (String.eqb rid "") eqn:Er; [by apply String.eqb_eq in Er|].
    cbv zeta in Hc. by rewrite Hc, lookup_empty.
Qed.

Lemma game_info_reaches_source_witness :
  let r := handleReady (Some 1) Samples.hintsA Samples.tick1 (Samples.freshHost true) in
  ∃ rid g,
    gameInfoReplies r.2 = [(rid, g)]
    ∧ deliverGameInfo rid g r.1
      = [ToClient 1 "game_info" (PGameInfo g); DevEvent "game_info" (PGameInfo g)]
    ∧ deliverGameInfo rid g (resetState r.1).1
      = [DevEvent "game_info" (PGameInfo g)].
Proof.
  apply (game_info_reaches_source 1 Samples.hintsA Samples.tick1 (Samples.freshHost true)).
  intros Hin. apply (bool_decide_pack _) in Hin. vm_compute in Hin. exact Hin.
Defined.

Lemma readPersistedState_of_json w j :
  storageAvailable w = true →
  persistedJson w = Some j →
  gameState (readPersistedState w) = pj_gameState j.
Proof.
  intros Ha. unfold persistedJson, readPersistedState, getItem. rewrite Ha.
  destruct (localStorage w !! getGameStateKey (gameName w)) as [[ | | | ]|];
    try done.
  by intros [= ->].
Qed.

Lemma readPersistedState_unavailable w :
  storageAvailable w = false → readPersistedState w = createDefaultState.
Proof. intros Ha. unfold readPersistedState, getItem. by rewrite Ha. Qed.

(** X9. A save followed by the first handshake of a client. With working
    storage the reply carries the envelope of the save as [JSON] keeps it
    (properties holding [undefined] dropped), under the id the save gave
    it. Without working storage the handshake reads defaults, and the
    reply carries no game state although the host had one in memory. *)
Theorem save_then_handshake data t stamp w src hints t' :
  isObjectLike data = true →
  rosterReadable data = true →
  clientId hints ∉ handledReadyClients w →
  let saved := (handleSaveGameState data t stamp w).1 in
  gameState (state saved) = makeEnvelope data t
  ∧ ∃ rid g,
      gameInfoReplies (handleReady src hints t' saved).2 = [(rid, g)]
      ∧ gi_initialGameState g
        = if storageAvailable w then jsonifyEnvelope <$> makeEnvelope data t
          else None.
Proof.
  intros Hobj Hread Hfresh saved.
  destruct (handleSaveGameState_frame data t stamp w) as (Fh & _ & _ & _ & Fn & Fa).
  destruct (handleSaveGameState_result data t stamp w Hobj) as (Hg & Hr & _).
  cbv zeta in Fh, Fn, Fa, Hg, Hr. fold saved in Fh, Fn, Fa, Hg, Hr.
  destruct (Hr Hread) as (_ & _ & Hp). split; [exact Hg|].
  assert (Hfresh' : clientId hints ∉ handledReadyClients saved) by by rewrite Fh.
  destruct (handleReady_fresh_replies src hints t' saved Hfresh')
    as (rid & player & _ & Hreply).
  eexists rid, _. split; [exact Hreply|]. cbn [gi_initialGameState].
  destruct (storageAvailable w) eqn:Ea.
  - rewrite (readPersistedState_of_json saved _ ltac:(by rewrite Fa) (Hp eq_refl)).
    cbn [stringifyState pj_gameState]. by rewrite Hg.
  - by rewrite (readPersistedState_unavailable saved) by by rewrite Fa.
Qed.

Lemma save_then_handshake_witness :
  let saved := (handleSaveGameState Samples.payload Samples.tick1 5
                  (Samples.freshHost true)).1 in
  ∃ rid g,
    gameInfoReplies (handleReady (Some 1) Samples.hintsA Samples.tick2 saved).2
    = [(rid, g)]
    ∧ gi_initialGameState g
      = jsonifyEnvelope <$> makeEnvelope Samples.payload Samples.tick1.
Proof.
  destruct (save_then_handshake Samples.payload Samples.tick1 5
              (Samples.freshHost true) (Some 1) Samples.hintsA Samples.tick2)
    as [_ H]; [reflexivity|reflexivity| |exact H].
  intros Hin. apply (bool_decide_pack _) in Hin. vm_compute in Hin. exact Hin.
Defined.

End Replies.

(** * Saves, resets and the host slot *)

Section SavesAndResets.

Import Host HostMore.

Lemma rosterFrom_null i roster :
  (VNull ∈ roster ∨ VUndefined ∈ roster) → rosterFrom i roster = None.
Proof.
  revert i. induction roster as [|p roster IH]; intros i H.
  - destruct H as [H|H]; by apply elem_of_nil in H.
  - cbn [rosterFrom].
    destruct (rosterEntry i p) as [q|] eqn:E; [|done].
    rewrite IH; [done|].
    destruct H as [H|H]; apply elem_of_cons in H as [<-|H]; try done;
      [by left|by right].
Qed.

(** X10. The turn a save leaves in the host's state, for a save whose
    roster can be read. A numeric [currentPlayer] in the saved state
    gives its decimal text, even when [turn] is there too; otherwise a
    textual [turn] gives player 1 for [w] and player 2 for any other
    text; otherwise, and whenever the saved state is falsy, the turn
    stays as it was. *)
Theorem save_sets_turn data t stamp w :
  isObjectLike data = true →
  rosterReadable data = true →
  let typed := prop "gameState" data in
  let turn := currentPlayerId (state (handleSaveGameState data t stamp w).1) in
  (∀ n, truthy typed = true → prop "currentPlayer" typed = VNum n →
        turn = Some (decZ n))
  ∧ (∀ s, truthy typed = true →
          (∀ n, prop "currentPlayer" typed ≠ VNum n) →
          prop "turn" typed = VStr s →
          turn = Some (if String.eqb s "w" then "1" else "2"))
  ∧ ((∀ n, prop "currentPlayer" typed ≠ VNum n) →
     (∀ s, prop "turn" typed ≠ VStr s) →
     turn = currentPlayerId (state w))
  ∧ (truthy typed = false → turn = currentPlayerId (state w)).
Proof.
  intros Hobj Hread typed turn.
  assert (Hturn : turn = match payloadTurn typed with
                         | Some c => Some c
                         | None => currentPlayerId (state w)
                         end).
  { subst turn. revert Hread. unfold rosterReadable, handleSaveGameState.
    rewrite Hobj. cbn [negb]. fold typed.
    destruct (payloadRoster typed) as [roster|].
    - destruct (rosterFrom 0 roster); [|done]. intros _.
      unfold broadcastToOtherWindows, persistState. by rewrite !setItem_eq.
    - intros _. unfold broadcastToOtherWindows, persistState.
      by rewrite !setItem_eq. }
  rewrite Hturn. unfold payloadTurn. repeat split.
  - intros n -> ->. done.
  - intros s -> Hn ->.
    destruct (prop "currentPlayer" typed) as [| |b|n|s'|items|o] eqn:E; try done.
    by destruct (Hn n).
  - intros Hn Hs. destruct (truthy typed); [|done].
    destruct (prop "currentPlayer" typed) as [| |b|n|s'|items|o] eqn:E;
      try (by destruct (Hn n));
      destruct (prop "turn" typed) as [| |b'|n'|s''|items'|o'] eqn:E'; try done;
      by destruct (Hs s'').
  - by intros ->.
Qed.

Lemma save_sets_turn_witness :
  currentPlayerId
    (state (handleSaveGameState Samples.payload Samples.tick1 5
              (Samples.freshHost true)).1) = Some "2".
Proof.
  destruct (save_sets_turn Samples.payload Samples.tick1 5 (Samples.freshHost true))
    as (H & _); [reflexivity|reflexivity|].
  by apply (H 2%Z).
Defined.

(** X11. A save message whose roster of two or more players holds
    [null] or [undefined] stops at the roster mapping. The new envelope
    is in the host's state, the players and the turn stay as they were,
    and nothing is written to storage, neither the state nor the
    broadcast to other windows. No [game_state_updated] goes out, to
    clients or to the dashboard. What the host posts is what it posts
    for every save message before the save itself goes on: for a
    single-player save the [single_player_save_game_state] event for the
    dashboard, and for both kinds the broadcast for the panel, which
    carries a copy of the state under an id of its own. *)
Theorem save_with_null_player variant data e w roster :
  isObjectLike data = true →
  payloadRoster (prop "gameState" data) = Some roster →
  (VNull ∈ roster ∨ VUndefined ∈ roster) →
  let r := handleIncomingMessage (saveMessage variant data) e w in
  r.2 = (if variant then []
         else [DevEvent "single_player_save_game_state" (PValue data)])
        ++ [PanelBroadcast (if variant then "multiplayer_game_state_broadcast"
                            else "single_player_game_state_broadcast")
              (Some {| e_id := generateEnvelopeId (t_panel e);
                       e_gameState := prop "gameState" data;
                       e_alertUserIds := None |})]
  ∧ localStorage r.1 = localStorage w
  ∧ state r.1
    = {| gameState :=
           Some {| e_id := generateEnvelopeId (t_envelope e);
                   e_gameState := prop "gameState" data;
                   e_alertUserIds := match prop "alertUserIds" data with
                                     | VArr ids => Some ids
                                     | _ => None
                                     end |};
         players := players (state w);
         currentPlayerId := currentPlayerId (state w) |}
  ∧ clientWindows r.1 = clientWindows w
  ∧ handledReadyClients r.1 = handledReadyClients w.
Proof.
  intros Hobj Hroster Hnull r.
  assert (Ht : truthy (prop "gameState" data) = true).
  { revert Hroster. unfold payloadRoster.
    by destruct (truthy (prop "gameState" data)). }
  pose proof (handleIncomingMessage_save_posted variant data e w) as Hr.
  fold r in Hr. rewrite Hr. cbn [fst snd].
  unfold handleSaveGameState, panelCopy, makeEnvelope.
  rewrite Hobj, Hroster, (rosterFrom_null 0 roster Hnull), Ht.
  cbn [negb fst snd]. world_fields. by rewrite app_nil_r.
Qed.

Lemma save_with_null_player_witness :
  let data := VObj [("gameState",
                     VObj [("players", VArr [VObj [("id", VStr "a")]; VNull])])] in
  let r := handleIncomingMessage (saveMessage true data) Samples.env1
             (Samples.freshHost true) in
  length r.2 = 1 ∧ localStorage r.1 = localStorage (Samples.freshHost true).
Proof.
  intros data r.
  destruct (save_with_null_player true data Samples.env1 (Samples.freshHost true)
              [VObj [("id", VStr "a")]; VNull])
    as (H1 & H2 & _); [reflexivity|reflexivity| |].
  { left. apply elem_of_cons. right. apply elem_of_cons. by left. }
  fold r in H1, H2. split; [by rewrite H1|exact H2].
Defined.

Lemma resetState_reads w :
  let w' := (resetState w).1 in
  readPersistedState w' = createDefaultState
  ∧ readPlayerAssignments w' = ∅
  ∧ isMultiplayer w' = isMultiplayer w.
Proof.
  unfold resetState, clearPlayerAssignments, persistState.
  rewrite removeItem_eq, setItem_eq. world_fields.
  unfold readPersistedState, readPlayerAssignments, getItem. world_fields.
  destruct (storageAvailable w); [|done].
  rewrite lookup_delete_ne by apply not_eq_sym, stateKey_not_assignments.
  by rewrite lookup_insert_eq, lookup_delete_eq.
Qed.

(** X12. The first handshake after a reset, from a client without a
    player id hint: it resolves to player 1, whether or not storage
    works and whatever was assigned before the reset; the roster is
    players 1 and 2 on a multiplayer host and player 1 alone otherwise;
    and the reply carries no game state. *)
Theorem reset_then_handshake w src hints t :
  truthyStr (playerId hints) = None →
  let w' := (resetState w).1 in
  (readyRoster w' hints).1 = "1"
  ∧ p_id <$> (readyRoster w' hints).2
    = (if isMultiplayer w then ["1"; "2"] else ["1"])
  ∧ ∃ rid g,
      gameInfoReplies (handleReady src hints t w').2 = [(rid, g)]
      ∧ gi_initialGameState g = None
      ∧ p_id (gi_player g) = "1".
Proof.
  intros Hhint w'.
  destruct (resetState_reads w) as (Hstate & Hassign & Hmulti).
  destruct (resetState_fields w) as (_ & Hhandled & _).
  fold w' in Hstate, Hassign, Hmulti, Hhandled.
  assert (Hroster : ∃ a b, p_id a = "1" ∧ p_id b = "2"
                    ∧ readyRoster w' hints
                      = ("1", if isMultiplayer w then [a; b] else [a])).
  { assert (Hup : p_id <$> upsertPlayer (isMultiplayer w) "1" hints DEFAULT_PLAYERS
                  = ["1"; "2"]).
    { rewrite upsertPlayer_ids; [done|]. apply elem_of_cons. by left. }
    destruct (upsertPlayer (isMultiplayer w) "1" hints DEFAULT_PLAYERS)
      as [|a [|b [|c rest]]] eqn:Eup; try done.
    injection Hup as Ha Hb. exists a, b. split; [done|]. split; [done|].
    unfold readyRoster. rewrite Hstate, Hassign, Hmulti.
    unfold resolvePlayerId. rewrite Hhint, lookup_empty. cbn [truthyStr].
    destruct (isMultiplayer w) eqn:Em.
    - cbn [negb]. replace (find _ (players createDefaultState))
        with (Some {| p_id := "1"; p_name := VStr "Player 1"; p_imageUrl := None |})
        by (by vm_compute).
      cbn [p_id players createDefaultState]. by rewrite Eup.
    - cbn [negb players createDefaultState]. by rewrite Eup. }
  destruct Hroster as (a & b & Ha & Hb & Hroster).
  split; [by rewrite Hroster|].
  split; [rewrite Hroster; cbn [snd]; destruct (isMultiplayer w); cbn;
          by rewrite ?Ha, ?Hb|].
  assert (Hfresh : clientId hints ∉ handledReadyClients w').
  { rewrite Hhandled. apply not_elem_of_empty. }
  destruct (handleReady_fresh_replies src hints t w' Hfresh)
    as (rid & player & Hplayer & Hreply).
  eexists rid, _. split; [exact Hreply|]. cbn [gi_initialGameState gi_player].
  split; [by rewrite Hstate|].
  revert Hplayer. unfold readyPlayer. rewrite Hroster. cbn [fst snd].
  destruct (isMultiplayer w); cbn [find]; rewrite Ha; cbn; by intros [= <-].
Qed.

Lemma reset_then_handshake_witness :
  let w := (handleReady (Some 1) Samples.hintsThird Samples.tick1
              (Samples.freshHost true)).1 in
  (readyRoster (resetState w).1 Samples.hintsB).1 = "1"
  ∧ p_id <$> (readyRoster (resetState w).1 Samples.hintsB).2 = ["1"; "2"].
Proof.
  intros w.
  destruct (reset_then_handshake w (Some 2) Samples.hintsB Samples.tick2)
    as (H1 & H2 & _); [reflexivity|].
  split; [exact H1|exact H2].
Defined.

(** X13. Requests for the dev host. The first request from a window
    fills the host slot if it is empty, in multiplayer mode unless the
    payload's [multiplayer] is [false], and registers the window. A
    second request from that window, whatever mode and client id it
    carries, leaves the host as it is, mode included, and posts only the
    ready notice. A host found in the slot keeps its mode. *)
Theorem host_request_twice host selfWindow name available storage multiplayer
    win explicitClientId t slot
    host' selfWindow' name' available' storage' multiplayer' explicitClientId' t' :
  let first := hostRequest host selfWindow name available storage multiplayer
                 (Some win) explicitClientId t slot in
  hostRequest host' selfWindow' name' available' storage' multiplayer'
    (Some win) explicitClientId' t' first.1
  = (first.1, [HostReady])
  ∧ ∃ w, first.1 = Some w
         ∧ is_Some (windowToClientId w !! win)
         ∧ isMultiplayer w = match slot with
                             | Some found => isMultiplayer found
                             | None => notFalse multiplayer
                             end.
Proof.
  unfold hostRequest, ensureDevHost.
  set (w0 := match slot with
             | Some found => found
             | None => (newHost host (notFalse multiplayer) selfWindow name
                          available storage).1
             end).
  assert (Hfirst : ∃ posted,
            (let '(slot1, w, posted) :=
               match slot with
               | Some existing => (slot, existing, [])
               | None =>
                   let '(w, posted) :=
                     newHost host (notFalse multiplayer) selfWindow name
                       available storage in
                   (Some w, w, posted)
               end in
             let '(w', _, posted') :=
               registerClientWindow win explicitClientId t w in
             (Some w', (FromHost <$> posted ++ posted') ++ [HostReady]))
            = (Some (registerClientWindow win explicitClientId t w0).1.1, posted)).
  { subst w0. destruct slot as [found|]; cbn [newHost fst].
    - destruct (registerClientWindow win explicitClientId t found) as [[w' c] posted'].
      by eexists.
    - destruct (registerClientWindow win explicitClientId t _) as [[w' c] posted'].
      by eexists. }
  destruct Hfirst as [posted ->]. cbn [fst].
  destruct (registerClientWindow_maps win explicitClientId t w0) as (Hne & Hcw & Hwc).
  pose proof (registerClientWindow_known win explicitClientId' t' _ _ Hwc Hne Hcw)
    as Hagain.
  destruct (registerClientWindow_frame win explicitClientId t w0) as (_ & Hm & _).
  cbv zeta in Hagain, Hwc, Hm. split.
  - by rewrite Hagain.
  - eexists. split; [done|]. split; [by eexists|].
    rewrite Hm. subst w0. by destruct slot.
Qed.

Lemma host_request_twice_witness :
  let first := hostRequest "h0stid42" 0 "bizarre ball toss" true ∅ (VBool false)
                 (Some 1) (Some " frame-a ") Samples.tick1 None in
  (hostRequest "0therh0st" 0 "bizarre ball toss" true ∅ VUndefined
     (Some 1) None Samples.tick2 first.1).2 = [HostReady]
  ∧ ∃ w, first.1 = Some w ∧ isMultiplayer w = false.
Proof.
  intros first.
  destruct (host_request_twice "h0stid42" 0 "bizarre ball toss" true ∅ (VBool false)
              1 (Some " frame-a ") Samples.tick1 None
              "0therh0st" 0 "bizarre ball toss" true ∅ VUndefined None Samples.tick2)
    as (H1 & w & Hw & _ & Hm).
  split; [exact (f_equal snd H1)|]. by exists w.
Defined.

End SavesAndResets.

(** * The client facade: promises and listeners *)

Section FacadeMore.

Import Facade.



Lemma sendMessage_keeps type data f : promises (sendMessage type data f) = promises f.
Proof. by destruct (sendMessage_fields type data f) as (_ & _ & _ & _ & ->). Qed.




Lemma handleMessage_game_event fromHost event f :
  handleMessage (Payload fromHost "game_event" event) f
  = emit (g_type event) (g_data event) f.
Proof. unfold handleMessage. by destruct fromHost. Qed.



(** X15. A [game_info] message that arrives before the game has asked
    for the handshake settles nothing: it is passed to the [game_info]
    listeners, in the order they were added, and the promise that a
    later [ready()] returns is pending. *)
Theorem early_game_info_is_not_kept f fromHost d :
  readyPromise f = None →
  readyPromiseResolve f = None →
  let f1 := handleMessage
              (Payload fromHost "game_event" {| g_type := "game_info"; g_data := d |})
              f in
  called f1
  = called f ++ ((λ cb, (cb, d)) <$> default [] (eventListeners f !! "game_info"))
  ∧ promises f1 = promises f
  ∧ promises (ready f1).1 !! (ready f1).2 = Some None.
Proof.
  intros Hnone Hres f1.
  assert (H1 : f1 = emit "game_info" d f) by apply handleMessage_game_event.
  assert (Hcalled : called f1 = called f
                    ++ ((λ cb, (cb, d)) <$> default [] (eventListeners f !! "game_info"))
                    ∧ promises f1 = promises f ∧ readyPromise f1 = None).
  { rewrite H1. unfold emit. cbn [String.eqb Ascii.eqb Bool.eqb]. by rewrite Hres. }
  destruct Hcalled as (Hc & Hp & Hn). repeat split; try done.
  unfold ready. rewrite Hn. cbn [negb readySent].
  destruct (readySent f1); cbn [negb fst snd].
  - cbn [promises]. by rewrite lookup_app_r, Nat.sub_diag by lia.
  - rewrite sendMessage_keeps. cbn [promises].
    by rewrite lookup_app_r, Nat.sub_diag by lia.
Qed.

Lemma early_game_info_is_not_kept_witness :
  let f := on "game_info" 7 (construct (Some 0)) in
  let f1 := handleMessage
              (Payload true "game_event"
                 {| g_type := "game_info"; g_data := VStr "early" |}) f in
  called f1 = [(7, VStr "early")]
  ∧ promises (ready f1).1 !! (ready f1).2 = Some None.
Proof.
  intros f f1.
  destruct (early_game_info_is_not_kept f true (VStr "early") eq_refl eq_refl)
    as (H1 & _ & H3).
  split; [exact H1|exact H3].
Defined.

(** X16. The listeners of an event type form a set. Adding a callback
    that is already there changes nothing; removing a callback leaves
    the others; and after a callback has been added and removed it is
    not among the listeners, so that an event of that type, when it is
    passed to listeners at all, calls the others in the order in which
    they were added and does not call it. *)
Theorem listeners_form_a_set eventType cb f d :
  let known g := default [] (eventListeners g !! eventType) in
  eventListeners (on eventType cb (on eventType cb f))
  = eventListeners (on eventType cb f)
  ∧ cb ∈ known (on eventType cb f)
  ∧ known (off eventType cb f) = filter (λ c, c ≠ cb) (known f)
  ∧ (cb ∉ known (off eventType cb (on eventType cb f)))
  ∧ (eventType ≠ "game_info" →
     called (emit eventType d (off eventType cb f))
     = called f ++ ((λ c, (c, d)) <$> filter (λ c, c ≠ cb) (known f))).
Proof.
  intros known.
  assert (Hon : ∀ g, known (on eventType cb g)
                     = if bool_decide (cb ∈ known g) then known g
                       else known g ++ [cb]).
  { intros g. unfold known, on. cbn [eventListeners].
    by rewrite lookup_insert_eq. }
  assert (Hin : cb ∈ known (on eventType cb f)).
  { rewrite Hon. destruct (bool_decide (cb ∈ known f)) eqn:E.
    - by apply bool_decide_eq_true in E.
    - apply elem_of_app. right. by apply list_elem_of_singleton. }
  assert (Hoff : ∀ g, known (off eventType cb g) = filter (λ c, c ≠ cb) (known g)).
  { intros g. unfold known, off.
    destruct (eventListeners g !! eventType) as [l|] eqn:E.
    - cbn [eventListeners]. by rewrite lookup_insert_eq.
    - by rewrite E. }
  split; [|split; [exact Hin|split; [apply Hoff|split]]].
  - unfold on at 1. cbn [eventListeners]. fold (known (on eventType cb f)).
    rewrite bool_decide_eq_true_2 by exact Hin.
    apply insert_id. unfold known, on. cbn [eventListeners].
    by rewrite lookup_insert_eq.
  - rewrite Hoff. intros H. apply list_elem_of_filter in H as [H _]. done.
  - intros Hne. unfold emit.
    destruct (String.eqb eventType "game_info") eqn:E;
      [by apply String.eqb_eq in E|].
    cbn [called]. fold (known (off eventType cb f)). rewrite Hoff.
    unfold off. by destruct (eventListeners f !! eventType).
Qed.

Lemma listeners_form_a_set_witness :
  called (emit "play_again" VNull
            (off "play_again" 3
               (on "play_again" 5 (on "play_again" 3 (construct None)))))
  = [(5, VNull)].
Proof.
  destruct (listeners_form_a_set "play_again" 3
              (on "play_again" 5 (on "play_again" 3 (construct None))) VNull)
    as (_ & _ & _ & _ & H).
  by rewrite H.
Defined.

End FacadeMore.

(** * The safe storage wrapper *)

Section SafeStorageProperties.

Import SafeStorage.

Lemma checkAvailability_cached s :
  isAvailable (checkAvailability s).1 = Some (checkAvailability s).2.
Proof.
  unfold checkAvailability. destruct (isAvailable s) as [known|] eqn:E; [done|].
  destruct (negb (present (browser s))); [done|].
  destruct (nativeSet _ _ _) as [b1|]; [|done].
  by destruct (nativeRemove _ b1).
Qed.

Lemma checkAvailability_known s ok :
  isAvailable s = Some ok → checkAvailability s = (s, ok).
Proof. intros H. unfold checkAvailability. by rewrite H. Qed.

Lemma checkAvailability_items s :
  let s1 := (checkAvailability s).1 in
  present (browser s1) = present (browser s)
  ∧ denied (browser s1) = denied (browser s)
  ∧ full (browser s1) = full (browser s)
  ∧ (∀ k, k ≠ "__localStorage_test__" →
          items (browser s1) !! k = items (browser s) !! k)
  ∧ (isAvailable s = None → (checkAvailability s).2 = true →
     items (browser s1) !! "__localStorage_test__" = None).
Proof.
  unfold checkAvailability. destruct s as [[known|] [pr de fu it]];
    cbn [isAvailable browser fst snd].
  - by repeat split.
  - unfold nativeSet, nativeRemove, setItems.
    cbn [present denied full items negb].
    destruct pr, de, fu; cbn; repeat split; try done.
    + intros k Hk. by rewrite lookup_delete_ne, lookup_insert_ne.
    + intros _ _. by rewrite lookup_delete_eq.
Qed.

Lemma checkAvailability_first s :
  isAvailable s = None →
  (checkAvailability s).2
  = (present (browser s) && negb (denied (browser s)) && negb (full (browser s)))%bool.
Proof.
  intros H. unfold checkAvailability. rewrite H.
  unfold nativeSet, nativeRemove, setItems.
  destruct (browser s) as [pr de fu it]. cbn [present denied full items].
  by destruct pr, de, fu.
Qed.

(** X17. The answer of the first probe is kept for good. The probe of a
    wrapper that has not probed yet fails exactly when there is no
    storage, when touching it throws, or when it cannot take a write. From
    then on, in whatever state the browser's storage is later, reads
    find nothing, writes, removals and clearing report failure, and the
    storage is not touched. *)
Theorem failed_probe_is_kept s later key value keep :
  isAvailable s = None →
  (present (browser s) && negb (denied (browser s)) && negb (full (browser s)))%bool
  = false →
  let s' := {| isAvailable := isAvailable (checkAvailability s).1;
               browser := later |} in
  (checkAvailability s).2 = false
  ∧ browser (checkAvailability s).1 = browser s
  ∧ getItem key s' = (s', None)
  ∧ setItem key value s' = (s', false)
  ∧ removeItem key s' = (s', false)
  ∧ clear s' = (s', false)
  ∧ keys s' = (s', [])
  ∧ getFilteredKeys keep s' = (s', [])
  ∧ removeItems [key] s' = s'.
Proof.
  intros Hnew Hbad s'.
  pose proof (checkAvailability_first s Hnew) as Hfirst. rewrite Hbad in Hfirst.
  pose proof (checkAvailability_cached s) as Hcached. rewrite Hfirst in Hcached.
  assert (Hs' : checkAvailability s' = (s', false)).
  { apply checkAvailability_known. subst s'. by cbn. }
  split; [exact Hfirst|]. split.
  { unfold checkAvailability. rewrite Hnew.
    unfold nativeSet, nativeRemove, setItems. revert Hbad.
    destruct (browser s) as [pr de fu it]. cbn [present denied full items].
    by destruct pr, de, fu. }
  unfold getFilteredKeys, getItem, setItem, removeItem, clear, keys, removeItems,
    removeItem.
  by rewrite Hs'.
Qed.

Lemma failed_probe_is_kept_witness :
  let s := {| isAvailable := None;
              browser := {| present := true; denied := false; full := true;
                            items := {["score" := "12"]} |} |} in
  let s' := {| isAvailable := isAvailable (checkAvailability s).1;
               browser := {| present := true; denied := false; full := false;
                             items := {["score" := "12"]} |} |} in
  getItem "score" s' = (s', None).
Proof.
  intros s s'.
  by destruct (failed_probe_is_kept s (browser s') "score" "13" (λ _, true)
                 eq_refl eq_refl) as (_ & _ & H & _).
Defined.

(** X18. The first use of the wrapper on working storage removes
    whatever is stored under [__localStorage_test__]: a first read of
    that key finds nothing, and the entry is gone. Every other key reads
    as the browser has it. *)
Theorem first_use_clears_probe_key s :
  isAvailable s = None →
  (present (browser s) && negb (denied (browser s)) && negb (full (browser s)))%bool
  = true →
  (getItem "__localStorage_test__" s).2 = None
  ∧ items (browser (getItem "__localStorage_test__" s).1) !! "__localStorage_test__"
    = None
  ∧ ∀ key, key ≠ "__localStorage_test__" →
      (getItem key s).2 = items (browser s) !! key
      ∧ items (browser (getItem key s).1) !! key = items (browser s) !! key.
Proof.
  intros Hnew Hgood.
  pose proof (checkAvailability_first s Hnew) as Hfirst. rewrite Hgood in Hfirst.
  destruct (checkAvailability_items s) as (Hp & Hd & Hf & Hother & Hprobe).
  cbv zeta in Hp, Hd, Hf, Hother, Hprobe.
  specialize (Hprobe Hnew Hfirst).
  assert (Hget : ∀ key, getItem key s
                 = ((checkAvailability s).1,
                    items (browser (checkAvailability s).1) !! key)).
  { intros key. unfold getItem.
    destruct (checkAvailability s) as [s1 ok]. cbn [fst snd] in *. subst ok.
    unfold nativeGet. rewrite Hp, Hd.
    apply andb_prop in Hgood as [Hgood _]. by rewrite Hgood. }
  split; [by rewrite Hget|]. split; [by rewrite Hget|].
  intros key Hkey. rewrite Hget. cbn [fst snd]. by rewrite Hother.
Qed.

Lemma first_use_clears_probe_key_witness :
  let s := {| isAvailable := None;
              browser := {| present := true; denied := false; full := false;
                            items := {["__localStorage_test__" := "mine"]} |} |} in
  (getItem "__localStorage_test__" s).2 = None.
Proof.
  intros s.
  by destruct (first_use_clears_probe_key s eq_refl eq_refl) as (H & _).
Defined.

Lemma setItem_true key value s :
  (setItem key value s).2 = true →
  ∃ b, nativeSet key value (browser (checkAvailability s).1) = Some b
       ∧ setItem key value s = ({| isAvailable := Some true; browser := b |}, true).
Proof.
  unfold setItem. pose proof (checkAvailability_cached s) as Hc.
  destruct (checkAvailability s) as [s1 ok]. cbn [fst snd] in *.
  destruct ok; [|done].
  destruct (nativeSet key value (browser s1)) as [b|]; [|done].
  intros _. exists b. by rewrite Hc.
Qed.

Lemma nativeSet_Some key value b b' :
  nativeSet key value b = Some b' →
  present b' = true ∧ denied b' = false
  ∧ items b' = <[key := value]> (items b).
Proof.
  unfold nativeSet, setItems. destruct b as [pr de fu it].
  cbn [present denied full items].
  destruct pr, de, fu; try done. by intros [= <-].
Qed.

Lemma setItem_read_back key value s :
  (setItem key value s).2 = true →
  getItem key (setItem key value s).1 = ((setItem key value s).1, Some value)
  ∧ ∀ other, other ≠ key → other ≠ "__localStorage_test__" →
      (getItem other (setItem key value s).1).2 = items (browser s) !! other.
Proof.
  intros Hok. destruct (setItem_true key value s Hok) as (b & Hset & Hw).
  rewrite Hw. cbn [fst].
  destruct (nativeSet_Some _ _ _ _ Hset) as (Hp & Hd & Hi).
  assert (Hget : ∀ k, getItem k {| isAvailable := Some true; browser := b |}
                      = ({| isAvailable := Some true; browser := b |},
                         items b !! k)).
  { intros k. unfold getItem, checkAvailability, nativeGet.
    cbn [isAvailable browser]. by rewrite Hp, Hd. }
  split.
  - by rewrite Hget, Hi, lookup_insert_eq.
  - intros other Hne Hprobe. rewrite Hget. cbn [snd].
    rewrite Hi, lookup_insert_ne by done.
    destruct (checkAvailability_items s) as (_ & _ & _ & Hsame & _); by apply Hsame.
Qed.

(** X19. A write that reports success can be read back: the next read
    of the key gives the value written and leaves the wrapper and the
    storage as the write left them, and every other key except the
    probe's reads as before the write. A write that reports failure
    leaves every key except the probe's as it was. *)
Theorem setItem_then_getItem key value s :
  let written := setItem key value s in
  (written.2 = true →
   getItem key written.1 = (written.1, Some value)
   ∧ ∀ other, other ≠ key → other ≠ "__localStorage_test__" →
       (getItem other written.1).2 = items (browser s) !! other)
  ∧ (written.2 = false →
     ∀ other, other ≠ "__localStorage_test__" →
       items (browser written.1) !! other = items (browser s) !! other).
Proof.
  intros written. split; [apply setItem_read_back|].
  intros Hfail other Hprobe.
  assert (Hw : written.1 = (checkAvailability s).1).
  { revert Hfail. subst written. unfold setItem.
    destruct (checkAvailability s) as [s1 ok]. cbn [fst snd].
    destruct ok; [|done]. by destruct (nativeSet key value (browser s1)). }
  rewrite Hw.
  destruct (checkAvailability_items s) as (_ & _ & _ & Hsame & _); by apply Hsame.
Qed.

Lemma setItem_then_getItem_witness :
  let s := {| isAvailable := None;
              browser := {| present := true; denied := false; full := false;
                            items := {["score" := "12"]} |} |} in
  (getItem "level" (setItem "level" "3" s).1).2 = Some "3"
  ∧ (getItem "score" (setItem "level" "3" s).1).2 = Some "12".
Proof.
  intros s.
  destruct (setItem_then_getItem "level" "3" s) as [H _].
  destruct (H eq_refl) as [H1 H2]. split.
  - by rewrite H1.
  - by rewrite H2.
Defined.

(** X20. A value stored with [setJSON] comes back from [getJSON]
    whenever the write reports success, the text of the value is not
    empty and parses back to the value. A key that is missing, or whose
    text is empty or does not parse, gives the default. *)
Theorem setJSON_then_getJSON {T : Type} (parse : string → option T)
    (stringify : T → option string) key (value : T) defaultValue text s :
  stringify value = Some text →
  text ≠ "" →
  let written := setJSON stringify key value s in
  (written.2 = true → parse text = Some value →
   getJSON parse key defaultValue written.1 = (written.1, Some value))
  ∧ (written.2 = true → parse text = None →
     getJSON parse key defaultValue written.1 = (written.1, defaultValue))
  ∧ ((getItem key s).2 = None →
     (getJSON parse key defaultValue s).2 = defaultValue).
Proof.
  intros Htext Hne written.
  assert (Hw : written = setItem key text s).
  { subst written. unfold setJSON. by rewrite Htext. }
  assert (Hread : written.2 = true →
                  getItem key written.1 = (written.1, Some text)).
  { intros Hok. rewrite Hw in Hok |- *.
    by destruct (setItem_read_back key text s Hok). }
  assert (Htruthy : Host.truthyStr (Some text) = Some text).
  { unfold Host.truthyStr. destruct (String.eqb text "") eqn:E; [|done].
    by apply String.eqb_eq in E. }
  repeat split.
  - intros Hok Hparse. unfold getJSON. rewrite (Hread Hok), Htruthy. by rewrite Hparse.
  - intros Hok Hparse. unfold getJSON. rewrite (Hread Hok), Htruthy. by rewrite Hparse.
  - unfold getJSON. destruct (getItem key s) as [s1 found]. cbn [snd].
    by intros ->.
Qed.

Lemma setJSON_then_getJSON_witness :
  let s := {| isAvailable := None;
              browser := {| present := true; denied := false; full := false;
                            items := ∅ |} |} in
  let parse text := if String.eqb text "true" then Some true
                    else if String.eqb text "false" then Some false else None in
  let stringify (b : bool) := Some (if b then "true" else "false") in
  (getJSON parse "muted" None (setJSON stringify "muted" true s).1).2 = Some true.
Proof.
  intros s parse stringify.
  destruct (setJSON_then_getJSON parse stringify "muted" true None "true" s eq_refl)
    as (H & _); [done|].
  by rewrite (H eq_refl eq_refl).
Defined.

End SafeStorageProperties.

(** * The game-state panel: storing and loading *)

Section PanelProperties.

Import Codec Panel.

Lemma normalizeGameState_dataFree raw : dataFree (normalizeGameState raw).
Proof.
  destruct raw as [| |b|n|s|items|o]; try done.
  unfold normalizeGameState.
  destruct (hasKey "gameState" o) eqn:Eg.
  - destruct (_ && _)%bool; cbn [dataFree].
    + rewrite hasKey_setKey_ne by done. apply hasKey_removeKey_same.
    + apply hasKey_removeKey_same.
  - destruct (hasKey "data" o) eqn:Ed; cbn [dataFree]; [|done].
    rewrite hasKey_setKey_ne by done. apply hasKey_removeKey_same.
Qed.

Lemma stampBody_dataFree now v : dataFree v → dataFree (stampBody now v).
Proof.
  destruct v as [| |b|n|s|items|o]; try done. cbn [stampBody dataFree].
  intros H. destruct (truthy (getKey "timestamp" o)); [done|].
  cbn [dataFree]. by rewrite hasKey_setKey_ne.
Qed.

Lemma stampState_dataFree now v : dataFree v → dataFree (stampState now v).
Proof.
  destruct v as [| |b|n|s|items|o]; try done. intros H. unfold stampState.
  destruct (getKey "gameState" o) eqn:E;
    try (by apply stampBody_dataFree);
    cbn [dataFree]; by rewrite hasKey_setKey_ne.
Qed.

Lemma hasKey_jsonify k (o : list (string * value)) :
  hasKey k o = false →
  hasKey k (flat_map (λ kv, let '(k', x) := kv in
                            match x with
                            | VUndefined => []
                            | _ => [(k', jsonify x)]
                            end) o) = false.
Proof.
  induction o as [|[k' x] o IH]; [done|]. cbn [hasKey flat_map].
  destruct (String.eqb k k') eqn:E; [done|]. intros H.
  destruct x; cbn [app hasKey]; rewrite ?E; by apply IH.
Qed.

Lemma jsonify_dataFree v : dataFree v → dataFree (jsonify v).
Proof.
  destruct v as [| |b|n|s|items|o]; try done. cbn [jsonify dataFree].
  apply hasKey_jsonify.
Qed.

Lemma normalizeGameState_of_dataFree v : dataFree v → normalizeGameState v = v.
Proof.
  destruct v as [| |b|n|s|items|o]; try done. cbn [dataFree]. intros H.
  unfold normalizeGameState. rewrite H, (getKey_absent _ _ H), (removeKey_absent _ _ H).
  cbn [isUndefined negb]. rewrite andb_false_r. by destruct (hasKey "gameState" o).
Qed.

(** X21. What the panel's auto-save writes, the panel loads back. For
    the text parsed to [raw], saved at clock reading [now], the stored
    record read back by [loadGameStateFromStorage] gives the normalized
    state with its time stamp, as [JSON] keeps it, when that value is
    truthy, and [null] otherwise; the loaded state is one that
    [normalizeGameState] leaves as it is. *)
Theorem autoSave_then_load now raw :
  let kept := jsonify (stampState now (normalizeGameState raw)) in
  loadGameStateFromStorage (Some (jsonify (autoSaveRecord now raw)))
  = (if truthy kept then kept else VNull)
  ∧ normalizeGameState kept = kept.
Proof.
  intros kept.
  assert (Hfree : normalizeGameState kept = kept).
  { apply normalizeGameState_of_dataFree, jsonify_dataFree, stampState_dataFree,
      normalizeGameState_dataFree. }
  split; [|exact Hfree].
  unfold autoSaveRecord, loadGameStateFromStorage.
  set (parsedState := stampState now (normalizeGameState raw)) in *.
  set (ps := orElse _ _).
  assert (Hps : ps ≠ VUndefined).
  { subst ps. unfold orElse. destruct (truthy (prop "players" _)) eqn:E; [|done].
    intros Hu. by rewrite Hu in E. }
  assert (Hgs : prop "gameState"
                  (jsonify (VObj [("gameState", parsedState); ("players", ps);
                                  ("currentPlayerId", VNull)]))
                = kept ∧
                (truthy kept = false →
                 prop "moves"
                   (jsonify (VObj [("gameState", parsedState); ("players", ps);
                                   ("currentPlayerId", VNull)])) = VUndefined)).
  { subst kept. cbn [jsonify flat_map app].
    destruct parsedState; destruct ps; try done. }
  destruct Hgs as [Hgs Hmoves]. rewrite Hgs.
  destruct (truthy kept) eqn:E; [by rewrite Hfree|].
  by rewrite (Hmoves eq_refl).
Qed.

(** X22. The list of saved states. A save puts its entry at the front,
    labelled [Untitled], and only when the text is not empty and parses.
    Deleting by id, once confirmed, removes every entry that carries the
    id and keeps the others as they are and in their order; so two saves
    that drew the same id are deleted together. Relabelling keeps the
    place, id, time and state of every entry and gives the new label to
    the entries with the id, an empty label becoming [Untitled]. *)
Theorem saved_states_by_id text gameState gameState' t t' id newLabel savedStates :
  text ≠ "" →
  let entry g tick := {| s_id := Host.rnd tick; s_label := "Untitled";
                         s_timestamp := Host.now tick; s_gameState := g |} in
  let twice := handleSave text None gameState' t'
                 (handleSave text None gameState t savedStates) in
  twice = entry gameState' t' :: entry gameState t :: savedStates
  ∧ handleSave "" None gameState t savedStates = savedStates
  ∧ (∀ error, error ≠ "" →
       handleSave text (Some error) gameState t savedStates = savedStates)
  ∧ handleDeleteState id true savedStates
    = filter (λ s, s_id s ≠ id) savedStates
  ∧ (Host.rnd t' = Host.rnd t →
     handleDeleteState (Host.rnd t) true twice
     = handleDeleteState (Host.rnd t) true savedStates)
  ∧ handleDeleteState id false savedStates = savedStates
  ∧ s_id <$> handleUpdateLabel id newLabel savedStates = s_id <$> savedStates
  ∧ s_timestamp <$> handleUpdateLabel id newLabel savedStates
    = s_timestamp <$> savedStates
  ∧ s_gameState <$> handleUpdateLabel id newLabel savedStates
    = s_gameState <$> savedStates
  ∧ s_label <$> handleUpdateLabel id newLabel savedStates
    = (λ s, if decide (s_id s = id)
            then (if decide (newLabel = "") then "Untitled" else newLabel)
            else s_label s) <$> savedStates.
Proof.
  intros Htext entry twice.
  assert (Hsave : ∀ g tick l, handleSave text None g tick l = entry g tick :: l).
  { intros g tick l. unfold handleSave. cbn [Host.truthyStr].
    destruct (String.eqb text "") eqn:E; [by apply String.eqb_eq in E|done]. }
  assert (Hmap : ∀ {B} (f g : SavedState → B) l,
            (∀ s, g s = if String.eqb (s_id s) id
                        then f {| s_id := s_id s;
                                  s_label := if String.eqb newLabel "" then "Untitled"
                                             else newLabel;
                                  s_timestamp := s_timestamp s;
                                  s_gameState := s_gameState s |}
                        else f s) →
            f <$> handleUpdateLabel id newLabel l = g <$> l).
  { intros B f g l Hg. unfold handleUpdateLabel.
    induction l as [|s l IH]; [done|]. cbn [map fmap list_fmap] in *.
    f_equal; [|exact IH]. rewrite Hg. by destruct (String.eqb (s_id s) id). }
  split; [subst twice; by rewrite !Hsave|].
  split; [done|].
  split.
  { intros error Herr. unfold handleSave. cbn [Host.truthyStr].
    destruct (String.eqb text ""); [done|].
    destruct (String.eqb error "") eqn:E; [by apply String.eqb_eq in E|done]. }
  split.
  { unfold handleDeleteState. induction savedStates as [|s l IH]; [done|].
    cbn [List.filter]. destruct (String.eqb (s_id s) id) eqn:E; cbn [negb].
    - apply String.eqb_eq in E. by rewrite filter_cons_False by (by intros H).
    - apply String.eqb_neq in E. by rewrite filter_cons_True, IH by done. }
  split.
  { intros Hsame. subst twice. rewrite !Hsave. unfold handleDeleteState, entry.
    cbn [List.filter s_id]. rewrite Hsame, String.eqb_refl. done. }
  split; [done|].
  split; [apply Hmap; intros s; by destruct (String.eqb (s_id s) id)|].
  split; [apply Hmap; intros s; by destruct (String.eqb (s_id s) id)|].
  split; [apply Hmap; intros s; by destruct (String.eqb (s_id s) id)|].
  apply Hmap. intros s. cbn [s_label].
  destruct (String.eqb_spec (s_id s) id) as [Heq|Hne].
  - rewrite decide_True by done.
    destruct (String.eqb_spec newLabel "") as [Hl|Hl];
      [by rewrite decide_True|by rewrite decide_False].
  - by rewrite decide_False.
Qed.

Lemma saved_states_by_id_witness :
  let twice := handleSave "{}" None (VObj []) Samples.tick1
                 (handleSave "{}" None VNull Samples.tick1 []) in
  s_gameState <$> twice = [VObj []; VNull]
  ∧ handleDeleteState "k3j9x0ab" true twice = [].
Proof.
  intros twice.
  destruct (saved_states_by_id "{}" VNull (VObj []) Samples.tick1 Samples.tick1
              "k3j9x0ab" "" []) as (H1 & _ & _ & _ & H5 & _); [done|].
  split; [exact (f_equal (fmap s_gameState) H1)|exact (H5 eq_refl)].
Defined.

End PanelProperties.

(** * Dashboard utilities *)

Section UtilsProperties.

Import Utils.

(** X23. [formatTimeAgo] by elapsed time. No time stamp gives [Never].
    Otherwise, with [d] the milliseconds elapsed: less than a second,
    or a time stamp in the future, gives [Just now]; then whole seconds
    up to a minute, whole minutes up to an hour, whole hours up to a
    day, and whole days from there on, each rounded down. *)
Theorem formatTimeAgo_by_elapsed timestamp now :
  let d := (now - timestamp)%Z in
  formatTimeAgo 0 now = "Never"
  ∧ (timestamp ≠ 0%Z →
     formatTimeAgo timestamp now
     = if (d <? 1000)%Z then "Just now"
       else if (d <? 60000)%Z then decZ (d / 1000) +:+ "s ago"
       else if (d <? 3600000)%Z then decZ (d / 60000) +:+ "m ago"
       else if (d <? 86400000)%Z then decZ (d / 3600000) +:+ "h ago"
       else decZ (d / 86400000) +:+ "d ago").
Proof.
  intros d. split; [done|]. intros Hts. unfold formatTimeAgo.
  destruct (Z.eqb_spec timestamp 0) as [|_]; [done|]. fold d.
  assert (Hm : (d / 1000 / 60 = d / 60000)%Z) by (rewrite Z.div_div by lia; done).
  assert (Hh : (d / 1000 / 60 / 60 = d / 3600000)%Z)
    by (rewrite !Z.div_div by lia; done).
  assert (Hd : (d / 1000 / 60 / 60 / 24 = d / 86400000)%Z)
    by (rewrite !Z.div_div by lia; done).
  rewrite Hd, Hh, Hm.
  assert (Hpos : ∀ k, (0 < k)%Z → (0 <? d / k)%Z = negb (d <? k)%Z).
  { intros k Hk. destruct (Z.ltb_spec d k) as [Hlt|Hge]; cbn [negb].
    - apply Z.ltb_ge. destruct (Z.le_gt_cases 0 d) as [Hnn|Hneg].
      + by rewrite Z.div_small by lia.
      + apply Z.lt_le_incl, Z.div_lt_upper_bound; lia.
    - apply Z.ltb_lt. apply (Z.lt_le_trans _ 1); [lia|].
      apply Z.div_le_lower_bound; lia. }
  rewrite !Hpos by lia.
  destruct (Z.ltb_spec d 1000), (Z.ltb_spec d 60000), (Z.ltb_spec d 3600000),
    (Z.ltb_spec d 86400000); cbn [negb]; try done; lia.
Qed.

Lemma formatTimeAgo_by_elapsed_witness :
  formatTimeAgo 1700000000000 1700000125000 = "2m ago".
Proof.
  destruct (formatTimeAgo_by_elapsed 1700000000000 1700000125000) as [_ H].
  by rewrite H.
Defined.

End UtilsProperties.

(** * Time stamps and relays *)

Section Stamps.

Import Codec Panel.

Lemma setKey_setKey k v v' o : setKey k v (setKey k v' o) = setKey k v o.
Proof.
  induction o as [|[k' x] o IH]; cbn [setKey].
  - by rewrite String.eqb_refl.
  - destruct (String.eqb k k') eqn:E; cbn [setKey]; rewrite E; [done|].
    by rewrite IH.
Qed.

Lemma setKey_getKey k o : hasKey k o = true → setKey k (getKey k o) o = o.
Proof.
  induction o as [|[k' x] o IH]; [done|]. cbn [hasKey getKey setKey].
  destruct (String.eqb k k'); [done|]. intros H. by rewrite IH.
Qed.

Lemma getKey_present k o : getKey k o ≠ VUndefined → hasKey k o = true.
Proof.
  intros H. destruct (hasKey k o) eqn:E; [done|].
  by rewrite getKey_absent in H.
Qed.

Lemma stampBody_once now now' body :
  now ≠ 0%N → stampBody now' (stampBody now body) = stampBody now body.
Proof.
  intros Hnow. destruct body as [| |b|n|s|items|o]; try done. cbn [stampBody].
  destruct (truthy (getKey "timestamp" o)) eqn:E; cbn [stampBody].
  - by rewrite E.
  - rewrite getKey_setKey_same. cbn [truthy].
    destruct (Z.eqb_spec (Z.of_N now) 0); [lia|done].
Qed.

Lemma stampBody_nullish now body : nullish (stampBody now body) = nullish body.
Proof.
  destruct body as [| |b|n|s|items|o]; try done. cbn [stampBody].
  by destruct (truthy (getKey "timestamp" o)).
Qed.

Lemma stampState_cases now o :
  stampState now (VObj o)
  = if nullish (getKey "gameState" o) then stampBody now (VObj o)
    else VObj (setKey "gameState" (stampBody now (getKey "gameState" o)) o).
Proof. unfold stampState. by destruct (getKey "gameState" o). Qed.

Lemma stateBody_cases o :
  stateBody (VObj o)
  = if nullish (getKey "gameState" o) then VObj o else getKey "gameState" o.
Proof. unfold stateBody. cbn [isObjectLike prop]. by destruct (getKey "gameState" o). Qed.

Lemma truthy_stamp now : now ≠ 0%N → truthy (VNum (Z.of_N now)) = true.
Proof. intros H. cbn [truthy]. destruct (Z.eqb_spec (Z.of_N now) 0); [lia|done]. Qed.

(** X25. The time stamp that the panel puts on a state before storing
    it. It goes on the state body, which is the object under
    [gameState] when there is one and the state itself otherwise. A body
    without a truthy [timestamp] takes the clock reading; a body that
    has one leaves the state as it is; so stamping a stamped state again
    at any later time changes nothing. *)
Theorem stamp_is_added_once now now' v :
  now ≠ 0%N →
  stampState now' (stampState now v) = stampState now v
  ∧ (∀ o, stateBody v = VObj o → truthy (getKey "timestamp" o) = false →
       prop "timestamp" (stateBody (stampState now v)) = VNum (Z.of_N now))
  ∧ (∀ o, stateBody v = VObj o → truthy (getKey "timestamp" o) = true →
       stampState now v = v).
Proof.
  intros Hnow. destruct v as [| |b|n|s|items|o]; try done.
  rewrite stateBody_cases, (stampState_cases now o).
  destruct (nullish (getKey "gameState" o)) eqn:En.
  - cbn [stampBody]. destruct (truthy (getKey "timestamp" o)) eqn:Et.
    + split; [|split].
      * rewrite stampState_cases, En. cbn [stampBody]. by rewrite Et.
      * intros o' [= <-]. by rewrite Et.
      * done.
    + split; [|split].
      * rewrite stampState_cases, getKey_setKey_ne, En by done.
        cbn [stampBody]. by rewrite getKey_setKey_same, truthy_stamp.
      * intros o' _ _. rewrite stateBody_cases, getKey_setKey_ne, En by done.
        cbn [prop]. by rewrite getKey_setKey_same.
      * intros o' [= <-]. by rewrite Et.
  - assert (Hhas : hasKey "gameState" o = true).
    { apply getKey_present. intros Hu. by rewrite Hu in En. }
    split; [|split].
    + rewrite stampState_cases, getKey_setKey_same, stampBody_nullish, En.
      by rewrite stampBody_once, setKey_setKey.
    + intros body Hbody Ht.
      rewrite stateBody_cases, getKey_setKey_same, stampBody_nullish, En.
      rewrite Hbody. cbn [stampBody]. rewrite Ht. cbn [prop].
      by rewrite getKey_setKey_same.
    + intros body Hbody Ht. rewrite Hbody. cbn [stampBody]. rewrite Ht.
      by rewrite <- Hbody, setKey_getKey.
Qed.

Lemma stamp_is_added_once_witness :
  stampState 1700000000250
    (stampState 1700000000000 (VObj [("gameState", VObj [("score", VNum 3)])]))
  = VObj [("gameState",
           VObj [("score", VNum 3); ("timestamp", VNum 1700000000000)])].
Proof.
  destruct (stamp_is_added_once 1700000000000 1700000000250
              (VObj [("gameState", VObj [("score", VNum 3)])])) as [H _]; [done|].
  by rewrite H.
Defined.

End Stamps.

Section Relay.

Import Host HostMore.

(** X24. A save is relayed to the other host windows and not echoed.
    With working storage, what a readable save leaves under the
    broadcast key is ignored when it comes back to the saving host as a
    storage event; a host with another id posts one
    [game_state_updated] to each registered client, in some order, or
    one to its own window when it has none; and a storage event under
    any other key is ignored. *)
Theorem save_is_relayed data t stamp a b :
  storageAvailable a = true →
  isObjectLike data = true →
  rosterReadable data = true →
  let a' := (handleSaveGameState data t stamp a).1 in
  let event := localStorage a' !! BROADCAST_STORAGE_KEY in
  is_Some event
  ∧ handleStorageBroadcast BROADCAST_STORAGE_KEY event a' = []
  ∧ (hostId b ≠ hostId a →
     ∃ payload,
       handleStorageBroadcast BROADCAST_STORAGE_KEY event b
       ≡ₚ (λ win, ToClient win "game_state_updated" payload) <$> fanOutTargets b)
  ∧ (∀ key, key ≠ BROADCAST_STORAGE_KEY →
            handleStorageBroadcast key event b = []).
Proof.
  intros Ha Hobj Hread a' event.
  assert (Hev : event = Some (StoredBroadcast
                          {| senderId := hostId a; b_type := "game_state_updated";
                             b_data := PEnvelope (makeEnvelope data t);
                             timestamp := stamp |})
                ∧ hostId a' = hostId a).
  { subst event a'. revert Hread. unfold rosterReadable, handleSaveGameState.
    rewrite Hobj. cbn [negb].
    destruct (payloadRoster (prop "gameState" data)) as [roster|].
    - destruct (rosterFrom 0 roster); [|done]. intros _.
      unfold broadcastToOtherWindows, persistState. rewrite !setItem_eq.
      world_fields. rewrite Ha. world_fields. by rewrite lookup_insert_eq.
    - intros _. unfold broadcastToOtherWindows, persistState. rewrite !setItem_eq.
      world_fields. rewrite Ha. world_fields. by rewrite lookup_insert_eq. }
  destruct Hev as [Hev Hid]. rewrite Hev.
  split; [by eexists|]. split; [|split].
  - unfold handleStorageBroadcast. rewrite String.eqb_refl. cbn [negb senderId].
    by rewrite Hid, String.eqb_refl.
  - intros Hother. eexists. unfold handleStorageBroadcast.
    rewrite String.eqb_refl. cbn [negb senderId b_type b_data].
    destruct (String.eqb (hostId a) (hostId b)) eqn:E.
    + apply String.eqb_eq in E. by destruct Hother.
    + by rewrite sendGameEvent_fanOut.
  - intros key Hkey. unfold handleStorageBroadcast.
    destruct (String.eqb key BROADCAST_STORAGE_KEY) eqn:E; [|done].
    by apply String.eqb_eq in E.
Qed.

Lemma save_is_relayed_witness :
  let a := Samples.freshHost true in
  let b := (handleReady (Some 4) Samples.hintsB Samples.tick2
              (newHost "0therh0st" true 0 "bizarre ball toss" true ∅).1).1 in
  let event := localStorage (handleSaveGameState Samples.payload Samples.tick1 5 a).1
               !! BROADCAST_STORAGE_KEY in
  ∃ payload,
    handleStorageBroadcast BROADCAST_STORAGE_KEY event b
    ≡ₚ [ToClient 4 "game_state_updated" payload].
Proof.
  intros a b event.
  destruct (save_is_relayed Samples.payload Samples.tick1 5 a b)
    as (_ & _ & H & _); [reflexivity|reflexivity|reflexivity|].
  destruct H as [payload H]; [done|]. exists payload. exact H.
Defined.

End Relay.

Section PanelRecords.

Import Codec Panel.

Lemma stampBody_prop now k body :
  k ≠ "timestamp" → prop k (stampBody now body) = prop k body.
Proof.
  intros Hk. destruct body as [| |b|n|s|items|o]; try done. cbn [stampBody].
  destruct (truthy (getKey "timestamp" o)); [done|].
  cbn [prop]. by rewrite getKey_setKey_ne.
Qed.

Lemma stateBody_stamped now k v :
  k ≠ "timestamp" →
  prop k (stateBody (stampState now v)) = prop k (stateBody v).
Proof.
  intros Hk. destruct v as [| |b|n|s|items|o]; try done.
  rewrite (stateBody_cases o), stampState_cases.
  destruct (nullish (getKey "gameState" o)) eqn:En.
  - cbn [stampBody]. destruct (truthy (getKey "timestamp" o)).
    + by rewrite stateBody_cases, En.
    + rewrite stateBody_cases, getKey_setKey_ne, En by done.
      cbn [prop]. by rewrite getKey_setKey_ne.
  - rewrite stateBody_cases, getKey_setKey_same, stampBody_nullish, En.
    by apply stampBody_prop.
Qed.

(** X26. What the panel stores beside the state, on auto-save and on
    loading a saved state. The roster is the [players] of the state
    body when that is truthy and players 1 and 2 otherwise; the time
    stamp put on the body does not change what is read from it. An
    auto-save stores no turn; loading a saved state stores the body's
    [currentPlayer] when that is truthy. Both store the same state. *)
Theorem panel_record_fields now raw :
  let body := stateBody (normalizeGameState raw) in
  prop "players" (autoSaveRecord now raw)
  = orElse (prop "players" body) defaultPlayers
  ∧ prop "players" (loadStateRecord now raw)
    = orElse (prop "players" body) defaultPlayers
  ∧ prop "currentPlayerId" (autoSaveRecord now raw) = VNull
  ∧ prop "currentPlayerId" (loadStateRecord now raw)
    = orElse (prop "currentPlayer" body) VNull
  ∧ prop "gameState" (loadStateRecord now raw)
    = prop "gameState" (autoSaveRecord now raw).
Proof.
  intros body. unfold autoSaveRecord, loadStateRecord. cbn [prop getKey String.eqb].
  rewrite !stateBody_stamped by done. by repeat split.
Qed.

End PanelRecords.
